(** * The upgrade engine of create-velocity-astro, embedded in Rocq

    The development follows the TypeScript sources:
    - [src/upgrade.ts]: [isVersionLessThan], [walkFiles],
      [scanForMigrationPatterns], [mergePackageJsonDeps], [upgrade], [cleanup];
    - [src/utils/diff.ts]: [walkDir], [expandPaths], [diffProjects],
      [summarizeDiffs];
    - [src/utils/velocity-config.ts]: [readVelocityConfig],
      [writeVelocityConfig];
    - [src/upgrade-prompts.ts]: [warnDirtyGit], [confirmUpgrade].

    How the program is modelled:
    - JavaScript strings are Rocq strings (ASCII text) and arrays are lists;
      counters are natural numbers; a Number read by [parseInt] is the
      integer that the double stands for (see [Version.nearestDouble]);
    - an object that [JSON.parse] made and that the code uses as a map is a
      [gmap] with string keys for its own properties, read through the
      properties that every object inherits from [Object.prototype] where the
      code reads it so; the order of the keys of such a map is not modelled,
      the order of the members of the package descriptor is;
    - a function that may throw returns an [option], [None] being the
      exception;
    - the file system is a tree of regular files and directories; symbolic
      links and concurrent changes are left out, and of the permissions only
      those that make a file unreadable, the removal of the temporary
      directory fail, or the listing of a scanned directory fail;
    - paths follow the POSIX flavour of [node:path];
    - the orchestrator threads the file tree and a log of its steps through a
      small state monad whose computations end by returning, by
      [process.exit] or by an exception. *)

From Stdlib Require Import ZArith NArith Ascii String List DecimalString SpecFloat.
From stdpp Require Import base option list gmap strings.

Local Open Scope string_scope.
Local Open Scope Z_scope.
Local Open Scope list_scope.

(** ** Version comparator ([isVersionLessThan], upgrade.ts l.60-78) *)

Module Version.

(** [v.replace(/^v/, '')]: at most one leading [v] is dropped. *)
Definition strip_v (v : string) : string :=
  match v with
  | String "v" rest => rest
  | _ => v
  end.

(** The separator class [[-.]] of the split. *)
Definition is_sep (c : ascii) : bool :=
  (Ascii.eqb c "-" || Ascii.eqb c ".")%bool.

(** [s.split(/[-.]/)]: every separator ends a piece, so the result always has
    one piece more than there are separators (the empty string gives [[""]]). *)
Fixpoint split (s : string) : list string :=
  match s with
  | EmptyString => [EmptyString]
  | String c rest =>
      if is_sep c then EmptyString :: split rest
      else match split rest with
           | piece :: pieces => String c piece :: pieces
           | [] => [String c EmptyString]
           end
  end.

(** White space skipped by [parseInt], within ASCII (tab, line feed,
    vertical tab, form feed, carriage return, space). *)
Definition is_space (c : ascii) : bool :=
  let n := nat_of_ascii c in
  ((9 <=? n)%nat && (n <=? 13)%nat || (n =? 32)%nat)%bool.

Definition digit_of (c : ascii) : option Z :=
  let n := Z.of_nat (nat_of_ascii c) in
  if (48 <=? n) && (n <=? 57) then Some (n - 48) else None.

Fixpoint skip_space (s : string) : string :=
  match s with
  | String c rest => if is_space c then skip_space rest else s
  | EmptyString => s
  end.

(** Longest run of decimal digits at the front of [s], read with accumulator
    [acc]; [seen] records whether a digit was consumed. *)
Fixpoint digits (s : string) (acc : Z) (seen : bool) : option Z :=
  match s with
  | String c rest =>
      match digit_of c with
      | Some d => digits rest (10 * acc + d) true
      | None => if seen then Some acc else None
      end
  | EmptyString => if seen then Some acc else None
  end.

(** The Number that a non-negative integer [n] becomes (the step from the
    mathematical value of the digits to the Number value in [parseInt]): the
    nearest IEEE 754 double, a tie going to the even significand of 53
    bits, written as the integer that this double is.  Up to [2^53] nothing
    is lost.  Beyond the largest double the Number is [Infinity], written
    [2^1024] here, which is above every double, so that [<] on these
    integers is [<] on the Numbers. *)
Definition nearestDouble (n : Z) : Z :=
  if n <? 2 ^ 53 then n
  else
    let e := Z.log2 n - 52 in
    let q := Z.shiftr n e in
    let r := n - Z.shiftl q e in
    let half := Z.shiftl 1 (e - 1) in
    let q' := if ((half <? r) || ((r =? half) && Z.odd q))%bool then q + 1 else q in
    let v := Z.shiftl q' e in
    if 2 ^ 1024 <=? v then 2 ^ 1024 else v.

(** [parseInt(p, 10)]; [None] is [NaN]: white space is skipped, one sign is
    read, and the longest run of decimal digits that follows is the value. *)
Definition parseInt (p : string) : option Z :=
  match skip_space p with
  | String "-" rest => (fun n => - nearestDouble n) <$> digits rest 0 false
  | String "+" rest => nearestDouble <$> digits rest 0 false
  | body => nearestDouble <$> digits body 0 false
  end.

(** [const n = parseInt(p, 10); return isNaN(n) ? 0 : n]. *)
Definition component (p : string) : Z := default 0 (parseInt p).

Definition parse (v : string) : list Z := component <$> split (strip_v v).

(** [a[i] ?? 0]. *)
Definition at_or_zero (a : list Z) (i : nat) : Z := default 0 (a !! i).

(** The [for] loop from index [i] with [todo] iterations left. *)
Fixpoint scan (a b : list Z) (i todo : nat) : bool :=
  match todo with
  | O => false
  | S todo' =>
      let av := at_or_zero a i in
      let bv := at_or_zero b i in
      if av <? bv then true
      else if bv <? av then false
      else scan a b (S i) todo'
  end.

Definition isVersionLessThan (current required : string) : bool :=
  let a := parse current in
  let b := parse required in
  let len := Nat.max (length a) (length b) in
  scan a b 0 len.

End Version.

(** ** File diffs and their tally ([FileDiff], [summarizeDiffs], diff.ts l.83-107) *)

Inductive DiffStatus := added | modified | unchanged | removed.
Inductive FileCategory := safe | protected.

Record FileDiff := mkFileDiff {
  path : string;
  status : DiffStatus;
  category : FileCategory
}.

Record DiffSummary := mkSummary {
  n_added : nat;
  n_modified : nat;
  n_unchanged : nat
}.

#[global] Instance DiffStatus_eq_dec : EqDecision DiffStatus.
Proof. solve_decision. Defined.
#[global] Instance FileCategory_eq_dec : EqDecision FileCategory.
Proof. solve_decision. Defined.

(** One iteration of the [for ... switch] of [summarizeDiffs]. *)
Definition tally_step (acc : DiffSummary) (diff : FileDiff) : DiffSummary :=
  match status diff with
  | added => mkSummary (S (n_added acc)) (n_modified acc) (n_unchanged acc)
  | modified => mkSummary (n_added acc) (S (n_modified acc)) (n_unchanged acc)
  | unchanged => mkSummary (n_added acc) (n_modified acc) (S (n_unchanged acc))
  | removed => acc
  end.

Definition summarizeDiffs (diffs : list FileDiff) : DiffSummary :=
  fold_left tally_step diffs (mkSummary 0 0 0).

(** Number of entries of [diffs] whose status is [s]. *)
Definition count_status (s : DiffStatus) (diffs : list FileDiff) : nat :=
  length (filter (fun d => status d = s) diffs).

(** ** Paths ([node:path] [join], [relative], [dirname])

    A value of [Path.t] stands for the normalized string that [join] returns:
    its segments from the root of the tree and whether it ends with a
    separator.  Paths are resolved from the root of the modelled file tree
    (POSIX separators; the working directory is the root). *)

Module Path.

Record t := mk { segs : list string; trailing : bool }.

(** [s.split('/')]. *)
Fixpoint split (s : string) : list string :=
  match s with
  | EmptyString => [EmptyString]
  | String c rest =>
      if Ascii.eqb c "/" then EmptyString :: split rest
      else match split rest with
           | piece :: pieces => String c piece :: pieces
           | [] => [String c EmptyString]
           end
  end.

(** [s.endsWith('/')]. *)
Fixpoint endsWithSlash (s : string) : bool :=
  match s with
  | EmptyString => false
  | String c EmptyString => Ascii.eqb c "/"
  | String _ rest => endsWithSlash rest
  end.

(** One step of path normalization: empty and [.] pieces vanish, [..] drops
    the last segment kept so far (and is itself dropped at the root). *)
Definition push (kept : list string) (piece : string) : list string :=
  if String.eqb piece "" then kept
  else if String.eqb piece "." then kept
  else if String.eqb piece ".." then removelast kept
  else kept ++ [piece].

Definition normalize_onto (kept : list string) (pieces : list string) : list string :=
  fold_left push pieces kept.

Definition parse (s : string) : t :=
  mk (normalize_onto [] (split s)) (endsWithSlash s).

(** [join(dir, s)]: an empty argument is skipped, otherwise the pieces of
    [s] are normalized onto those of [dir] and the trailing separator is
    that of [s]. *)
Definition join (dir : t) (s : string) : t :=
  if String.eqb s "" then dir
  else mk (normalize_onto (segs dir) (split s)) (endsWithSlash s).

(** [dirname(p)]. *)
Definition dirname (p : t) : t := mk (removelast (segs p)) false.

Fixpoint drop_common (a b : list string) : list string * list string :=
  match a, b with
  | x :: a', y :: b' => if String.eqb x y then drop_common a' b' else (a, b)
  | _, _ => (a, b)
  end.

(** [relative(from, to)]: one [..] per segment of [from] left after the
    common prefix, then what is left of [to]. *)
Definition relative (from to : t) : string :=
  let '(up, down) := drop_common (segs from) (segs to) in
  String.concat "/" (repeat ".." (length up) ++ down).

End Path.

(** ** The file tree ([node:fs]) *)

Module Fs.

(** A regular file (whose content cannot be read when [None], as with a
    permission error) or a directory with its entries in [readdirSync]
    order.  In a tree that stands for a disk the names in a directory are
    distinct file names (not empty, without separator, neither [.] nor
    [..]), so that the node found at [join(dir, name)] is the entry called
    [name] of the directory at [dir]. *)
#[warnings="-register-all"]
Inductive node :=
| File (content : option string)
| Dir (entries : list (string * node)).

Definition isDirectory (n : node) : bool :=
  match n with Dir _ => true | File _ => false end.

Fixpoint find_entry (name : string) (es : list (string * node)) : option node :=
  match es with
  | [] => None
  | (n, c) :: rest => if String.eqb n name then Some c else find_entry name rest
  end.

Fixpoint lookup (root : node) (p : list string) : option node :=
  match p with
  | [] => Some root
  | s :: p' =>
      match root with
      | Dir es =>
          match find_entry s es with
          | Some c => lookup c p'
          | None => None
          end
      | File _ => None
      end
  end.

(** [statSync(p)], [None] when it throws: a path written with a trailing
    separator does not resolve to a regular file (ENOTDIR). *)
Definition statSync (fs : node) (p : Path.t) : option node :=
  match lookup fs (Path.segs p) with
  | Some (File c) => if Path.trailing p then None else Some (File c)
  | r => r
  end.

Definition existsSync (fs : node) (p : Path.t) : bool :=
  match statSync fs p with Some _ => true | None => false end.

(** [readdirSync(p, { withFileTypes: true })], [None] when it throws. *)
Definition readdirSync (fs : node) (p : Path.t) : option (list (string * node)) :=
  match statSync fs p with
  | Some (Dir es) => Some es
  | _ => None
  end.

(** [readFileSync(p)], [None] when it throws (missing, a directory, or not
    readable). *)
Definition readFileSync (fs : node) (p : Path.t) : option string :=
  match statSync fs p with
  | Some (File (Some c)) => Some c
  | _ => None
  end.

Fixpoint set_entry (name : string) (new : node) (es : list (string * node))
  : list (string * node) :=
  match es with
  | [] => [(name, new)]
  | (n, c) :: rest =>
      if String.eqb n name then (n, new) :: rest
      else (n, c) :: set_entry name new rest
  end.

Fixpoint del_entry (name : string) (es : list (string * node))
  : list (string * node) :=
  match es with
  | [] => []
  | (n, c) :: rest =>
      if String.eqb n name then del_entry name rest
      else (n, c) :: del_entry name rest
  end.

(** Put [new] at [p]; every directory above [p] must exist. *)
Fixpoint write_at (root : node) (p : list string) (new : node) : option node :=
  match p with
  | [] => Some new
  | s :: p' =>
      match root with
      | Dir es =>
          match p' with
          | [] => Some (Dir (set_entry s new es))
          | _ =>
              match find_entry s es with
              | Some c =>
                  match write_at c p' new with
                  | Some c' => Some (Dir (set_entry s c' es))
                  | None => None
                  end
              | None => None
              end
          end
      | File _ => None
      end
  end.

(** [mkdirSync(p, { recursive: true })]: missing directories are created,
    a regular file on the way makes it throw. *)
Fixpoint mkdirp (root : node) (p : list string) : option node :=
  match root with
  | File _ => None
  | Dir es =>
      match p with
      | [] => Some root
      | s :: p' =>
          match mkdirp (default (Dir []) (find_entry s es)) p' with
          | Some c' => Some (Dir (set_entry s c' es))
          | None => None
          end
      end
  end.

(** [rmSync(p, { recursive: true, force: true })] when it succeeds: the
    subtree at [p] goes, a missing path is not an error. *)
Fixpoint remove_at (root : node) (p : list string) : node :=
  match p, root with
  | [], _ => root
  | [s], Dir es => Dir (del_entry s es)
  | s :: p', Dir es =>
      match find_entry s es with
      | Some c => Dir (set_entry s (remove_at c p') es)
      | None => root
      end
  | _, File _ => root
  end.

(** [writeFileSync(p, data)], [None] when it throws. *)
Definition writeFileSync (fs : node) (p : Path.t) (data : string) : option node :=
  match lookup fs (Path.segs p) with
  | Some (Dir _) => None
  | _ => if Path.trailing p then None
         else write_at fs (Path.segs p) (File (Some data))
  end.

(** [copyFileSync(src, dest)], [None] when it throws. *)
Definition copyFileSync (fs : node) (src dest : Path.t) : option node :=
  match readFileSync fs src with
  | Some data => writeFileSync fs dest data
  | None => None
  end.

Definition mkdirSync (fs : node) (p : Path.t) : option node :=
  mkdirp fs (Path.segs p).

End Fs.

(** ** Upgrade manifest and project metadata (types.ts) *)

Record MigrationStep := mkMigrationStep {
  title : string;
  description : string;
  pattern : option string;
  searchPaths : option (list string)
}.

Record ManifestFiles := mkManifestFiles {
  files_safe : list string;
  files_protected : list string
}.

(** [update] and [add] are listed as [Object.entries] enumerates them. *)
Record ManifestDependencies := mkManifestDependencies {
  dep_update : list (string * string);
  dep_remove : list string;
  dep_add : list (string * string)
}.

Record UpgradeManifest := mkUpgradeManifest {
  manifest_version : string;
  minCliVersion : string;
  files : ManifestFiles;
  dependencies : ManifestDependencies;
  migrations : list MigrationStep
}.

Record Features := mkFeatures {
  feat_demo : bool;
  feat_i18n : bool;
  feat_components : string
}.

Record VelocityConfig := mkVelocityConfig {
  version : string;
  createdAt : string;
  updatedAt : string;
  features : Features
}.

Record UpgradeOptions := mkUpgradeOptions {
  targetDir : Path.t;
  dryRun : bool;
  yes : bool
}.

(** ** Path expansion and the diff engine (diff.ts) *)

Module Diff.
Import Fs.

(** The loop of [walkDir] over the entries of the directory at [dir]; the
    recursive call of the source reads the sub-directory at [fullPath], which
    is the child node itself. *)
Fixpoint walkNode (n : node) (dir baseDir : Path.t) : list string :=
  match n with
  | File _ => []
  | Dir es =>
      (fix loop (es : list (string * node)) : list string :=
         match es with
         | [] => []
         | (name, child) :: rest =>
             let fullPath := Path.join dir name in
             (if isDirectory child then walkNode child fullPath baseDir
              else [Path.relative baseDir fullPath]) ++ loop rest
         end) es
  end.

Definition walkEntries (es : list (string * node)) (dir baseDir : Path.t) : list string :=
  walkNode (Dir es) dir baseDir.

(** [walkDir(dir, baseDir)]; [None] when [readdirSync] throws. *)
Definition walkDir (fs : node) (dir baseDir : Path.t) : option (list string) :=
  if negb (existsSync fs dir) then Some []
  else es ← readdirSync fs dir; Some (walkEntries es dir baseDir).

(** [[...new Set(files)]]: first occurrences, in order. *)
Fixpoint uniq (seen files : list string) : list string :=
  match files with
  | [] => []
  | f :: rest =>
      if bool_decide (f ∈ seen) then uniq seen rest
      else f :: uniq (f :: seen) rest
  end.

(** What one declared entry [p] pushes onto [files]. *)
Definition expandEntry (fs : node) (freshDir : Path.t) (p : string) : option (list string) :=
  let fullPath := Path.join freshDir p in
  if (Path.endsWithSlash p
      || (existsSync fs fullPath
          && match statSync fs fullPath with
             | Some n => isDirectory n
             | None => false
             end))%bool
  then walkDir fs fullPath freshDir
  else Some [p].

Definition expandPaths (fs : node) (paths : list string) (freshDir : Path.t)
  : option (list string) :=
  files ← mapM (expandEntry fs freshDir) paths; Some (uniq [] (concat files)).

(** The body of the loop of [diffProjects] for one [filePath]: [Some None]
    is [continue], [None] is an exception of [readFileSync]. *)
Definition diffFile (fs : node) (currentDir freshDir : Path.t) (filePath : string)
  : option (option FileDiff) :=
  let currentPath := Path.join currentDir filePath in
  let freshPath := Path.join freshDir filePath in
  if negb (existsSync fs freshPath) then Some None
  else if negb (existsSync fs currentPath) then
    Some (Some (mkFileDiff filePath added safe))
  else
    currentContent ← readFileSync fs currentPath;
    freshContent ← readFileSync fs freshPath;
    if String.eqb currentContent freshContent
    then Some (Some (mkFileDiff filePath unchanged safe))
    else Some (Some (mkFileDiff filePath modified safe)).

Fixpoint diffLoop (fs : node) (currentDir freshDir : Path.t) (safeFiles : list string)
  : option (list FileDiff) :=
  match safeFiles with
  | [] => Some []
  | filePath :: rest =>
      d ← diffFile fs currentDir freshDir filePath;
      ds ← diffLoop fs currentDir freshDir rest;
      Some (match d with Some diff => diff :: ds | None => ds end)
  end.

(** [diffProjects(currentDir, freshDir, manifest)]; [None] when it throws. *)
Definition diffProjects (fs : node) (currentDir freshDir : Path.t)
  (manifest : UpgradeManifest) : option (list FileDiff) :=
  safeFiles ← expandPaths fs (files_safe (files manifest)) freshDir;
  diffLoop fs currentDir freshDir safeFiles.

End Diff.

(** ** JSON documents and the host library *)

(** The line feed appended to every JSON file written. *)
Definition newline : string := String (ascii_of_nat 10) EmptyString.

#[warnings="-register-all"]
Inductive json :=
| JNull
| JBool (b : bool)
| JNum (n : Z)
| JStr (s : string)
| JArr (items : list json)
| JObj (members : list (string * json)).

(** The package descriptor ([package.json]) after [JSON.parse], at the type
    at which the engine reads it: its members in the order of its
    properties.  The members [dependencies] and [devDependencies], when
    present, are objects from package names to versions (the own properties
    of each form a map); a [Member] has another key and any value. *)
Module Pkg.

Definition section : Type := gmap string string.

#[warnings="-register-all"]
Inductive member :=
| Dependencies (deps : section)
| DevDependencies (deps : section)
| Member (key : string) (value : json).

Definition t : Type := list member.

Definition key (m : member) : string :=
  match m with
  | Dependencies _ => "dependencies"
  | DevDependencies _ => "devDependencies"
  | Member k _ => k
  end.

(** [pkg.dependencies]. *)
Fixpoint dependencies (pkg : t) : option section :=
  match pkg with
  | [] => None
  | Dependencies deps :: _ => Some deps
  | _ :: rest => dependencies rest
  end.

(** [pkg.devDependencies]. *)
Fixpoint devDependencies (pkg : t) : option section :=
  match pkg with
  | [] => None
  | DevDependencies deps :: _ => Some deps
  | _ :: rest => devDependencies rest
  end.

(** The member [dependencies] becomes [deps]: where it is when the
    descriptor has it (the object is changed in place), as a new last member
    otherwise ([pkg.dependencies = {}]). *)
Fixpoint setDependencies (deps : section) (pkg : t) : t :=
  match pkg with
  | [] => [Dependencies deps]
  | Dependencies _ :: rest => Dependencies deps :: rest
  | m :: rest => m :: setDependencies deps rest
  end.

Fixpoint setDevDependencies (deps : section) (pkg : t) : t :=
  match pkg with
  | [] => [DevDependencies deps]
  | DevDependencies _ :: rest => DevDependencies deps :: rest
  | m :: rest => m :: setDevDependencies deps rest
  end.

(** The members other than the two sections, in order. *)
Fixpoint other (pkg : t) : list (string * json) :=
  match pkg with
  | [] => []
  | Member k v :: rest => (k, v) :: other rest
  | _ :: rest => other rest
  end.

(** [pkg[k]] for the key [k] of a [Member]. *)
Fixpoint get (pkg : t) (k : string) : option json :=
  match pkg with
  | [] => None
  | Member k' v :: rest => if String.eqb k' k then Some v else get rest k
  | _ :: rest => get rest k
  end.

End Pkg.

(** What the engine takes from the JavaScript library: the regular
    expression engine and the JSON codec at the types the engine reads and
    writes.  [RegExp src] is [None] when [new RegExp(src)] throws, otherwise
    the [test] method of the compiled expression; a parser gives [None] when
    [JSON.parse] throws. *)
Record Host := mkHost {
  RegExp : string -> option (string -> bool);
  parseConfig : string -> option VelocityConfig;
  parseManifest : string -> option UpgradeManifest;
  parsePackage : string -> option Pkg.t;
  stringifyConfig : VelocityConfig -> string;
  stringifyPackage : Pkg.t -> string
}.

(** ** Migration scanner (upgrade.ts l.83-150) *)

Module Migrations.
Import Fs.

Definition skipped (name : string) : bool :=
  (String.eqb name "node_modules" || String.eqb name ".git")%bool.

(** [walkFiles(dir)] on the node found at [dir]; [None] when it throws.
    Neither [statSync] nor [readdirSync] is inside a [try].  [statSync]
    follows an [existsSync] that answered [true] on a tree that does not
    change in between, and so returns; [readdirSync] throws for a directory
    that cannot be listed, which [unlistable] tells. *)
Fixpoint walkFilesNode (unlistable : Path.t -> bool) (n : node) (dir : Path.t)
  : option (list Path.t) :=
  match n with
  | File _ => Some [dir]
  | Dir es =>
      if unlistable dir then None
      else
        (fix loop (es : list (string * node)) : option (list Path.t) :=
           match es with
           | [] => Some []
           | (name, child) :: rest =>
               let fullPath := Path.join dir name in
               here ← (if isDirectory child then
                         if skipped name then Some []
                         else walkFilesNode unlistable child fullPath
                       else Some [fullPath]);
               more ← loop rest;
               Some (here ++ more)
           end) es
  end.

Definition walkFiles (unlistable : Path.t -> bool) (fs : node) (dir : Path.t)
  : option (list Path.t) :=
  match statSync fs dir with
  | None => Some []
  | Some n => walkFilesNode unlistable n dir
  end.

(** The [try]/[catch] around one file. *)
Definition scanFile (test : string -> bool) (fs : node) (targetDir file : Path.t)
  : list string :=
  match readFileSync fs file with
  | Some content => if test content then [Path.relative targetDir file] else []
  | None => []
  end.

Definition scanSearchPath (unlistable : Path.t -> bool) (test : string -> bool)
  (fs : node) (targetDir : Path.t) (searchPath : string) : option (list string) :=
  let fullPath := Path.join targetDir searchPath in
  if negb (existsSync fs fullPath) then Some []
  else
    files ← walkFiles unlistable fs fullPath;
    Some (flat_map (scanFile test fs targetDir) files).

(** [migration.searchPaths?.length ? migration.searchPaths : ['src/']]. *)
Definition searchPathsOf (migration : MigrationStep) : list string :=
  match searchPaths migration with
  | Some (p :: ps) => p :: ps
  | _ => ["src/"]
  end.

(** The matches recorded for one step; [None] when [new RegExp] or
    [walkFiles] throws.  [!migration.pattern] holds without a pattern and for
    the empty string. *)
Definition scanStep (h : Host) (unlistable : Path.t -> bool) (fs : node)
  (targetDir : Path.t) (migration : MigrationStep) : option (list string) :=
  match pattern migration with
  | None => Some []
  | Some src =>
      if String.eqb src "" then Some []
      else
        test ← RegExp h src;
        found ← mapM (scanSearchPath unlistable test fs targetDir)
                     (searchPathsOf migration);
        Some (concat found)
  end.

Fixpoint scanLoop (h : Host) (unlistable : Path.t -> bool) (fs : node)
  (targetDir : Path.t) (results : gmap string (list string))
  (migrations : list MigrationStep) : option (gmap string (list string)) :=
  match migrations with
  | [] => Some results
  | migration :: rest =>
      matches ← scanStep h unlistable fs targetDir migration;
      scanLoop h unlistable fs targetDir (<[title migration := matches]> results) rest
  end.

Definition scanForMigrationPatterns (h : Host) (unlistable : Path.t -> bool)
  (fs : node) (targetDir : Path.t) (migrations : list MigrationStep)
  : option (gmap string (list string)) :=
  scanLoop h unlistable fs targetDir ∅ migrations.

End Migrations.

(** ** Dependency merger (upgrade.ts l.155-194) *)

Module Deps.
Import Fs.

(** The names of the properties that every object made by [JSON.parse]
    inherits from [Object.prototype] (in Node, the legacy ones included).
    Each has a value other than [undefined]: the methods are functions and
    [__proto__] reads as the prototype. *)
Definition OBJECT_PROTOTYPE : list string :=
  [ "constructor"; "__defineGetter__"; "__defineSetter__"; "hasOwnProperty";
    "__lookupGetter__"; "__lookupSetter__"; "isPrototypeOf";
    "propertyIsEnumerable"; "toString"; "valueOf"; "__proto__";
    "toLocaleString" ].

Definition inherited (name : string) : bool :=
  bool_decide (name ∈ OBJECT_PROTOTYPE).

(** [section?.[name] !== undefined]: [section] is there, and [name] is one
    of its own properties (a value read from JSON is never [undefined]) or
    an inherited one. *)
Definition declares (section : option Pkg.section) (name : string) : bool :=
  match section with
  | Some deps => (bool_decide (is_Some (deps !! name)) || inherited name)%bool
  | None => false
  end.

(** [deps[name] = version], a version being a string: the own property is
    written or made, except that without an own property [__proto__] the
    assignment goes to the setter of [Object.prototype], which ignores a
    string. *)
Definition assign (deps : Pkg.section) (name version : string) : Pkg.section :=
  if (String.eqb name "__proto__"
      && negb (bool_decide (is_Some (deps !! name))))%bool
  then deps
  else <[name := version]> deps.

(** [if (!pkg.dependencies) pkg.dependencies = {}; pkg.dependencies[name] = version]. *)
Definition setDependency (pkg : Pkg.t) (name version : string) : Pkg.t :=
  Pkg.setDependencies (assign (default ∅ (Pkg.dependencies pkg)) name version) pkg.

Definition updateStep (pkg : Pkg.t) (entry : string * string) : Pkg.t :=
  let '(name, version) := entry in
  if declares (Pkg.dependencies pkg) name then
    Pkg.setDependencies (assign (default ∅ (Pkg.dependencies pkg)) name version) pkg
  else if declares (Pkg.devDependencies pkg) name then
    Pkg.setDevDependencies
      (assign (default ∅ (Pkg.devDependencies pkg)) name version) pkg
  else setDependency pkg name version.

Definition removeStep (pkg : Pkg.t) (name : string) : Pkg.t :=
  let pkg1 :=
    if declares (Pkg.dependencies pkg) name then
      Pkg.setDependencies (delete name (default ∅ (Pkg.dependencies pkg))) pkg
    else pkg in
  if declares (Pkg.devDependencies pkg1) name then
    Pkg.setDevDependencies (delete name (default ∅ (Pkg.devDependencies pkg1))) pkg1
  else pkg1.

Definition addStep (pkg : Pkg.t) (entry : string * string) : Pkg.t :=
  let '(name, version) := entry in setDependency pkg name version.

(** The three loops over the parsed descriptor. *)
Definition mergeDeps (pkg : Pkg.t) (deps : ManifestDependencies) : Pkg.t :=
  let pkg1 := fold_left updateStep (dep_update deps) pkg in
  let pkg2 := fold_left removeStep (dep_remove deps) pkg1 in
  fold_left addStep (dep_add deps) pkg2.

(** [mergePackageJsonDeps(targetDir, manifest)] as a change of the file
    tree; [None] when it throws. *)
Definition mergePackageJsonDeps (h : Host) (fs : node) (targetDir : Path.t)
  (manifest : UpgradeManifest) : option node :=
  let pkgPath := Path.join targetDir "package.json" in
  if negb (existsSync fs pkgPath) then Some fs
  else
    text ← readFileSync fs pkgPath;
    pkg ← parsePackage h text;
    writeFileSync fs pkgPath
      (stringifyPackage h (mergeDeps pkg (dependencies manifest)) ++ newline)%string.

End Deps.

(** ** Upgrade orchestrator (upgrade.ts l.199-413) *)

Module Upgrade.
Import Fs.

Definition CLI_VERSION : string := "1.6.0".

Definition FALLBACK_SAFE_FILES : list string :=
  [ "src/components/ui/"; "src/components/seo/"; "src/components/layout/";
    "src/layouts/"; "src/lib/"; "src/styles/tokens/"; "src/styles/global.css";
    "src/content.config.ts"; "tsconfig.json"; "eslint.config.js";
    ".prettierrc"; ".prettierignore" ].

Definition CONFIG_FILENAME : string := ".velocity.json".

(** What a run does that the claims speak about, in order. *)
Inductive event :=
| EvDownload (dir : Path.t)
| EvDiff
| EvCopy (src dest : Path.t)
| EvMergeDeps
| EvWriteConfig
| EvScan
| EvCleanup (dir : Path.t).

(** How a run ends: [upgrade] returns, [process.exit(code)] is called, or an
    exception leaves [upgrade]. *)
Inductive outcome :=
| Returned
| Exited (code : Z)
| Thrown.

(** What the run takes from outside the file tree. *)
Record Env := mkEnv {
  uncommitted : bool;       (* hasUncommittedChanges(targetDir) *)
  continueAnyway : bool;    (* answer to the prompt of warnDirtyGit *)
  osTmpdir : Path.t;        (* tmpdir() *)
  now : N;                  (* Date.now() *)
  template : option node;   (* tree that downloadTemplate puts at tempDir, None when it throws *)
  proceedAnswer : bool;     (* answer to the prompt of confirmUpgrade *)
  rmThrows : bool;          (* rmSync(tempDir, ...) throws *)
  today : string;           (* new Date().toISOString().slice(0, 10) *)
  readdirThrows : Path.t -> bool
                            (* readdirSync(dir) throws, for a directory of the
                               project that the migration scan lists *)
}.

(** [join(tmpdir(), `velocity-upgrade-${Date.now()}`)]. *)
Definition tempDir (env : Env) : Path.t :=
  Path.join (osTmpdir env)
    ("velocity-upgrade-" ++ NilZero.string_of_uint (N.to_uint (now env)))%string.

Record world := mkWorld { fs : node; log : list event }.

(** Computations over the world that yield a value or end the run. *)
Definition M (A : Type) : Type := world -> (outcome + A) * world.

Definition ret {A} (a : A) : M A := fun w => (inr a, w).

Definition bind {A B} (m : M A) (k : A -> M B) : M B :=
  fun w => match m w with
           | (inr a, w') => k a w'
           | (inl o, w') => (inl o, w')
           end.

Definition stop {A} (o : outcome) : M A := fun w => (inl o, w).

Definition emit (e : event) : M unit :=
  fun w => (inr tt, mkWorld (fs w) (log w ++ [e])).

(** A read of the file tree. *)
Definition ask {A} (f : node -> A) : M A := fun w => (inr (f (fs w)), w).

(** A read that throws on [None]. *)
Definition try {A} (f : node -> option A) : M A :=
  fun w => match f (fs w) with
           | Some a => (inr a, w)
           | None => (inl Thrown, w)
           end.

(** A change of the file tree that throws on [None]. *)
Definition change (f : node -> option node) : M unit :=
  fun w => match f (fs w) with
           | Some fs' => (inr tt, mkWorld fs' (log w))
           | None => (inl Thrown, w)
           end.

Notation "'let*' x ':=' m 'in' k" := (bind m (fun x => k))
  (at level 10, x name, m at level 100, k at level 200, only parsing).
Notation "'exec' m 'in' k" := (bind m (fun _ => k))
  (at level 10, m at level 100, k at level 200, only parsing).

(** Modelled from the spec: [readJson] of the absent src/utils/fs.ts (read
    the file as text and [JSON.parse] it; either step may throw). *)
Definition readJson {A} (parse : string -> option A) (p : Path.t) : M A :=
  try (fun fs => text ← readFileSync fs p; parse text).

(** Modelled from the spec: [writeJson] of the absent src/utils/fs.ts
    ([JSON.stringify(data, null, 2)] and a trailing newline, written as a
    whole file). *)
Definition writeJson (p : Path.t) (text : string) : M unit :=
  change (fun fs => writeFileSync fs p (text ++ newline)%string).

Definition readVelocityConfig (h : Host) (projectDir : Path.t)
  : M (option VelocityConfig) :=
  let configPath := Path.join projectDir CONFIG_FILENAME in
  let* present := ask (fun fs => existsSync fs configPath) in
  if negb present then ret None
  else let* config := readJson (parseConfig h) configPath in ret (Some config).

Definition writeVelocityConfig (h : Host) (projectDir : Path.t)
  (config : VelocityConfig) : M unit :=
  let configPath := Path.join projectDir CONFIG_FILENAME in
  exec emit EvWriteConfig in
  writeJson configPath (stringifyConfig h config).

(** [warnDirtyGit(yes)] of upgrade-prompts.ts. *)
Definition warnDirtyGit (env : Env) (yes : bool) : bool :=
  if yes then true else continueAnyway env.

(** [confirmUpgrade(dryRun)] of upgrade-prompts.ts. *)
Definition confirmUpgrade (env : Env) (dryRun : bool) : bool :=
  if dryRun then false else proceedAnswer env.

(** [cleanup(tempDir)]: the removal is tried when the directory exists and
    an exception of [rmSync] is swallowed. *)
Definition cleanup (env : Env) (tempDir : Path.t) : M unit :=
  fun w =>
    let fs' :=
      if existsSync (fs w) tempDir then
        if rmThrows env then fs w else remove_at (fs w) (Path.segs tempDir)
      else fs w in
    (inr tt, mkWorld fs' (log w ++ [EvCleanup tempDir])).

(** [downloadTemplate(TEMPLATE_REPO, { dir: tempDir, force: true })] when it
    succeeds: the directories above [tempDir] are made and the template tree
    is put there. *)
Definition install (tree : node) (dir : Path.t) (fs : node) : option node :=
  fs' ← mkdirp fs (removelast (Path.segs dir));
  write_at fs' (Path.segs dir) tree.

Definition downloadTemplate (env : Env) (dir : Path.t) (fs : node) : option node :=
  tree ← template env; install tree dir fs.

(** Step 3: the manifest of the fresh template, or the fallback one. *)
Definition loadManifest (h : Host) (tempDir : Path.t) (config : VelocityConfig)
  : M UpgradeManifest :=
  let manifestPath := Path.join tempDir "velocity-manifest.json" in
  let* present := ask (fun fs => existsSync fs manifestPath) in
  if present then readJson (parseManifest h) manifestPath
  else
    let templatePkgPath := Path.join tempDir "package.json" in
    let* hasPkg := ask (fun fs => existsSync fs templatePkgPath) in
    let* templateVersion :=
      (if hasPkg then
         let* templatePkg := readJson (parsePackage h) templatePkgPath in
         ret (match Pkg.get templatePkg "version" with
              | Some (JStr v) => if String.eqb v "" then version config else v
              | _ => version config
              end)
       else ret (version config)) in
    ret (mkUpgradeManifest templateVersion "1.0.0"
           (mkManifestFiles FALLBACK_SAFE_FILES [])
           (mkManifestDependencies [] [] [])
           []).

Definition bumped (env : Env) (config : VelocityConfig) (manifest : UpgradeManifest)
  : VelocityConfig :=
  mkVelocityConfig (manifest_version manifest) (createdAt config) (today env)
                   (features config).

(** Step 6a: one iteration of the copy loop. *)
Definition copyOne (targetDir tempDir : Path.t) (diff : FileDiff) : M unit :=
  let src := Path.join tempDir (path diff) in
  let dest := Path.join targetDir (path diff) in
  let destDir := Path.dirname dest in
  let* present := ask (fun fs => existsSync fs destDir) in
  exec (if negb present then change (fun fs => mkdirSync fs destDir) else ret tt) in
  exec emit (EvCopy src dest) in
  change (fun fs => copyFileSync fs src dest).

Fixpoint copyAll (targetDir tempDir : Path.t) (diffs : list FileDiff) : M unit :=
  match diffs with
  | [] => ret tt
  | diff :: rest =>
      exec copyOne targetDir tempDir diff in copyAll targetDir tempDir rest
  end.

Definition isChanged (d : FileDiff) : bool :=
  match status d with
  | added | modified => true
  | _ => false
  end.

Definition hasDepChanges (manifest : UpgradeManifest) : bool :=
  let deps := dependencies manifest in
  negb (match dep_update deps, dep_remove deps, dep_add deps with
        | [], [], [] => true
        | _, _, _ => false
        end).

Definition scanMigrations (h : Host) (env : Env) (targetDir : Path.t)
  (manifest : UpgradeManifest)
  : M (gmap string (list string)) :=
  exec emit EvScan in
  try (fun fs => Migrations.scanForMigrationPatterns h (readdirThrows env) fs
                   targetDir (migrations manifest)).

(** Steps 4 to 8, after the version checks. *)
Definition diffAndApply (h : Host) (env : Env) (options : UpgradeOptions)
  (config : VelocityConfig) (manifest : UpgradeManifest) : M unit :=
  let targetDir := targetDir options in
  let tempDir := tempDir env in
  exec emit EvDiff in
  let* diffs := try (fun fs => Diff.diffProjects fs targetDir tempDir manifest) in
  let summary := summarizeDiffs diffs in
  if ((n_added summary =? 0)%nat && (n_modified summary =? 0)%nat
      && negb (hasDepChanges manifest))%bool
  then
    exec (if negb (dryRun options)
          then writeVelocityConfig h targetDir (bumped env config manifest)
          else ret tt) in
    exec cleanup env tempDir in
    stop Returned
  else
    let shouldProceed := confirmUpgrade env (dryRun options) in
    if dryRun options then
      exec scanMigrations h env targetDir manifest in
      exec cleanup env tempDir in
      stop Returned
    else if negb shouldProceed then
      exec cleanup env tempDir in
      stop Returned
    else
      exec copyAll targetDir tempDir (List.filter isChanged diffs) in
      exec (if hasDepChanges manifest then
              exec emit EvMergeDeps in
              change (fun fs => Deps.mergePackageJsonDeps h fs targetDir manifest)
            else ret tt) in
      exec writeVelocityConfig h targetDir (bumped env config manifest) in
      exec scanMigrations h env targetDir manifest in
      cleanup env tempDir.

(** The version gate and the check for an up-to-date project. *)
Definition gate (h : Host) (env : Env) (options : UpgradeOptions)
  (config : VelocityConfig) (manifest : UpgradeManifest) : M unit :=
  if Version.isVersionLessThan CLI_VERSION (minCliVersion manifest) then
    exec cleanup env (tempDir env) in
    stop (Exited 1)
  else if String.eqb (version config) (manifest_version manifest) then
    exec cleanup env (tempDir env) in
    stop Returned
  else diffAndApply h env options config manifest.

(** Step 2 onwards: everything after the name of the temporary directory is
    chosen. *)
Definition withTemplate (h : Host) (env : Env) (options : UpgradeOptions)
  (config : VelocityConfig) : M unit :=
  let tempDir := tempDir env in
  exec emit (EvDownload tempDir) in
  fun w =>
    match downloadTemplate env tempDir (fs w) with
    | None => (exec cleanup env tempDir in stop (Exited 1)) w
    | Some fs' =>
        (let* manifest := loadManifest h tempDir config in
         gate h env options config manifest) (mkWorld fs' (log w))
    end.

Definition upgrade (h : Host) (env : Env) (options : UpgradeOptions) : M unit :=
  let* config := readVelocityConfig h (targetDir options) in
  match config with
  | None => stop (Exited 1)
  | Some config =>
      if (uncommitted env && negb (warnDirtyGit env (yes options)))%bool
      then stop Returned
      else withTemplate h env options config
  end.

(** The outcome and final world of a run started in [w]. *)
Definition run (m : M unit) (w : world) : outcome * world :=
  match m w with
  | (inl o, w') => (o, w')
  | (inr _, w') => (Returned, w')
  end.

End Upgrade.


(** ** File names *)

Module PathSpec.

(** [s] has a separator in it. *)
Fixpoint hasSlash (s : string) : bool :=
  match s with
  | EmptyString => false
  | String c rest => (Ascii.eqb c "/" || hasSlash rest)%bool
  end.

End PathSpec.

(** ** Trees that stand for a disk *)

Module TreeSpec.
Import Fs.

(** A file name: not empty, neither [.] nor [..], without separator. *)
Definition validName (s : string) : bool :=
  (negb (String.eqb s "") && negb (String.eqb s ".")
   && negb (String.eqb s "..") && negb (PathSpec.hasSlash s))%bool.

(** In every directory the names are file names and distinct. *)
Fixpoint wfNode (n : node) : bool :=
  match n with
  | File _ => true
  | Dir es =>
      (bool_decide (NoDup es.*1)
       && (fix all (es : list (string * node)) : bool :=
             match es with
             | [] => true
             | (name, child) :: rest =>
                 (validName name && wfNode child && all rest)%bool
             end) es)%bool
  end.

(** The pieces of a path that normalization keeps when none is [..]. *)
Definition clean (pieces : list string) : list string :=
  List.filter (fun x => (negb (String.eqb x "") && negb (String.eqb x "."))%bool)
              pieces.


End TreeSpec.
(** ** Views of the package descriptor used to state the merge properties *)

Module DepsView.
Import Deps.

Implicit Types (pkg : Pkg.t) (name version : string)
  (section : option Pkg.section) (s : option string * option string).

(** The names of the properties that an object made by [JSON.parse] has
    without holding them itself. *)
Definition inheritedNames : list string :=
  [ "__defineGetter__"; "__defineSetter__"; "__lookupGetter__";
    "__lookupSetter__"; "__proto__"; "constructor"; "hasOwnProperty";
    "isPrototypeOf"; "propertyIsEnumerable"; "toLocaleString"; "toString";
    "valueOf" ].

(** The version that a section declares for a package as an own property,
    if any. *)
Definition declared section name : option string :=
  section ≫= (fun deps => deps !! name).

(** What the descriptor says about one package: its version in
    [dependencies] and its version in [devDependencies]. *)
Definition about pkg name : option string * option string :=
  (declared (Pkg.dependencies pkg) name, declared (Pkg.devDependencies pkg) name).

Definition present section : bool :=
  match section with Some _ => true | None => false end.

Definition isSome (o : option string) : bool :=
  match o with Some _ => true | None => false end.




(** The effect of an assignment on the own property that it names. *)
Definition assignKey name (current : option string) version : option string :=
  if (String.eqb name "__proto__" && negb (isSome current))%bool then current
  else Some version.

(** The effect of the three kinds of step on what is said about the package
    they name, [hasDeps] and [hasDev] telling which sections exist. *)
Definition keyUpdate (hasDeps hasDev : bool) name version s
  : option string * option string :=
  if (isSome s.1 || (hasDeps && inherited name))%bool
  then (assignKey name s.1 version, s.2)
  else if (isSome s.2 || (hasDev && inherited name))%bool
  then (s.1, assignKey name s.2 version)
  else (assignKey name s.1 version, s.2).

Definition keyRemove s : option string * option string := (None, None).

Definition keyAdd name version s : option string * option string :=
  (assignKey name s.1 version, s.2).

(** The last version that a list of entries gives for [name]. *)
Fixpoint lastFor name (entries : list (string * string)) : option string :=
  match entries with
  | [] => None
  | (n, v) :: rest =>
      match lastFor name rest with
      | Some v' => Some v'
      | None => if decide (n = name) then Some v else None
      end
  end.

Definition keyRun (hasDeps hasDev : bool) (deps : ManifestDependencies) name s :=
  let s1 := match lastFor name (dep_update deps) with
            | Some v => keyUpdate hasDeps hasDev name v s | None => s end in
  let s2 := if decide (name ∈ dep_remove deps) then keyRemove s1 else s1 in
  match lastFor name (dep_add deps) with
  | Some v => keyAdd name v s2 | None => s2 end.

(** A descriptor with [astro] as a development dependency only. *)
Definition pkg_dev_only : Pkg.t :=
  [Pkg.Member "name" (JStr "site");
   Pkg.DevDependencies {[ "astro" := "4.0.0" ]}].



Definition deps_update_only : ManifestDependencies :=
  mkManifestDependencies [("astro", "5.0.0")] ["left-pad"] [].

Definition deps_update_and_remove : ManifestDependencies :=
  mkManifestDependencies [("astro", "5.0.0")] ["astro"] [].


End DepsView.

(** ** The classification of the specification, to compare [diffProjects] with *)

Module DiffSpec.
Import Fs.

(** The status of a path that exists under the fresh root: [added] when it is
    missing under the current root, [unchanged] when both contents are equal,
    [modified] otherwise. *)
Definition statusOf (fs : node) (currentDir freshDir : Path.t) (filePath : string)
  : DiffStatus :=
  if negb (existsSync fs (Path.join currentDir filePath)) then added
  else if decide (readFileSync fs (Path.join currentDir filePath)
                  = readFileSync fs (Path.join freshDir filePath))
       then unchanged
       else modified.

(** No entry for a path missing under the fresh root, one [safe] entry
    otherwise. *)
Definition classify (fs : node) (currentDir freshDir : Path.t) (filePath : string)
  : option FileDiff :=
  if existsSync fs (Path.join freshDir filePath)
  then Some (mkFileDiff filePath (statusOf fs currentDir freshDir filePath) safe)
  else None.

(** Every path that exists under both roots can be read under both. *)
Definition readableBoth (fs : node) (currentDir freshDir : Path.t)
  (safeFiles : list string) : Prop :=
  forall f, f ∈ safeFiles ->
    existsSync fs (Path.join freshDir f) = true ->
    existsSync fs (Path.join currentDir f) = true ->
    is_Some (readFileSync fs (Path.join currentDir f))
    /\ is_Some (readFileSync fs (Path.join freshDir f)).

(** Not a directory: missing, or a regular file. *)
Definition notDir (o : option node) : Prop :=
  match o with Some (Dir _) => False | _ => True end.

End DiffSpec.
(** ** The files that a scan visits, to compare [walkFiles] with *)

Module ScanSpec.
Import Fs Migrations.

(** The search paths of a step: those that it declares, [src/] when it
    declares none. *)
Definition declaredSearchPaths (m : MigrationStep) : list string :=
  match searchPaths m with
  | Some (p :: ps) => p :: ps
  | _ => ["src/"]
  end.

(** [visited n dir file]: [file] is a path that the walk of the node [n]
    found at [dir] yields: [dir] itself when [n] is a regular file, otherwise
    a regular file in [n] or in a sub-directory of [n], where sub-directories
    named [node_modules] or [.git] are not entered. *)
Inductive visited : node -> Path.t -> Path.t -> Prop :=
| visited_self c dir :
    visited (File c) dir dir
| visited_file es dir name c :
    (name, File c) ∈ es ->
    visited (Dir es) dir (Path.join dir name)
| visited_sub es dir name sub file :
    (name, Dir sub) ∈ es ->
    name <> "node_modules" -> name <> ".git" ->
    visited (Dir sub) (Path.join dir name) file ->
    visited (Dir es) dir file.

(** [listed n dir d]: [d] is a directory that the walk of the node [n]
    found at [dir] lists: [dir] itself when [n] is a directory, and the
    directories listed in its sub-directories other than [node_modules] and
    [.git]. *)
Inductive listed : node -> Path.t -> Path.t -> Prop :=
| listed_self es dir :
    listed (Dir es) dir dir
| listed_sub es dir name sub d :
    (name, Dir sub) ∈ es ->
    name <> "node_modules" -> name <> ".git" ->
    listed (Dir sub) (Path.join dir name) d ->
    listed (Dir es) dir d.

(** A step whose pattern is the empty string, which as a regular expression
    matches every text. *)
Definition emptyPatternStep : MigrationStep :=
  mkMigrationStep "Rename the old API" "Replace oldApi( by newApi(" (Some "")
                  (Some ["src/"]).

Definition oldApiStep : MigrationStep :=
  mkMigrationStep "Rename the old API" "Replace oldApi( by newApi("
                  (Some "const b") (Some ["src/"]).

Definition noteStep : MigrationStep :=
  mkMigrationStep "Read the changelog" "Nothing to detect" None None.

(** No directory is closed to listing. *)
Definition allListable : Path.t -> bool := fun _ => false.

(** The directory [src/lib] of the sample project cannot be listed. *)
Definition libUnlistable : Path.t -> bool :=
  fun dir => bool_decide (Path.segs dir = ["work"; "site"; "src"; "lib"]).

End ScanSpec.

(** ** What a step of the run may do, to state where the cleanup happens *)

Module RunSpec.
Import Fs Upgrade.

(** [m] goes on or throws, and only adds to the log. *)
Definition goesOn {A} (m : M A) : Prop :=
  forall w, match m w with
            | (inl Thrown, _) => True
            | (inl _, _) => False
            | (inr _, w') => exists evs, log w' = log w ++ evs
            end.

(** Unless it throws, [m] ends with the cleanup of [dir] as its last event. *)
Definition endsClean (dir : Path.t) (m : M unit) : Prop :=
  forall w, match m w with
            | (inl Thrown, _) => True
            | (_, w') => exists evs, log w' = log w ++ evs ++ [EvCleanup dir]
            end.

End RunSpec.

(** ** What a run writes, to state what it leaves alone *)

Module Effects.
Import Fs Upgrade.

(** Every run of [m] adds events [evs] to the log such that [R] relates the
    tree before, [evs] and the tree after, however the run ends. *)
Definition yields {A} (R : node -> list event -> node -> Prop) (m : M A) : Prop :=
  forall w, exists evs, log (m w).2 = log w ++ evs /\ R (fs w) evs (fs (m w).2).

(** The events that stand for a write into the project. *)
Definition isWrite (e : event) : bool :=
  match e with
  | EvCopy _ _ | EvMergeDeps | EvWriteConfig => true
  | _ => false
  end.

Definition notWrite (e : event) : Prop := isWrite e = false.

Definition notMarker (e : event) : Prop := e <> EvWriteConfig.

(** What it takes for an event to happen: nothing is written in a dry run,
    files are copied (from the template to the same relative path of the
    project) and dependencies merged only after the user said yes, and the
    only temporary directory is the one of the run. *)
Definition permitted (env : Env) (options : UpgradeOptions) (e : event) : Prop :=
  match e with
  | EvCopy src dest =>
      dryRun options = false /\ proceedAnswer env = true
      /\ exists p, src = Path.join (tempDir env) p
                   /\ dest = Path.join (targetDir options) p
  | EvMergeDeps => dryRun options = false /\ proceedAnswer env = true
  | EvWriteConfig => dryRun options = false
  | EvDownload dir => dir = tempDir env
  | EvCleanup dir => dir = tempDir env
  | EvDiff | EvScan => True
  end.

(** The places a run may write to, besides the destinations of its copies. *)
Definition touched (env : Env) (options : UpgradeOptions) : list (list string) :=
  Path.segs (tempDir env)
  :: (if dryRun options then []
      else Path.segs (Path.join (targetDir options) CONFIG_FILENAME)
           :: (if proceedAnswer env
               then [Path.segs (Path.join (targetDir options) "package.json")]
               else [])).

(** [q] is neither at or below one of [special] nor at or below the
    destination of a copy of [evs]. *)
Definition outside (special : list (list string)) (evs : list event)
  (q : list string) : Prop :=
  (forall p, p ∈ special -> ~ p `prefix_of` q)
  /\ (forall src dest, EvCopy src dest ∈ evs -> ~ Path.segs dest `prefix_of` q).

(** The regular files outside are kept. *)
Definition keeps (special : list (list string))
  : node -> list event -> node -> Prop :=
  fun fs evs fs' =>
    forall q c, outside special evs q ->
                lookup fs q = Some (File c) -> lookup fs' q = Some (File c).

Definition respects (env : Env) (options : UpgradeOptions)
  : node -> list event -> node -> Prop :=
  fun fs evs fs' =>
    Forall (permitted env options) evs /\ keeps (touched env options) fs evs fs'.

Definition only (P : event -> Prop) : node -> list event -> node -> Prop :=
  fun _ evs _ => Forall P evs.

(** The version marker is written at most once, and after it nothing is. *)
Definition ordered : node -> list event -> node -> Prop :=
  fun _ evs _ =>
    exists pre post,
      evs = pre ++ post /\ Forall notMarker pre
      /\ (post = [] \/ exists rest, post = EvWriteConfig :: rest /\ Forall notWrite rest).

End Effects.

(** ** Version strings as the specification reads them *)

Module VersionSpec.

(** The integer that a double stands for, [Infinity] being written [2^1024]
    as in [Version.nearestDouble]. *)
Definition valueOf (f : spec_float) : Z :=
  match f with
  | S754_zero _ => 0
  | S754_infinity s => if s then - 2 ^ 1024 else 2 ^ 1024
  | S754_nan => 0
  | S754_finite s m e =>
      (if s then -1 else 1)
      * (if 0 <=? e then Z.pos m * 2 ^ e else Z.pos m / 2 ^ (- e))
  end.

(** The integer [n] rounded to binary64 by the Standard Library's model of
    IEEE 754 (53 bits of precision, exponents below 1024). *)
Definition ieee (n : Z) : Z := valueOf (binary_normalize 53 1024 n 0 false).

(** White space within ASCII: tab, line feed, vertical tab, form feed,
    carriage return, space. *)
Definition blank (c : ascii) : bool :=
  existsb (Nat.eqb (nat_of_ascii c)) [9; 10; 11; 12; 13; 32]%nat.

Definition isDigit (c : ascii) : bool :=
  existsb (Ascii.eqb c) ["0"; "1"; "2"; "3"; "4"; "5"; "6"; "7"; "8"; "9"]%char.

Fixpoint allBlank (s : string) : bool :=
  match s with
  | EmptyString => true
  | String c rest => (blank c && allBlank rest)%bool
  end.

Definition startsWithDigit (s : string) : bool :=
  match s with
  | String c _ => isDigit c
  | EmptyString => false
  end.


(** Neither [.] nor [-] occurs in [s]. *)
Fixpoint noSeparator (s : string) : bool :=
  match s with
  | EmptyString => true
  | String c rest =>
      (negb (Ascii.eqb c ".") && negb (Ascii.eqb c "-") && noSeparator rest)%bool
  end.

(** A version string from its segments: the first one, then each further
    one behind its separator. *)
Fixpoint joined (first : string) (rest : list (ascii * string)) : string :=
  match rest with
  | [] => first
  | (c, segment) :: rest' => (first ++ String c (joined segment rest'))%string
  end.

(** The segments are cut at [.] and at [-] and at nothing else. *)
Definition wellCut (first : string) (rest : list (ascii * string)) : Prop :=
  noSeparator first = true
  /\ Forall (fun cs : ascii * string =>
               (cs.1 = "."%char \/ cs.1 = "-"%char) /\ noSeparator cs.2 = true)
            rest.

(** A version written as decimal numerals with a [.] between them. *)
Definition dotted (first : Decimal.uint) (rest : list Decimal.uint) : string :=
  joined (NilEmpty.string_of_uint first)
         ((fun u => ("."%char, NilEmpty.string_of_uint u)) <$> rest).

(** The numbers that the numerals write. *)
Definition numbers (first : Decimal.uint) (rest : list Decimal.uint) : list Z :=
  Z.of_uint <$> first :: rest.

(** The [i]-th number of a list continued with zeros. *)
Definition padded (l : list Z) (i : nat) : Z := default 0 (l !! i).

End VersionSpec.

(** ** A small host and small trees, used to run the definitions *)

Module Sample.
Import Fs.

(** [needle] occurs in [hay]. *)
Fixpoint occurs (needle hay : string) : bool :=
  (String.prefix needle hay
   || match hay with
      | String _ rest => occurs needle rest
      | EmptyString => false
      end)%bool.

(** The text up to the first line feed. *)
Fixpoint firstLine (text : string) : string :=
  match text with
  | EmptyString => EmptyString
  | String c rest =>
      if Ascii.eqb c (ascii_of_nat 10) then EmptyString
      else String c (firstLine rest)
  end.

(** The text after the first line feed. *)
Fixpoint afterFirstLine (text : string) : string :=
  match text with
  | EmptyString => EmptyString
  | String c rest =>
      if Ascii.eqb c (ascii_of_nat 10) then rest else afterFirstLine rest
  end.

Definition features0 : Features := mkFeatures false false "all".

(** A host whose regular expressions are plain substrings (an unbalanced
    ["("] does not compile) and whose JSON documents are a version on the
    first line (a manifest gives its [minCliVersion] on the second line when
    there is one; ["not json"] does not parse). *)
Definition host : Host :=
  mkHost
    (fun src => if String.eqb src "(" then None else Some (occurs src))
    (fun text => if String.eqb text "not json" then None
                 else Some (mkVelocityConfig (firstLine text) "2024-01-01"
                              "2024-01-01" features0))
    (fun text => if String.eqb text "not json" then None
                 else Some (mkUpgradeManifest (firstLine text)
                              (if String.eqb (afterFirstLine text) "" then "1.0.0"
                               else firstLine (afterFirstLine text))
                              (mkManifestFiles ["src/lib/"; "tsconfig.json"] [])
                              (mkManifestDependencies [("astro", "5.0.0")] [] [])
                              []))
    (fun text => if String.eqb text "not json" then None
                 else Some [Pkg.Member "name" (JStr (firstLine text));
                            Pkg.DevDependencies {[ "astro" := "4.0.0" ]}])
    (fun config => version config)
    (fun pkg => match Pkg.get pkg "name" with
                | Some (JStr n) => n
                | _ => ""
                end).

Definition project : Path.t := Path.parse "/work/site".

(** A project with a package descriptor. *)
Definition treeWithPackage : node :=
  Dir [("work", Dir [("site", Dir [("package.json", File (Some "site"))])])].


(** The fresh template of the scenario of the specification next to a
    project: [a.ts] is the same on both sides, [b.ts] differs, [c.ts] is new. *)
Definition fresh : Path.t := Path.parse "/tmp/velocity-upgrade-1".

Definition freshTree : node :=
  Dir [("src", Dir [("lib", Dir [("a.ts", File (Some "export const a = 1"));
                                 ("b.ts", File (Some "export const b = 2"));
                                 ("c.ts", File (Some "export const c = 3"))])]);
       ("tsconfig.json", File (Some "{}"))].

Definition tree : node :=
  Dir [("tmp", Dir [("velocity-upgrade-1", freshTree)]);
       ("work", Dir [("site",
          Dir [("src", Dir [("lib", Dir [("a.ts", File (Some "export const a = 1"));
                                         ("b.ts", File (Some "export const b = 0"))])]);
               ("tsconfig.json", File (Some "{}"))])])].

(** The same, except that the project has a directory where the template
    has the file [tsconfig.json]. *)
Definition treeDirInPlace : node :=
  Dir [("tmp", Dir [("velocity-upgrade-1", freshTree)]);
       ("work", Dir [("site",
          Dir [("src", Dir [("lib", Dir [("a.ts", File (Some "export const a = 1"));
                                         ("b.ts", File (Some "export const b = 0"))])]);
               ("tsconfig.json", Dir [])])])].

(** A project with a file that cannot be read and a [node_modules]
    directory. *)
Definition treeUnreadable : node :=
  Dir [("work", Dir [("site",
          Dir [("src", Dir [("secret.ts", File None);
                            ("node_modules", Dir [("dep.ts", File (Some "const b"))]);
                            ("b.ts", File (Some "export const b = 0"))])])])].

Definition manifestOf (safeFiles : list string) : UpgradeManifest :=
  mkUpgradeManifest "2.0.0" "1.0.0" (mkManifestFiles safeFiles [])
    (mkManifestDependencies [] [] []) [].

(** A project at version 1.0.0 before the template is downloaded. *)
Definition siteTree (packageText : string) : node :=
  Dir [(".velocity.json", File (Some "1.0.0"));
       ("package.json", File (Some packageText));
       ("src", Dir [("lib", Dir [("a.ts", File (Some "export const a = 1"));
                                 ("b.ts", File (Some "export const b = 0"))])]);
       ("tsconfig.json", File (Some "{}"))].

Definition diskBefore (packageText : string) : node :=
  Dir [("tmp", Dir []); ("work", Dir [("site", siteTree packageText)])].

(** The template with a manifest whose text is [manifestText]. *)
Definition templateTree (manifestText : string) : node :=
  Dir [("velocity-manifest.json", File (Some manifestText));
       ("src", Dir [("lib", Dir [("a.ts", File (Some "export const a = 1"));
                                 ("b.ts", File (Some "export const b = 2"));
                                 ("c.ts", File (Some "export const c = 3"))])]);
       ("tsconfig.json", File (Some "{}"))].

Definition envWith (manifestText : string) (rmThrows : bool) : Upgrade.Env :=
  Upgrade.mkEnv false false (Path.parse "/tmp") 1%N
                (Some (templateTree manifestText)) true rmThrows "2026-01-01"
                (fun _ => false).

Definition options : UpgradeOptions := mkUpgradeOptions project false true.

(** A manifest for version 2.0.0 that needs an engine of version 9.0.0. *)
Definition manifestTooNew : string :=
  ("2.0.0" ++ newline ++ "9.0.0")%string.

End Sample.

(** ** A JSON codec for plain documents, used to run the merger on text *)

(** [JSON.parse] and [JSON.stringify(value, null, 2)] on the documents whose
    values are objects and strings written without escape sequences, with
    distinct keys in every object.  On such a text the parser gives the value
    that [JSON.parse] gives, and the printer writes an object or a string as
    [JSON.stringify] with an indentation of two spaces does; a text with
    anything else is not parsed here.  The properties of a dependency
    section, which the descriptor holds as a map, are printed in the order
    of the map. *)
Module PlainJson.

Definition quoteChar : ascii := ascii_of_nat 34.

Definition quoted (s : string) : string :=
  String quoteChar (s ++ String quoteChar EmptyString).

(** JSON white space: space, tab, line feed, carriage return. *)
Definition isWs (c : ascii) : bool :=
  existsb (Nat.eqb (nat_of_ascii c)) [32; 9; 10; 13]%nat.

Fixpoint skipWs (s : string) : string :=
  match s with
  | String c rest => if isWs c then skipWs rest else s
  | EmptyString => s
  end.

(** The characters up to the closing quote, and what follows it; a
    backslash or a control character is outside the documents read here. *)
Fixpoint readString (s : string) : option (string * string) :=
  match s with
  | EmptyString => None
  | String c rest =>
      if Ascii.eqb c quoteChar then Some (EmptyString, rest)
      else if (Ascii.eqb c (ascii_of_nat 92) || (nat_of_ascii c <? 32)%nat)%bool then None
      else '(body, rest') ← readString rest; Some (String c body, rest')
  end.

Fixpoint parseValue (fuel : nat) (s : string) : option (json * string) :=
  match fuel with
  | O => None
  | S fuel' =>
      match skipWs s with
      | String c rest =>
          if Ascii.eqb c quoteChar then
            '(body, rest') ← readString rest; Some (JStr body, rest')
          else if Ascii.eqb c "{" then
            match skipWs rest with
            | String "}" rest' => Some (JObj [], rest')
            | _ => '(members, rest') ← parseMembers fuel' rest;
                   Some (JObj members, rest')
            end
          else None
      | EmptyString => None
      end
  end
with parseMembers (fuel : nat) (s : string)
  : option (list (string * json) * string) :=
  match fuel with
  | O => None
  | S fuel' =>
      match skipWs s with
      | String c rest =>
          if Ascii.eqb c quoteChar then
            '(key, rest1) ← readString rest;
            match skipWs rest1 with
            | String ":" rest2 =>
                '(value, rest3) ← parseValue fuel' rest2;
                match skipWs rest3 with
                | String "," rest4 =>
                    '(members, rest5) ← parseMembers fuel' rest4;
                    Some ((key, value) :: members, rest5)
                | String "}" rest4 => Some ([(key, value)], rest4)
                | _ => None
                end
            | _ => None
            end
          else None
      | EmptyString => None
      end
  end.

Fixpoint distinctKeys (value : json) : bool :=
  match value with
  | JObj members =>
      (bool_decide (NoDup members.*1)
       && (fix all (ms : list (string * json)) : bool :=
             match ms with
             | [] => true
             | (_, v) :: rest => (distinctKeys v && all rest)%bool
             end) members)%bool
  | _ => true
  end.

(** [JSON.parse(text)]. *)
Definition parse (text : string) : option json :=
  match parseValue (S (String.length text)) text with
  | Some (value, rest) =>
      if (String.eqb (skipWs rest) "" && distinctKeys value)%bool
      then Some value else None
  | None => None
  end.

(** A dependency section: an object of strings. *)
Definition toSection (value : json) : option Pkg.section :=
  match value with
  | JObj members =>
      list_to_map <$>
        mapM (fun m : string * json =>
                match m.2 with JStr version => Some (m.1, version) | _ => None end)
             members
  | _ => None
  end.

Definition toMember (m : string * json) : option Pkg.member :=
  if String.eqb m.1 "dependencies" then Pkg.Dependencies <$> toSection m.2
  else if String.eqb m.1 "devDependencies" then Pkg.DevDependencies <$> toSection m.2
  else Some (Pkg.Member m.1 m.2).

Definition parsePackage (text : string) : option Pkg.t :=
  match parse text with
  | Some (JObj members) => mapM toMember members
  | _ => None
  end.

Definition lineFeed : string := String (ascii_of_nat 10) EmptyString.

(** [JSON.stringify(value, null, 2)] at the indentation [indent]. *)
Fixpoint stringifyAt (indent : string) (value : json) : string :=
  match value with
  | JStr s => quoted s
  | JObj [] => "{}"
  | JObj members =>
      let inner := ("  " ++ indent)%string in
      ("{" ++ lineFeed
       ++ (fix lines (ms : list (string * json)) : string :=
             match ms with
             | [] => ""
             | [(k, v)] => inner ++ quoted k ++ ": " ++ stringifyAt inner v
             | (k, v) :: rest =>
                 inner ++ quoted k ++ ": " ++ stringifyAt inner v
                 ++ "," ++ lineFeed ++ lines rest
             end) members
       ++ lineFeed ++ indent ++ "}")%string
  | JNull => "null"
  | JBool b => if b then "true" else "false"
  | JNum n => NilZero.string_of_int (Z.to_int n)
  | JArr _ => "[]"
  end.

Definition ofSection (deps : Pkg.section) : json :=
  JObj ((fun kv : string * string => (kv.1, JStr kv.2)) <$> map_to_list deps).

Definition ofMember (m : Pkg.member) : string * json :=
  match m with
  | Pkg.Dependencies deps => ("dependencies", ofSection deps)
  | Pkg.DevDependencies deps => ("devDependencies", ofSection deps)
  | Pkg.Member k v => (k, v)
  end.

Definition stringifyPackage (pkg : Pkg.t) : string :=
  stringifyAt "" (JObj (ofMember <$> pkg)).

(** The sample host with this codec for the package descriptor. *)
Definition host : Host :=
  mkHost (RegExp Sample.host) (parseConfig Sample.host)
         (parseManifest Sample.host) parsePackage
         (stringifyConfig Sample.host) stringifyPackage.





End PlainJson.

(** ** A project that is a copy of the template *)

Module SampleTwin.
Import Fs.

Definition tree : node :=
  Dir [("tmp", Dir [("velocity-upgrade-1", Sample.freshTree)]);
       ("work", Dir [("site", Sample.freshTree)])].

End SampleTwin.
(** * Properties *)

(** ** The tally *)

Section Tally.

Implicit Types (diffs : list FileDiff) (acc : DiffSummary).

Lemma count_status_cons s d diffs :
  count_status s (d :: diffs) =
  ((if decide (status d = s) then 1 else 0) + count_status s diffs)%nat.
Proof.
  unfold count_status. rewrite filter_cons.
  destruct (decide (status d = s)); reflexivity.
Qed.

Lemma fold_tally acc diffs :
  fold_left tally_step diffs acc =
  mkSummary (n_added acc + count_status added diffs)
            (n_modified acc + count_status modified diffs)
            (n_unchanged acc + count_status unchanged diffs).
Proof.
  revert acc. induction diffs as [|d diffs IH]; intros [a m u]; simpl.
  - unfold count_status; simpl. f_equal; lia.
  - rewrite IH, !count_status_cons. unfold tally_step.
    destruct (status d); simpl; f_equal; lia.
Qed.

Lemma count_status_total diffs :
  (count_status added diffs + count_status modified diffs
   + count_status unchanged diffs + count_status removed diffs)%nat
  = length diffs.
Proof.
  induction diffs as [|d diffs IH]; [reflexivity|].
  rewrite !count_status_cons. simpl length.
  destruct (status d); simpl; lia.
Qed.

Lemma count_status_by_status s diffs1 diffs2 :
  status <$> diffs1 = status <$> diffs2 ->
  count_status s diffs1 = count_status s diffs2.
Proof.
  revert diffs2. induction diffs1 as [|d1 diffs1 IH]; intros [|d2 diffs2] E;
    try discriminate; [reflexivity|].
  injection E as E1 E2. rewrite !count_status_cons, E1, (IH _ E2). reflexivity.
Qed.

(** C2: each count of [summarizeDiffs] is the number of entries with that
    status, so that entries with status [removed] fall in no bucket (the three
    counts and the number of [removed] entries add up to the length), the
    empty list gives three zeros, and two lists with the same statuses in the
    same order, whatever their paths and categories, give the same counts. *)
Theorem summarizeDiffs_counts :
  (forall diffs,
     summarizeDiffs diffs =
       mkSummary (count_status added diffs) (count_status modified diffs)
                 (count_status unchanged diffs)
     /\ (n_added (summarizeDiffs diffs) + n_modified (summarizeDiffs diffs)
         + n_unchanged (summarizeDiffs diffs) + count_status removed diffs)%nat
        = length diffs)
  /\ summarizeDiffs [] = mkSummary 0 0 0
  /\ (forall diffs1 diffs2,
        status <$> diffs1 = status <$> diffs2 ->
        summarizeDiffs diffs1 = summarizeDiffs diffs2).
Proof.
  assert (H : forall diffs, summarizeDiffs diffs =
            mkSummary (count_status added diffs) (count_status modified diffs)
                      (count_status unchanged diffs)).
  { intros diffs. unfold summarizeDiffs. rewrite fold_tally. reflexivity. }
  split; [|split].
  - intros diffs. split; [apply H|].
    rewrite H. simpl. apply count_status_total.
  - reflexivity.
  - intros diffs1 diffs2 E. rewrite !H.
    f_equal; apply count_status_by_status; assumption.
Qed.

(** The mixed list of the unit tests (tests/unit/utils/diff.test.ts). *)
Example summarizeDiffs_mix :
  summarizeDiffs
    [mkFileDiff "a.ts" added safe; mkFileDiff "b.ts" added safe;
     mkFileDiff "c.ts" modified protected; mkFileDiff "d.ts" unchanged safe;
     mkFileDiff "e.ts" unchanged protected; mkFileDiff "f.ts" unchanged safe;
     mkFileDiff "g.ts" removed safe]
  = mkSummary 2 1 3.
Proof. reflexivity. Qed.

Lemma summarizeDiffs_counts_witness :
  summarizeDiffs
    [mkFileDiff "a.ts" added safe; mkFileDiff "g.ts" removed safe;
     mkFileDiff "c.ts" modified protected]
  = summarizeDiffs
    [mkFileDiff "x/y.ts" added protected; mkFileDiff "" removed protected;
     mkFileDiff "z" modified safe].
Proof.
  apply (proj2 (proj2 summarizeDiffs_counts)). reflexivity.
Defined.

End Tally.

(** ** The version comparator *)

Section VersionOrder.

Import Version VersionSpec.

Example parse_release : parse "v1.6.0" = [1; 6; 0].
Proof. reflexivity. Qed.

Example parse_prerelease : parse "2.0.0-rc.1" = [2; 0; 0; 0; 1].
Proof. reflexivity. Qed.

Example parse_one_v_only : parse "vv3" = [0].
Proof. reflexivity. Qed.

Example parse_digit_prefix : parse "1.2beta.x" = [1; 2; 0].
Proof. reflexivity. Qed.

Example gate_example : isVersionLessThan "1.0.0" "2.0.0" = true.
Proof. reflexivity. Qed.

Example padding_example : isVersionLessThan "1.6" "1.6.0.1" = true.
Proof. reflexivity. Qed.

(** [nearestDouble] against the Standard Library's model of IEEE 754, at
    integers around the places where the rounding changes. *)
Example nearestDouble_ieee :
  Forall (fun n => nearestDouble n = ieee n)
    [0; 1; 2 ^ 53 - 1; 2 ^ 53; 2 ^ 53 + 1; 2 ^ 53 + 2; 2 ^ 53 + 3;
     2 ^ 54 + 2; 2 ^ 54 + 6; 10 ^ 21; 10 ^ 22 + 1; 10 ^ 40 + 7;
     2 ^ 1024 - 2 ^ 971; 2 ^ 1024 - 2 ^ 970 - 1; 2 ^ 1024 - 2 ^ 970;
     2 ^ 1024; 10 ^ 400].
Proof. repeat constructor; vm_compute; reflexivity. Qed.

Lemma at_or_zero_beyond (a : list Z) (i : nat) :
  (length a <= i)%nat -> at_or_zero a i = 0.
Proof.
  intros H. unfold at_or_zero. rewrite lookup_ge_None_2 by assumption. reflexivity.
Qed.

(** The loop started at [i] answers [true] exactly when, within its [todo]
    iterations, it meets an index where [a] is smaller before one where the
    two differ otherwise. *)
Lemma scan_true (a b : list Z) (todo i : nat) :
  scan a b i todo = true <->
  exists k, (k < todo)%nat
    /\ (forall j, (i <= j < i + k)%nat -> at_or_zero a j = at_or_zero b j)
    /\ at_or_zero a (i + k) < at_or_zero b (i + k).
Proof.
  revert i. induction todo as [|todo IH]; intros i; simpl.
  - split; [discriminate|]. intros (k & Hk & _). lia.
  - destruct (Z.ltb_spec (at_or_zero a i) (at_or_zero b i)) as [Hlt|Hge].
    + split; [|reflexivity]. intros _. exists 0%nat.
      rewrite Nat.add_0_r. repeat split; [lia | intros j Hj; lia | assumption].
    + destruct (Z.ltb_spec (at_or_zero b i) (at_or_zero a i)) as [Hgt|Hle].
      * split; [discriminate|]. intros (k & Hk & Heq & Hlt).
        destruct k as [|k].
        -- rewrite Nat.add_0_r in Hlt. lia.
        -- specialize (Heq i ltac:(lia)). lia.
      * rewrite IH. split.
        -- intros (k & Hk & Heq & Hlt). exists (S k).
           repeat split; [lia | | rewrite <- Nat.add_succ_comm; assumption].
           intros j Hj. destruct (decide (j = i)) as [->|Hne]; [lia|].
           apply Heq. lia.
        -- intros (k & Hk & Heq & Hlt). destruct k as [|k].
           ++ rewrite Nat.add_0_r in Hlt. lia.
           ++ exists k. repeat split; [lia | | rewrite Nat.add_succ_comm; assumption].
              intros j Hj. apply Heq. lia.
Qed.

(** *** How a version string is cut *)

Lemma is_sep_literal (c : ascii) :
  is_sep c = true <-> c = "."%char \/ c = "-"%char.
Proof.
  unfold is_sep. rewrite orb_true_iff. split.
  - intros [H|H]; apply Ascii.eqb_eq in H; auto.
  - intros [->| ->]; auto.
Qed.

Lemma split_piece (s : string) : noSeparator s = true -> split s = [s].
Proof.
  induction s as [|c s IH]; [reflexivity|]. simpl. intros H.
  apply andb_true_iff in H as [H Hs]. apply andb_true_iff in H as [H1 H2].
  unfold is_sep. apply negb_true_iff in H1, H2. rewrite H1, H2. simpl.
  rewrite (IH Hs). reflexivity.
Qed.

Lemma split_at_sep (s t : string) (c : ascii) :
  is_sep c = true ->
  split (s ++ String c t)%string = split s ++ split t.
Proof.
  intros Hc. induction s as [|d s IH]; simpl.
  - rewrite Hc. reflexivity.
  - rewrite IH. destruct (is_sep d); [reflexivity|].
    destruct (split s) as [|piece pieces] eqn:E; [|reflexivity].
    exfalso. destruct s as [|e s]; simpl in E; [discriminate|].
    destruct (is_sep e); [discriminate|]. destruct (split s); discriminate.
Qed.

Lemma split_joined (first : string) (rest : list (ascii * string)) :
  wellCut first rest -> split (joined first rest) = first :: rest.*2.
Proof.
  revert first. induction rest as [|[c segment] rest IH]; intros first [Hf Hr].
  - simpl. apply split_piece, Hf.
  - apply Forall_cons in Hr as [[Hc Hs] Hr]. simpl in Hc, Hs.
    cbn [joined]. rewrite split_at_sep by (apply is_sep_literal; exact Hc).
    rewrite (split_piece _ Hf), (IH segment) by (split; assumption).
    reflexivity.
Qed.

Lemma strip_v_joined (first : string) (rest : list (ascii * string)) :
  wellCut first rest ->
  (forall t, first <> String "v" t) ->
  strip_v (joined first rest) = joined first rest.
Proof.
  intros [_ Hr] Hv. destruct first as [|d first].
  - destruct rest as [|[c segment] rest]; [reflexivity|].
    apply Forall_cons in Hr as [[Hc _] _]. simpl in Hc. cbn [joined].
    destruct Hc as [->| ->]; reflexivity.
  - assert (Hd : d <> "v"%char) by (intros ->; exact (Hv first eq_refl)).
    assert (H : forall s, strip_v (String d s) = String d s).
    { intros s. unfold strip_v.
      destruct d as [[] [] [] [] [] [] [] []]; try reflexivity.
      exfalso. apply Hd. reflexivity. }
    destruct rest as [|[c segment] rest]; cbn [joined]; apply H.
Qed.

(** *** How a segment is read *)

Lemma is_space_blank (c : ascii) : is_space c = blank c.
Proof. destruct c as [[] [] [] [] [] [] [] []]; reflexivity. Qed.

Lemma digit_of_isDigit (c : ascii) :
  match digit_of c with Some _ => true | None => false end = isDigit c.
Proof. destruct c as [[] [] [] [] [] [] [] []]; reflexivity. Qed.

Lemma skip_space_blanks (ws s : string) :
  allBlank ws = true -> skip_space (ws ++ s) = skip_space s.
Proof.
  induction ws as [|c ws IH]; [reflexivity|]. simpl. intros H.
  apply andb_true_iff in H as [Hc Hws]. rewrite is_space_blank, Hc. auto.
Qed.

Lemma skip_space_here (s : string) :
  match s with String c _ => blank c = false | EmptyString => True end ->
  skip_space s = s.
Proof.
  destruct s as [|c s]; [reflexivity|]. simpl. intros H.
  rewrite is_space_blank, H. reflexivity.
Qed.


Lemma digits_done (s : string) (acc : Z) :
  startsWithDigit s = false -> digits s acc true = Some acc.
Proof.
  destruct s as [|c s]; [reflexivity|]. simpl. intros H.
  rewrite <- digit_of_isDigit in H. destruct (digit_of c); [discriminate|reflexivity].
Qed.

Lemma digits_step (c : ascii) (d : Z) (s : string) (acc : Z) (seen : bool) :
  digit_of c = Some d ->
  digits (String c s) acc seen = digits s (10 * acc + d) true.
Proof. intros H. cbn [digits]. rewrite H. reflexivity. Qed.

Lemma append_cons (c : ascii) (s t : string) :
  (String c s ++ t)%string = String c (s ++ t).
Proof. reflexivity. Qed.

(** With a positive accumulator the digits of [u] are read as the Standard
    Library reads them. *)
Lemma digits_acc (u : Decimal.uint) (rest : string) :
  startsWithDigit rest = false ->
  forall acc : positive,
    digits (NilEmpty.string_of_uint u ++ rest) (Z.pos acc) true
    = Some (Z.pos (Pos.of_uint_acc u acc)).
Proof.
  intros Hrest. induction u as [|u IH|u IH|u IH|u IH|u IH|u IH|u IH|u IH|u IH|u IH];
    intros acc; cbn [NilEmpty.string_of_uint Pos.of_uint_acc]; rewrite ?append_cons;
    [apply digits_done, Hrest| ..].
  - rewrite (digits_step _ 0) by reflexivity. rewrite <- IH; f_equal; lia.
  - rewrite (digits_step _ 1) by reflexivity. rewrite <- IH; f_equal; lia.
  - rewrite (digits_step _ 2) by reflexivity. rewrite <- IH; f_equal; lia.
  - rewrite (digits_step _ 3) by reflexivity. rewrite <- IH; f_equal; lia.
  - rewrite (digits_step _ 4) by reflexivity. rewrite <- IH; f_equal; lia.
  - rewrite (digits_step _ 5) by reflexivity. rewrite <- IH; f_equal; lia.
  - rewrite (digits_step _ 6) by reflexivity. rewrite <- IH; f_equal; lia.
  - rewrite (digits_step _ 7) by reflexivity. rewrite <- IH; f_equal; lia.
  - rewrite (digits_step _ 8) by reflexivity. rewrite <- IH; f_equal; lia.
  - rewrite (digits_step _ 9) by reflexivity. rewrite <- IH; f_equal; lia.
Qed.

Lemma digits_value (u : Decimal.uint) (rest : string) :
  startsWithDigit rest = false ->
  forall seen : bool,
    u <> Decimal.Nil \/ seen = true ->
    digits (NilEmpty.string_of_uint u ++ rest) 0 seen = Some (Z.of_uint u).
Proof.
  intros Hrest. unfold Z.of_uint.
  induction u as [|u IH|u IH|u IH|u IH|u IH|u IH|u IH|u IH|u IH|u IH];
    intros seen Hseen;
    cbn [NilEmpty.string_of_uint Pos.of_uint]; rewrite ?append_cons.
  - destruct Hseen as [H| ->]; [congruence|]. apply digits_done, Hrest.
  - rewrite (digits_step _ 0) by reflexivity. apply IH. auto.
  - rewrite (digits_step _ 1) by reflexivity. apply (digits_acc u rest Hrest 1).
  - rewrite (digits_step _ 2) by reflexivity. apply (digits_acc u rest Hrest 2).
  - rewrite (digits_step _ 3) by reflexivity. apply (digits_acc u rest Hrest 3).
  - rewrite (digits_step _ 4) by reflexivity. apply (digits_acc u rest Hrest 4).
  - rewrite (digits_step _ 5) by reflexivity. apply (digits_acc u rest Hrest 5).
  - rewrite (digits_step _ 6) by reflexivity. apply (digits_acc u rest Hrest 6).
  - rewrite (digits_step _ 7) by reflexivity. apply (digits_acc u rest Hrest 7).
  - rewrite (digits_step _ 8) by reflexivity. apply (digits_acc u rest Hrest 8).
  - rewrite (digits_step _ 9) by reflexivity. apply (digits_acc u rest Hrest 9).
Qed.

Lemma starts_digit_not_blank (u : Decimal.uint) (rest : string) :
  u <> Decimal.Nil ->
  match (NilEmpty.string_of_uint u ++ rest)%string with
  | String c _ => blank c = false /\ c <> "-"%char /\ c <> "+"%char
  | EmptyString => False
  end.
Proof.
  destruct u; [congruence| ..]; intros _; cbn; repeat split; discriminate.
Qed.

Lemma parseInt_unsigned (body : string) :
  match body with
  | String c _ => c <> "-"%char /\ c <> "+"%char
  | EmptyString => True
  end ->
  skip_space body = body ->
  parseInt body = nearestDouble <$> digits body 0 false.
Proof.
  intros Hc Hs. unfold parseInt. rewrite Hs.
  destruct body as [|c body]; [reflexivity|]. destruct Hc as [Hm Hp].
  destruct c as [[] [] [] [] [] [] [] []]; try reflexivity; exfalso; auto.
Qed.

(** A segment that is blanks, then the decimal digits of [u], then anything
    that does not go on with a digit, is read as the double nearest to the
    number the digits write. *)
Lemma component_digits (ws rest : string) (u : Decimal.uint) :
  allBlank ws = true -> u <> Decimal.Nil -> startsWithDigit rest = false ->
  component (ws ++ NilEmpty.string_of_uint u ++ rest)
  = nearestDouble (Z.of_uint u).
Proof.
  intros Hws Hu Hrest. unfold component.
  pose proof (starts_digit_not_blank u rest Hu) as Hstart.
  assert (Hparse : parseInt (ws ++ NilEmpty.string_of_uint u ++ rest)
                   = parseInt (NilEmpty.string_of_uint u ++ rest)).
  { unfold parseInt. rewrite (skip_space_blanks _ _ Hws). reflexivity. }
  rewrite Hparse, parseInt_unsigned.
  - rewrite (digits_value u rest Hrest false) by auto. reflexivity.
  - destruct (NilEmpty.string_of_uint u ++ rest)%string; [exact I|tauto].
  - apply skip_space_here.
    destruct (NilEmpty.string_of_uint u ++ rest)%string; [exact I|tauto].
Qed.



Lemma nearestDouble_exact (n : Z) : 0 <= n <= 2 ^ 53 -> nearestDouble n = n.
Proof.
  intros H. destruct (decide (n = 2 ^ 53)) as [->|Hne]; [reflexivity|].
  unfold nearestDouble. destruct (Z.ltb_spec n (2 ^ 53)); [reflexivity|lia].
Qed.


(** A piece that goes on after its digits is not read as 0. *)
Example isVersionLessThan_digit_prefix :
  isVersionLessThan "1.0.0-1beta" "1.0.0-2beta" = true.
Proof. reflexivity. Qed.



End VersionOrder.
(** ** The dependency merger *)

Section DependencyMerge.

Import Deps DepsView.

Implicit Types (pkg base : Pkg.t) (name version : string)
  (d v : gmap string string)
  (section : option (gmap string string)) (s : option string * option string).

(** *** The member list *)

Lemma dependencies_set d pkg :
  Pkg.dependencies (Pkg.setDependencies d pkg) = Some d.
Proof. induction pkg as [|[] pkg IH]; cbn; auto. Qed.

Lemma devDependencies_set v pkg :
  Pkg.devDependencies (Pkg.setDevDependencies v pkg) = Some v.
Proof. induction pkg as [|[] pkg IH]; cbn; auto. Qed.

Lemma devDependencies_setDependencies d pkg :
  Pkg.devDependencies (Pkg.setDependencies d pkg) = Pkg.devDependencies pkg.
Proof. induction pkg as [|[] pkg IH]; cbn; auto. Qed.

Lemma dependencies_setDevDependencies v pkg :
  Pkg.dependencies (Pkg.setDevDependencies v pkg) = Pkg.dependencies pkg.
Proof. induction pkg as [|[] pkg IH]; cbn; auto. Qed.










(** *** The frame of the descriptor *)







(** *** What the steps do to one package *)

Lemma isSome_bool_decide (o : option string) :
  bool_decide (is_Some o) = isSome o.
Proof.
  destruct o.
  - apply bool_decide_eq_true_2. eauto.
  - apply bool_decide_eq_false_2. intros [? ?]; congruence.
Qed.

Lemma declares_spec section name :
  declares section name
  = (isSome (declared section name) || (present section && inherited name))%bool.
Proof.
  destruct section as [deps|]; simpl; [|reflexivity].
  rewrite isSome_bool_decide. reflexivity.
Qed.

Lemma declared_default section name :
  default ∅ section !! name = declared section name.
Proof. destruct section; simpl; [reflexivity|apply lookup_empty]. Qed.

Lemma assign_lookup d name version other :
  assign d name version !! other
  = if decide (name = other) then assignKey name (d !! name) version
    else d !! other.
Proof.
  unfold assign, assignKey, Pkg.section. rewrite isSome_bool_decide.
  destruct (String.eqb name "__proto__" && negb (isSome (d !! name)))%bool.
  - destruct (decide (name = other)) as [->|]; reflexivity.
  - rewrite lookup_insert. destruct (decide (name = other)); reflexivity.
Qed.

Lemma about_updateStep pkg name version other :
  about (updateStep pkg (name, version)) other =
  if decide (name = other)
  then keyUpdate (present (Pkg.dependencies pkg))
         (present (Pkg.devDependencies pkg)) name version (about pkg other)
  else about pkg other.
Proof.
  unfold updateStep, setDependency, keyUpdate, about. rewrite !declares_spec.
  cbn [fst snd].
  destruct (decide (name = other)) as [<-|Hne].
  - destruct (isSome (declared (Pkg.dependencies pkg) name)
              || present (Pkg.dependencies pkg) && inherited name)%bool;
      [|destruct (isSome (declared (Pkg.devDependencies pkg) name)
                  || present (Pkg.devDependencies pkg) && inherited name)%bool];
      rewrite ?dependencies_set, ?devDependencies_set,
        ?devDependencies_setDependencies, ?dependencies_setDevDependencies;
      cbn [declared mbind option_bind];
      rewrite assign_lookup, decide_True by reflexivity;
      rewrite declared_default; reflexivity.
  - destruct (isSome (declared (Pkg.dependencies pkg) name)
              || present (Pkg.dependencies pkg) && inherited name)%bool;
      [|destruct (isSome (declared (Pkg.devDependencies pkg) name)
                  || present (Pkg.devDependencies pkg) && inherited name)%bool];
      rewrite ?dependencies_set, ?devDependencies_set,
        ?devDependencies_setDependencies, ?dependencies_setDevDependencies;
      cbn [declared mbind option_bind];
      rewrite assign_lookup, decide_False by exact Hne;
      rewrite declared_default; reflexivity.
Qed.

Lemma about_removeStep pkg name other :
  about (removeStep pkg name) other =
  if decide (name = other) then keyRemove (about pkg other) else about pkg other.
Proof.
  assert (Hdel : forall section,
    declared (Some (delete name (default ∅ section))) other
    = if decide (name = other) then None else declared section other).
  { intros section. cbn [declared mbind option_bind]. unfold Pkg.section.
    rewrite lookup_delete, declared_default.
    destruct (decide (name = other)); reflexivity. }
  assert (Hnone : forall section,
    declares section name = false -> name = other ->
    declared section other = None).
  { intros section H <-. rewrite declares_spec in H.
    apply orb_false_elim in H as [H _].
    destruct (declared section name); [discriminate|reflexivity]. }
  unfold removeStep, about, keyRemove.
  destruct (declares (Pkg.dependencies pkg) name) eqn:Ed.
  - rewrite devDependencies_setDependencies.
    destruct (declares (Pkg.devDependencies pkg) name) eqn:Ev.
    + rewrite dependencies_setDevDependencies, dependencies_set,
        devDependencies_set, !Hdel.
      destruct (decide (name = other)); reflexivity.
    + rewrite dependencies_set, devDependencies_setDependencies, Hdel.
      destruct (decide (name = other)) as [E|]; [|reflexivity].
      rewrite (Hnone _ Ev E). reflexivity.
  - destruct (declares (Pkg.devDependencies pkg) name) eqn:Ev.
    + rewrite dependencies_setDevDependencies, devDependencies_set, Hdel.
      destruct (decide (name = other)) as [E|]; [|reflexivity].
      rewrite (Hnone _ Ed E). reflexivity.
    + destruct (decide (name = other)) as [E|]; [|reflexivity].
      rewrite (Hnone _ Ed E), (Hnone _ Ev E). reflexivity.
Qed.

Lemma about_addStep pkg name version other :
  about (addStep pkg (name, version)) other =
  if decide (name = other) then keyAdd name version (about pkg other)
  else about pkg other.
Proof.
  unfold addStep, setDependency, about, keyAdd. cbn [fst snd].
  rewrite dependencies_set, devDependencies_setDependencies.
  cbn [declared mbind option_bind]. rewrite assign_lookup, !declared_default.
  destruct (decide (name = other)) as [<-|]; reflexivity.
Qed.

(** *** Which sections exist *)

Lemma present_dev_updateStep pkg entry :
  present (Pkg.devDependencies (updateStep pkg entry))
  = present (Pkg.devDependencies pkg).
Proof.
  destruct entry as [name version]. unfold updateStep, setDependency.
  destruct (declares (Pkg.dependencies pkg) name);
    [apply f_equal, devDependencies_setDependencies|].
  destruct (declares (Pkg.devDependencies pkg) name) eqn:E;
    [|apply f_equal, devDependencies_setDependencies].
  rewrite devDependencies_set.
  destruct (Pkg.devDependencies pkg); [reflexivity|discriminate].
Qed.

Lemma present_dev_removeStep pkg name :
  present (Pkg.devDependencies (removeStep pkg name))
  = present (Pkg.devDependencies pkg).
Proof.
  unfold removeStep.
  set (pkg1 := if declares (Pkg.dependencies pkg) name then _ else pkg).
  assert (H1 : Pkg.devDependencies pkg1 = Pkg.devDependencies pkg).
  { subst pkg1. destruct (declares (Pkg.dependencies pkg) name);
      [apply devDependencies_setDependencies|reflexivity]. }
  destruct (declares (Pkg.devDependencies pkg1) name) eqn:E;
    [|rewrite H1; reflexivity].
  rewrite devDependencies_set. rewrite H1 in E.
  destruct (Pkg.devDependencies pkg); [reflexivity|discriminate].
Qed.

Lemma present_dev_addStep pkg entry :
  present (Pkg.devDependencies (addStep pkg entry))
  = present (Pkg.devDependencies pkg).
Proof.
  destruct entry as [name version]. unfold addStep, setDependency.
  rewrite devDependencies_setDependencies. reflexivity.
Qed.

Lemma present_deps_updateStep pkg entry :
  present (Pkg.dependencies pkg) = true ->
  present (Pkg.dependencies (updateStep pkg entry)) = true.
Proof.
  destruct entry as [name version]. unfold updateStep, setDependency. intros H.
  repeat case_match;
    rewrite ?dependencies_set, ?dependencies_setDevDependencies; auto.
Qed.

Lemma present_deps_removeStep pkg name :
  present (Pkg.dependencies (removeStep pkg name))
  = present (Pkg.dependencies pkg).
Proof.
  unfold removeStep.
  set (pkg1 := if declares (Pkg.dependencies pkg) name then _ else pkg).
  assert (H1 : present (Pkg.dependencies pkg1) = present (Pkg.dependencies pkg)).
  { subst pkg1. destruct (declares (Pkg.dependencies pkg) name) eqn:E;
      [|reflexivity].
    rewrite dependencies_set.
    destruct (Pkg.dependencies pkg); [reflexivity|discriminate]. }
  destruct (declares (Pkg.devDependencies pkg1) name);
    rewrite ?dependencies_setDevDependencies; exact H1.
Qed.

Lemma present_deps_addStep pkg entry :
  present (Pkg.dependencies (addStep pkg entry)) = true.
Proof.
  destruct entry as [name version]. unfold addStep, setDependency.
  rewrite dependencies_set. reflexivity.
Qed.

(** *** The frame along the steps *)




Lemma fold_left_invariant {A B} (P : A -> Prop) (f : A -> B -> A) (l : list B) :
  (forall a b, P a -> P (f a b)) -> forall a, P a -> P (fold_left f l a).
Proof.
  intros Hstep. induction l as [|b l IH]; intros a Ha; [exact Ha|].
  cbn [fold_left]. apply IH, Hstep, Ha.
Qed.


Lemma present_dev_mergeDeps pkg deps :
  present (Pkg.devDependencies (mergeDeps pkg deps))
  = present (Pkg.devDependencies pkg).
Proof.
  unfold mergeDeps.
  apply (fold_left_invariant
           (fun p => present (Pkg.devDependencies p)
                     = present (Pkg.devDependencies pkg)));
    [intros a b <-; apply present_dev_addStep|].
  apply (fold_left_invariant
           (fun p => present (Pkg.devDependencies p)
                     = present (Pkg.devDependencies pkg)));
    [intros a b <-; apply present_dev_removeStep|].
  apply (fold_left_invariant
           (fun p => present (Pkg.devDependencies p)
                     = present (Pkg.devDependencies pkg)));
    [intros a b <-; apply present_dev_updateStep|].
  reflexivity.
Qed.

Lemma present_deps_mergeDeps pkg deps :
  present (Pkg.dependencies pkg) = true ->
  present (Pkg.dependencies (mergeDeps pkg deps)) = true.
Proof.
  intros H. unfold mergeDeps.
  apply (fold_left_invariant (fun p => present (Pkg.dependencies p) = true));
    [intros; apply present_deps_addStep|].
  apply (fold_left_invariant (fun p => present (Pkg.dependencies p) = true));
    [intros a b Ha; rewrite present_deps_removeStep; exact Ha|].
  apply (fold_left_invariant (fun p => present (Pkg.dependencies p) = true));
    [intros; apply present_deps_updateStep; assumption|].
  exact H.
Qed.

Lemma inherited_names name : inherited name = false <-> name ∉ inheritedNames.
Proof.
  unfold inherited. rewrite bool_decide_eq_false.
  unfold OBJECT_PROTOTYPE, inheritedNames.
  rewrite !elem_of_cons, !elem_of_nil. tauto.
Qed.

(** *** The three loops, package by package *)

Lemma keyUpdate_flags (a b a' b' : bool) name version s :
  inherited name = false ->
  keyUpdate a b name version s = keyUpdate a' b' name version s.
Proof. intros H. unfold keyUpdate. rewrite H, !andb_false_r. reflexivity. Qed.

Lemma keyUpdate_twice (a b : bool) name (v1 v2 : string) s :
  keyUpdate a b name v2 (keyUpdate a b name v1 s) = keyUpdate a b name v2 s.
Proof.
  unfold keyUpdate, assignKey.
  destruct s as [[?|] [?|]], a, b, (inherited name),
    (String.eqb name "__proto__"); reflexivity.
Qed.

Lemma about_update_loop (hasDeps hasDev : bool) entries pkg name :
  present (Pkg.devDependencies pkg) = hasDev ->
  (present (Pkg.dependencies pkg) = true /\ hasDeps = true)
  \/ (name ∈ entries.*1 -> inherited name = false) ->
  about (fold_left updateStep entries pkg) name =
  match lastFor name entries with
  | Some v => keyUpdate hasDeps hasDev name v (about pkg name)
  | None => about pkg name
  end.
Proof.
  revert pkg. induction entries as [|[n v] entries IH]; intros pkg Hdev Hcase;
    [reflexivity|].
  cbn [fold_left lastFor]. rewrite IH.
  - rewrite about_updateStep.
    assert (Hflags : forall u s,
      n = name ->
      keyUpdate (present (Pkg.dependencies pkg))
        (present (Pkg.devDependencies pkg)) name u s
      = keyUpdate hasDeps hasDev name u s).
    { intros u s' E. destruct Hcase as [[-> ->]|Hni].
      - rewrite Hdev. reflexivity.
      - apply keyUpdate_flags, Hni. rewrite <- E. cbn. left. }
    destruct (lastFor name entries) as [v'|], (decide (n = name)) as [E|];
      try reflexivity; rewrite E, Hflags by exact E;
      rewrite ?keyUpdate_twice; reflexivity.
  - rewrite present_dev_updateStep. exact Hdev.
  - destruct Hcase as [[Hd ->]|Hni].
    + left. split; [|reflexivity]. apply present_deps_updateStep, Hd.
    + right. intros Hm. apply Hni. cbn. right. exact Hm.
Qed.

Lemma about_remove_loop names pkg name :
  about (fold_left removeStep names pkg) name =
  if decide (name ∈ names) then keyRemove (about pkg name) else about pkg name.
Proof.
  revert pkg. induction names as [|n names IH]; intros pkg; cbn [fold_left].
  - destruct (decide (name ∈ [])) as [H|]; [|reflexivity]. inversion H.
  - rewrite IH, about_removeStep.
    destruct (decide (n = name)) as [->|Hne].
    + rewrite (decide_True (P := name ∈ name :: names)) by left.
      destruct (decide (name ∈ names)); reflexivity.
    + destruct (decide (name ∈ names)) as [Hin|Hin].
      * rewrite (decide_True (P := name ∈ n :: names)) by (right; exact Hin).
        reflexivity.
      * rewrite (decide_False (P := name ∈ n :: names)); [reflexivity|].
        intros H'. apply elem_of_cons in H' as [->|H']; contradiction.
Qed.

Lemma keyAdd_twice name (v1 v2 : string) s :
  keyAdd name v2 (keyAdd name v1 s) = keyAdd name v2 s.
Proof.
  unfold keyAdd, assignKey.
  destruct s as [[?|] [?|]], (String.eqb name "__proto__"); reflexivity.
Qed.

Lemma about_add_loop entries pkg name :
  about (fold_left addStep entries pkg) name =
  match lastFor name entries with
  | Some v => keyAdd name v (about pkg name)
  | None => about pkg name
  end.
Proof.
  revert pkg. induction entries as [|[n v] entries IH]; intros pkg; [reflexivity|].
  cbn [fold_left lastFor]. rewrite IH, about_addStep.
  destruct (lastFor name entries) as [v'|], (decide (n = name)) as [E|];
    try reflexivity; rewrite ?E, ?keyAdd_twice; reflexivity.
Qed.

Lemma about_mergeDeps (hasDeps hasDev : bool) pkg deps name :
  present (Pkg.devDependencies pkg) = hasDev ->
  (present (Pkg.dependencies pkg) = true /\ hasDeps = true)
  \/ (name ∈ (dep_update deps).*1 -> inherited name = false) ->
  about (mergeDeps pkg deps) name = keyRun hasDeps hasDev deps name (about pkg name).
Proof.
  intros Hdev Hcase. unfold mergeDeps, keyRun.
  rewrite about_add_loop, about_remove_loop,
    (about_update_loop hasDeps hasDev) by assumption.
  reflexivity.
Qed.



(** *** When the [dependencies] member is made *)








(** *** The rest of the descriptor, and the file *)









End DependencyMerge.

(** ** Paths and the file tree *)

Section PathFacts.

Import Path.

Example join_normalizes :
  join (parse "/tmp/fresh") "src//lib/./../styles/" = mk ["tmp"; "fresh"; "src"; "styles"] true.
Proof. reflexivity. Qed.

Example join_skips_empty : join (parse "/tmp/fresh/") "" = mk ["tmp"; "fresh"] true.
Proof. reflexivity. Qed.

Example relative_below :
  relative (parse "/tmp/fresh") (parse "/tmp/fresh/src/lib/a.ts") = "src/lib/a.ts".
Proof. reflexivity. Qed.

Example relative_sideways :
  relative (parse "/work/site") (parse "/work/other/a.ts") = "../other/a.ts".
Proof. reflexivity. Qed.

Example dirname_file :
  dirname (parse "/work/site/src/lib/a.ts") = parse "/work/site/src/lib".
Proof. reflexivity. Qed.

Lemma split_not_nil (s : string) : split s <> [].
Proof.
  destruct s as [|c s]; [discriminate|]. simpl.
  destruct (Ascii.eqb c "/"); [discriminate|]. destruct (split s); discriminate.
Qed.

Lemma split_snoc_slash (s : string) :
  split (s ++ "/")%string = split s ++ [""].
Proof.
  induction s as [|c s IH]; [reflexivity|].
  simpl. rewrite IH.
  destruct (Ascii.eqb c "/"); [reflexivity|].
  pose proof (split_not_nil s). destruct (split s); [contradiction|reflexivity].
Qed.

Lemma endsWithSlash_snoc (s : string) : endsWithSlash (s ++ "/")%string = true.
Proof.
  induction s as [|c s IH]; [reflexivity|].
  simpl. destruct s; [reflexivity|exact IH].
Qed.

Lemma endsWithSlash_nonempty (s : string) :
  endsWithSlash s = true -> String.eqb s "" = false.
Proof. destruct s; [discriminate|reflexivity]. Qed.

Lemma normalize_onto_app kept pieces1 pieces2 :
  normalize_onto kept (pieces1 ++ pieces2) =
  normalize_onto (normalize_onto kept pieces1) pieces2.
Proof. apply fold_left_app. Qed.

Lemma segs_join (dir : t) (s : string) :
  segs (join dir s) = normalize_onto (segs dir) (split s).
Proof.
  unfold join. destruct s; reflexivity.
Qed.

Lemma segs_join_slash (dir : t) (s : string) :
  segs (join dir (s ++ "/")%string) = segs (join dir s).
Proof.
  rewrite !segs_join, split_snoc_slash, normalize_onto_app. reflexivity.
Qed.

Lemma trailing_join_slash (dir : t) (s : string) :
  trailing (join dir (s ++ "/")%string) = true.
Proof.
  unfold join. rewrite endsWithSlash_nonempty by apply endsWithSlash_snoc.
  apply endsWithSlash_snoc.
Qed.

Lemma join_same_segs (dir1 dir2 : t) (s : string) :
  segs dir1 = segs dir2 -> segs (join dir1 s) = segs (join dir2 s).
Proof. intros E. rewrite !segs_join, E. reflexivity. Qed.

Lemma relative_same_segs (base dir1 dir2 : t) :
  segs dir1 = segs dir2 -> relative base dir1 = relative base dir2.
Proof. intros E. unfold relative. rewrite E. reflexivity. Qed.

End PathFacts.

Section TreeFacts.

Import Fs.

(** Induction on a tree, with the property at hand for every child. *)
Lemma node_induction (P : node -> Prop) :
  (forall c, P (File c)) ->
  (forall es, Forall (fun e => P e.2) es -> P (Dir es)) ->
  forall n, P n.
Proof.
  intros Hfile Hdir. fix IH 1. intros [c|es]; [apply Hfile|].
  apply Hdir. induction es as [|[name child] es IHes]; constructor.
  - apply IH.
  - apply IHes.
Qed.

Lemma statSync_dir fs p es :
  statSync fs p = Some (Dir es) <-> lookup fs (Path.segs p) = Some (Dir es).
Proof.
  unfold statSync. destruct (lookup fs (Path.segs p)) as [[c|es']|];
    [destruct (Path.trailing p)|..]; split; congruence.
Qed.

End TreeFacts.

(** ** Path expansion *)

Section Expansion.

Import Fs Diff.

Lemma flat_map_cons {A B} (f : A -> list B) (a : A) (l : list A) :
  flat_map f (a :: l) = f a ++ flat_map f l.
Proof. reflexivity. Qed.

Lemma walkNode_dir es dir base :
  walkNode (Dir es) dir base =
  flat_map (fun e : string * node =>
              let fullPath := Path.join dir e.1 in
              if isDirectory e.2 then walkNode e.2 fullPath base
              else [Path.relative base fullPath]) es.
Proof.
  induction es as [|[name child] es IH]; [reflexivity|].
  change (walkNode (Dir ((name, child) :: es)) dir base)
    with ((if isDirectory child then walkNode child (Path.join dir name) base
           else [Path.relative base (Path.join dir name)])
          ++ walkNode (Dir es) dir base).
  rewrite IH. reflexivity.
Qed.

(** The walk only looks at the segments of the directory it starts from. *)
Lemma walkNode_same_segs n :
  forall dir1 dir2 base,
    Path.segs dir1 = Path.segs dir2 ->
    walkNode n dir1 base = walkNode n dir2 base.
Proof.
  induction n as [c|es IH] using node_induction; intros dir1 dir2 base E;
    [reflexivity|].
  rewrite !walkNode_dir. induction IH as [|[name child] es Hchild _ IHes];
    [reflexivity|].
  rewrite !flat_map_cons, IHes. cbn [fst snd]. f_equal.
  destruct (isDirectory child).
  - apply Hchild. apply join_same_segs. exact E.
  - f_equal. apply relative_same_segs. apply join_same_segs. exact E.
Qed.

Lemma uniq_spec seen files :
  NoDup (uniq seen files)
  /\ forall f, f ∈ uniq seen files <-> f ∈ files /\ f ∉ seen.
Proof.
  revert seen. induction files as [|x files IH]; intros seen; simpl.
  - split; [constructor|]. intros f. split; [inversion 1|intros [H _]; inversion H].
  - destruct (IH seen) as [Hnd Hin]. destruct (IH (x :: seen)) as [Hnd' Hin'].
    case_bool_decide as Hx.
    + split; [exact Hnd|]. intros f. rewrite Hin, elem_of_cons. split.
      * intros [? ?]. auto.
      * intros [[->|?] ?]; [contradiction|auto].
    + split.
      * constructor; [|exact Hnd']. rewrite Hin'. intros [_ H]. apply H. left.
      * intros f. rewrite !elem_of_cons, Hin', elem_of_cons. split.
        -- intros [->|[? ?]]; [auto|]. split; [auto|]. intros ?. tauto.
        -- intros [[->|?] Hs]; [auto|]. destruct (decide (f = x)); [auto|]. right.
           split; [assumption|]. intros [?|?]; contradiction.
Qed.

(** A path written with a trailing separator never resolves to a file, so the
    walk that [expandPaths] starts there cannot hit [readdirSync] on a file. *)
Lemma walkDir_trailing fs dir base :
  Path.trailing dir = true -> is_Some (walkDir fs dir base).
Proof.
  intros Ht. unfold walkDir, existsSync, readdirSync, statSync. rewrite Ht.
  destruct (lookup fs (Path.segs dir)) as [[c|es]|]; simpl; eauto.
Qed.

Lemma trailing_join (dir : Path.t) (p : string) :
  Path.endsWithSlash p = true -> Path.trailing (Path.join dir p) = true.
Proof.
  intros H. unfold Path.join. rewrite (endsWithSlash_nonempty _ H). exact H.
Qed.

Lemma expandEntry_total fs freshDir p : is_Some (expandEntry fs freshDir p).
Proof.
  unfold expandEntry. destruct (Path.endsWithSlash p) eqn:Hs; simpl.
  - apply walkDir_trailing, trailing_join, Hs.
  - unfold existsSync.
    destruct (statSync fs (Path.join freshDir p)) as [[c|es]|] eqn:Hst; simpl; eauto.
    unfold walkDir, existsSync, readdirSync. rewrite Hst. simpl. eauto.
Qed.

Lemma mapM_total {A B} (f : A -> option B) (l : list A) :
  (forall a, is_Some (f a)) -> is_Some (mapM f l).
Proof.
  intros H. induction l as [|a l [k Hk]]; simpl; [eauto|].
  destruct (H a) as [b Hb]. rewrite Hb. simpl. rewrite Hk. simpl. eauto.
Qed.

Lemma expandPaths_total fs paths freshDir :
  exists files, expandPaths fs paths freshDir = Some files /\ NoDup files.
Proof.
  unfold expandPaths.
  destruct (mapM_total (expandEntry fs freshDir) paths) as [k Hk];
    [apply expandEntry_total|].
  rewrite Hk. simpl. eexists. split; [reflexivity|]. apply uniq_spec.
Qed.

(** For an entry that resolves to a directory, the trailing separator makes
    no difference to what it expands to. *)
Lemma expandEntry_slash fs freshDir d es :
  statSync fs (Path.join freshDir d) = Some (Dir es) ->
  expandEntry fs freshDir (d ++ "/")%string = expandEntry fs freshDir d.
Proof.
  intros Hst. unfold expandEntry.
  rewrite endsWithSlash_snoc. cbn [orb].
  unfold existsSync. rewrite Hst. cbn [isDirectory andb]. rewrite orb_true_r.
  assert (Hst' : statSync fs (Path.join freshDir (d ++ "/")%string) = Some (Dir es)).
  { apply statSync_dir. rewrite segs_join_slash. apply statSync_dir. exact Hst. }
  unfold walkDir, existsSync, readdirSync. rewrite Hst, Hst'. simpl. f_equal.
  apply walkNode_same_segs. apply segs_join_slash.
Qed.

Lemma mapM_replace {A B} (f : A -> option B) (l1 l2 : list A) (a b : A) :
  f a = f b -> mapM f (l1 ++ a :: l2) = mapM f (l1 ++ b :: l2).
Proof.
  intros E. induction l1 as [|x l1 IH]; simpl.
  - rewrite E. reflexivity.
  - rewrite IH. reflexivity.
Qed.

End Expansion.

Section ExpansionClaims.

Import Fs Diff.

(** Amended C4: for every entry that resolves to an existing directory under
    the fresh root, [expandPaths] returns the same list of relative paths
    (hence the same set) whether the entry is written with or without a
    trailing separator, whatever entries stand before and after it; and for
    every list of entries [expandPaths] returns a list without duplicates. *)
Theorem expandPaths_trailing_separator :
  (forall fs freshDir d es paths1 paths2,
     statSync fs (Path.join freshDir d) = Some (Dir es) ->
     expandPaths fs (paths1 ++ (d ++ "/")%string :: paths2) freshDir
     = expandPaths fs (paths1 ++ d :: paths2) freshDir)
  /\ (forall fs paths freshDir,
        exists files, expandPaths fs paths freshDir = Some files /\ NoDup files).
Proof.
  split.
  - intros fs freshDir d es paths1 paths2 Hst. unfold expandPaths.
    rewrite (mapM_replace _ paths1 paths2 (d ++ "/")%string d); [reflexivity|].
    eapply expandEntry_slash. exact Hst.
  - intros fs paths freshDir. apply expandPaths_total.
Qed.

Lemma expandPaths_trailing_separator_witness :
  expandPaths Sample.tree ["tsconfig.json"; "src/lib/"; "src/"] Sample.fresh
  = expandPaths Sample.tree ["tsconfig.json"; "src/lib"; "src/"] Sample.fresh.
Proof.
  apply (proj1 expandPaths_trailing_separator Sample.tree Sample.fresh "src/lib"
           [("a.ts", File (Some "export const a = 1"));
            ("b.ts", File (Some "export const b = 2"));
            ("c.ts", File (Some "export const c = 3"))]
           ["tsconfig.json"] ["src/"]).
  reflexivity.
Defined.

Example expandPaths_overlap :
  expandPaths Sample.tree ["src/lib/"; "src/"; "src/lib/a.ts"] Sample.fresh
  = Some ["src/lib/a.ts"; "src/lib/b.ts"; "src/lib/c.ts"].
Proof. vm_compute. reflexivity. Qed.

(** C4 as stated fails for an entry that names a directory the fresh
    template does not have: with the separator it expands to nothing, without
    it to the entry itself. *)
Lemma expandPaths_trailing_separator_missing_dir :
  expandPaths Sample.tree ["src/missing/"] Sample.fresh = Some []
  /\ expandPaths Sample.tree ["src/missing"] Sample.fresh = Some ["src/missing"]
  /\ expandPaths Sample.tree ["src/missing/"] Sample.fresh
     <> expandPaths Sample.tree ["src/missing"] Sample.fresh.
Proof.
  assert (H1 : expandPaths Sample.tree ["src/missing/"] Sample.fresh = Some [])
    by (vm_compute; reflexivity).
  assert (H2 : expandPaths Sample.tree ["src/missing"] Sample.fresh
               = Some ["src/missing"]) by (vm_compute; reflexivity).
  split; [exact H1|]. split; [exact H2|]. rewrite H1, H2. discriminate.
Qed.

End ExpansionClaims.

(** ** Expansion against a root that does not exist *)

Section MissingRoot.

Import Fs Diff DiffSpec.

Lemma lookup_app fs (a b : list string) :
  lookup fs (a ++ b) = lookup fs a ≫= (fun n => lookup n b).
Proof.
  revert fs. induction a as [|s a IH]; intros fs; simpl.
  - destruct b; reflexivity.
  - destruct fs as [c|es]; [reflexivity|].
    destruct (find_entry s es); [apply IH|reflexivity].
Qed.

Lemma notDir_below fs (a b : list string) :
  notDir (lookup fs a) -> notDir (lookup fs (a ++ b)).
Proof.
  rewrite lookup_app. destruct (lookup fs a) as [[c|es]|]; simpl; try tauto.
  intros _. destruct b; simpl; exact I.
Qed.

Lemma normalize_onto_extends kept pieces :
  ".." ∉ pieces -> exists more, Path.normalize_onto kept pieces = kept ++ more.
Proof.
  revert kept. induction pieces as [|piece pieces IH]; intros kept Hno.
  - exists []. simpl. rewrite app_nil_r. reflexivity.
  - assert (Hp : piece <> "..") by (intros ->; apply Hno; left).
    assert (Hno' : ".." ∉ pieces) by (intros ?; apply Hno; right; assumption).
    change (Path.normalize_onto kept (piece :: pieces))
      with (Path.normalize_onto (Path.push kept piece) pieces).
    destruct (IH (Path.push kept piece) Hno') as [more Hmore]. rewrite Hmore.
    unfold Path.push.
    destruct (String.eqb_spec piece ""); [eauto|].
    destruct (String.eqb_spec piece "."); [eauto|].
    destruct (String.eqb_spec piece ".."); [contradiction|].
    exists (piece :: more). rewrite <- app_assoc. reflexivity.
Qed.

Lemma existsSync_false_notDir fs p :
  existsSync fs p = false -> notDir (lookup fs (Path.segs p)).
Proof.
  unfold existsSync, statSync.
  destruct (lookup fs (Path.segs p)) as [[c|es]|]; simpl; try tauto. discriminate.
Qed.

Lemma expandEntry_missing_root fs root p :
  existsSync fs root = false ->
  ".." ∉ Path.split p ->
  expandEntry fs root p = Some (if Path.endsWithSlash p then [] else [p]).
Proof.
  intros Hroot Hno.
  assert (Hnd : notDir (lookup fs (Path.segs (Path.join root p)))).
  { rewrite segs_join.
    destruct (normalize_onto_extends (Path.segs root) _ Hno) as [more ->].
    apply notDir_below, existsSync_false_notDir, Hroot. }
  unfold expandEntry. destruct (Path.endsWithSlash p) eqn:Hs; cbn [orb].
  - unfold walkDir, existsSync, statSync. rewrite (trailing_join _ _ Hs).
    destruct (lookup fs (Path.segs (Path.join root p))) as [[c|es]|];
      simpl in *; [reflexivity|contradiction|reflexivity].
  - unfold existsSync, statSync.
    destruct (lookup fs (Path.segs (Path.join root p))) as [[c|es]|];
      simpl in *; [|contradiction|reflexivity].
    destruct (Path.trailing (Path.join root p)); reflexivity.
Qed.

Lemma mapM_pure {A B} (f : A -> option B) (g : A -> B) (l : list A) :
  (forall a, a ∈ l -> f a = Some (g a)) -> mapM f l = Some (g <$> l).
Proof.
  induction l as [|a l IH]; intros H; simpl; [reflexivity|].
  rewrite (H a) by left. simpl. rewrite IH by (intros; apply H; right; assumption).
  reflexivity.
Qed.

Lemma concat_literals (paths : list string) :
  concat ((fun p => if Path.endsWithSlash p then [] else [p]) <$> paths)
  = filter (fun p => Path.endsWithSlash p = false) paths.
Proof.
  induction paths as [|p paths IH]; [reflexivity|].
  rewrite fmap_cons, filter_cons. simpl. rewrite IH.
  destruct (Path.endsWithSlash p); reflexivity.
Qed.

(** Amended C5: against a root that does not exist, the expansion of
    entries without a [..] piece does not fail; entries written with a
    trailing separator give no path, and every other entry is returned as it
    is written (once), so that the result is empty exactly when every entry
    has a trailing separator. *)
Theorem expandPaths_missing_root :
  forall fs paths root,
    existsSync fs root = false ->
    (forall p, p ∈ paths -> ".." ∉ Path.split p) ->
    expandPaths fs paths root
    = Some (uniq [] (filter (fun p => Path.endsWithSlash p = false) paths))
    /\ (expandPaths fs paths root = Some [] <->
        forall p, p ∈ paths -> Path.endsWithSlash p = true).
Proof.
  intros fs paths root Hroot Hno.
  assert (E : expandPaths fs paths root
    = Some (uniq [] (filter (fun p => Path.endsWithSlash p = false) paths))).
  { unfold expandPaths.
    rewrite (mapM_pure _ (fun p => if Path.endsWithSlash p then [] else [p]))
      by (intros p Hp; apply expandEntry_missing_root; auto).
    simpl. rewrite concat_literals. reflexivity. }
  split; [exact E|]. rewrite E. split.
  - intros Hnil p Hp. destruct (Path.endsWithSlash p) eqn:Hs; [reflexivity|].
    exfalso. injection Hnil as Hnil.
    assert (Hin : p ∈ uniq [] (filter (fun p => Path.endsWithSlash p = false) paths)).
    { apply uniq_spec. split; [|inversion 1]. apply list_elem_of_filter. auto. }
    rewrite Hnil in Hin. inversion Hin.
  - intros Hall. f_equal.
    assert (Hf : filter (fun p => Path.endsWithSlash p = false) paths = []).
    { clear E Hno. induction paths as [|p paths IH]; [reflexivity|].
      rewrite filter_cons. rewrite (Hall p) by left.
      destruct (decide (true = false)); [discriminate|].
      apply IH. intros; apply Hall; right; assumption. }
    rewrite Hf. reflexivity.
Qed.

Lemma expandPaths_missing_root_witness :
  expandPaths Sample.tree ["src/lib/"; "tsconfig.json"; "src/"]
    (Path.parse "/tmp/velocity-upgrade-2")
  = Some ["tsconfig.json"].
Proof.
  refine (proj1 (expandPaths_missing_root Sample.tree
            ["src/lib/"; "tsconfig.json"; "src/"]
            (Path.parse "/tmp/velocity-upgrade-2") _ _)).
  - reflexivity.
  - intros p Hp Hdots. vm_compute in Hp.
    repeat (apply elem_of_cons in Hp as [->|Hp];
            [vm_compute in Hdots;
             repeat (apply elem_of_cons in Hdots as [Hdots|Hdots];
                     [discriminate|]);
             inversion Hdots|]).
    inversion Hp.
Defined.

(** C5 as stated fails: an entry without a trailing separator is returned
    even though the root does not exist. *)
Lemma expandPaths_missing_root_not_empty :
  existsSync Sample.tree (Path.parse "/tmp/velocity-upgrade-2") = false
  /\ expandPaths Sample.tree ["tsconfig.json"] (Path.parse "/tmp/velocity-upgrade-2")
     = Some ["tsconfig.json"]
  /\ expandPaths Sample.tree ["tsconfig.json"] (Path.parse "/tmp/velocity-upgrade-2")
     <> Some [].
Proof.
  assert (H : expandPaths Sample.tree ["tsconfig.json"]
                (Path.parse "/tmp/velocity-upgrade-2") = Some ["tsconfig.json"])
    by (vm_compute; reflexivity).
  split; [vm_compute; reflexivity|]. split; [exact H|]. rewrite H. discriminate.
Qed.

End MissingRoot.

(** ** The diff engine *)

Section Classification.

Import Fs Diff DiffSpec.

Variables (fs : node) (currentDir freshDir : Path.t).

Lemma omap_step {A B} (f : A -> option B) (a : A) (l : list A) :
  omap f (a :: l) = match f a with Some b => b :: omap f l | None => omap f l end.
Proof. reflexivity. Qed.

Lemma diffFile_classify f :
  readableBoth fs currentDir freshDir [f] ->
  diffFile fs currentDir freshDir f = Some (classify fs currentDir freshDir f).
Proof.
  intros Hr. unfold diffFile, classify, statusOf.
  destruct (existsSync fs (Path.join freshDir f)) eqn:Hf; [|reflexivity].
  destruct (existsSync fs (Path.join currentDir f)) eqn:Hc; [|reflexivity].
  destruct (Hr f ltac:(left) Hf Hc) as [[c Ec] [c' Ef]].
  rewrite Ec, Ef. simpl.
  destruct (String.eqb_spec c c') as [->|Hne].
  - rewrite decide_True by reflexivity. reflexivity.
  - rewrite decide_False by congruence. reflexivity.
Qed.

Lemma diffLoop_classify safeFiles :
  readableBoth fs currentDir freshDir safeFiles ->
  diffLoop fs currentDir freshDir safeFiles
  = Some (omap (classify fs currentDir freshDir) safeFiles).
Proof.
  induction safeFiles as [|f safeFiles IH]; intros Hr; [reflexivity|].
  cbn [diffLoop]. rewrite omap_step, diffFile_classify.
  - simpl. rewrite IH.
    + simpl. destruct (classify fs currentDir freshDir f); reflexivity.
    + intros g Hg. apply Hr. right. exact Hg.
  - intros g Hg. apply Hr. apply list_elem_of_singleton in Hg as ->. left.
Qed.

Lemma classify_path f d :
  classify fs currentDir freshDir f = Some d -> path d = f.
Proof.
  unfold classify. destruct (existsSync fs (Path.join freshDir f));
    [|discriminate]. intros [= <-]. reflexivity.
Qed.

Lemma entries_for_absent safeFiles f :
  f ∉ safeFiles ->
  filter (fun d => path d = f) (omap (classify fs currentDir freshDir) safeFiles) = [].
Proof.
  induction safeFiles as [|g safeFiles IH]; intros Hf; [reflexivity|].
  rewrite omap_step. destruct (classify fs currentDir freshDir g) as [d|] eqn:E.
  - rewrite filter_cons, (classify_path _ _ E).
    destruct (decide (g = f)) as [->|?]; [exfalso; apply Hf; left|].
    apply IH. intros ?. apply Hf. right. assumption.
  - apply IH. intros ?. apply Hf. right. assumption.
Qed.

Lemma entries_for safeFiles f :
  NoDup safeFiles -> f ∈ safeFiles ->
  filter (fun d => path d = f) (omap (classify fs currentDir freshDir) safeFiles)
  = match classify fs currentDir freshDir f with Some d => [d] | None => [] end.
Proof.
  induction 1 as [|g safeFiles Hg Hnd IH]; intros Hf; [inversion Hf|].
  rewrite omap_step. destruct (decide (g = f)) as [->|Hne].
  - destruct (classify fs currentDir freshDir f) as [d|] eqn:E.
    + rewrite filter_cons, (classify_path _ _ E), decide_True by reflexivity.
      rewrite entries_for_absent by assumption. reflexivity.
    + apply entries_for_absent. assumption.
  - apply elem_of_cons in Hf as [->|Hf]; [contradiction|].
    destruct (classify fs currentDir freshDir g) as [d|] eqn:E; [|apply IH, Hf].
    rewrite filter_cons, (classify_path _ _ E), decide_False by assumption.
    apply IH, Hf.
Qed.

End Classification.

Section DiffClaims.

Import Fs Diff DiffSpec.

(** Amended C1: let [safeFiles] be the expansion of [manifest.files.safe]
    against the fresh root, and let every path of it that exists under both
    roots be a readable regular file under both.  Then [diffProjects] returns
    a list in which a path of [safeFiles] has no entry when it does not exist
    under the fresh root and exactly one entry otherwise; the status of that
    entry is [added] when the path does not exist under the current root,
    [unchanged] when the two contents are equal, [modified] otherwise; every
    entry is for a path of [safeFiles], has category [safe], and none has
    status [removed]. *)
Theorem diffProjects_classification :
  forall fs currentDir freshDir manifest safeFiles,
    expandPaths fs (files_safe (files manifest)) freshDir = Some safeFiles ->
    (forall f, f ∈ safeFiles ->
       existsSync fs (Path.join freshDir f) = true ->
       existsSync fs (Path.join currentDir f) = true ->
       is_Some (readFileSync fs (Path.join currentDir f))
       /\ is_Some (readFileSync fs (Path.join freshDir f))) ->
    exists diffs,
      diffProjects fs currentDir freshDir manifest = Some diffs
      /\ (forall f, f ∈ safeFiles ->
            filter (fun d => path d = f) diffs
            = if existsSync fs (Path.join freshDir f)
              then [mkFileDiff f (statusOf fs currentDir freshDir f) safe]
              else [])
      /\ (forall d, d ∈ diffs ->
            path d ∈ safeFiles
            /\ existsSync fs (Path.join freshDir (path d)) = true
            /\ status d = statusOf fs currentDir freshDir (path d)
            /\ category d = safe
            /\ status d <> removed
            /\ category d <> protected).
Proof.
  intros fs currentDir freshDir manifest safeFiles Hexp Hread.
  exists (omap (classify fs currentDir freshDir) safeFiles).
  assert (Hnd : NoDup safeFiles).
  { destruct (expandPaths_total fs (files_safe (files manifest)) freshDir)
      as (files' & E & Hnd). congruence. }
  split; [|split].
  - unfold diffProjects. rewrite Hexp. simpl. apply diffLoop_classify. exact Hread.
  - intros f Hf. rewrite (entries_for _ _ _ _ _ Hnd Hf). unfold classify.
    destruct (existsSync fs (Path.join freshDir f)); reflexivity.
  - intros d Hd. apply list_elem_of_omap in Hd as (f & Hf & Hc).
    unfold classify in Hc.
    destruct (existsSync fs (Path.join freshDir f)) eqn:Hex; [|discriminate].
    injection Hc as <-. simpl. rewrite Hex.
    repeat split; try assumption; try discriminate.
    unfold statusOf. repeat case_match; discriminate.
Qed.

Lemma diffProjects_classification_witness :
  exists diffs,
    diffProjects Sample.tree Sample.project Sample.fresh
      (Sample.manifestOf ["src/lib/"; "tsconfig.json"; "README.md"]) = Some diffs
    /\ (forall f, f ∈ ["src/lib/a.ts"; "src/lib/b.ts"; "src/lib/c.ts";
                       "tsconfig.json"; "README.md"] ->
          filter (fun d => path d = f) diffs
          = if existsSync Sample.tree (Path.join Sample.fresh f)
            then [mkFileDiff f (statusOf Sample.tree Sample.project Sample.fresh f) safe]
            else [])
    /\ (forall d, d ∈ diffs ->
          path d ∈ ["src/lib/a.ts"; "src/lib/b.ts"; "src/lib/c.ts";
                    "tsconfig.json"; "README.md"]
          /\ existsSync Sample.tree (Path.join Sample.fresh (path d)) = true
          /\ status d = statusOf Sample.tree Sample.project Sample.fresh (path d)
          /\ category d = safe
          /\ status d <> removed
          /\ category d <> protected).
Proof.
  apply (diffProjects_classification Sample.tree Sample.project Sample.fresh
           (Sample.manifestOf ["src/lib/"; "tsconfig.json"; "README.md"])).
  - vm_compute. reflexivity.
  - intros f Hf Hfresh Hcurrent.
    repeat (apply elem_of_cons in Hf as [->|Hf];
            [vm_compute in Hfresh, Hcurrent |- *;
             first [discriminate | split; eexists; reflexivity]|]).
    inversion Hf.
Defined.

(** The scenario of the specification. *)
Example diffProjects_scenario :
  diffProjects Sample.tree Sample.project Sample.fresh (Sample.manifestOf ["src/lib/"])
  = Some [mkFileDiff "src/lib/a.ts" unchanged safe;
          mkFileDiff "src/lib/b.ts" modified safe;
          mkFileDiff "src/lib/c.ts" added safe]
  /\ summarizeDiffs [mkFileDiff "src/lib/a.ts" unchanged safe;
                     mkFileDiff "src/lib/b.ts" modified safe;
                     mkFileDiff "src/lib/c.ts" added safe]
     = mkSummary 1 1 1.
Proof. split; vm_compute; reflexivity. Qed.

(** C1 as stated fails: [tsconfig.json] is in the expansion and exists
    under both roots, as a file in the template and as a directory in the
    project; [readFileSync] throws on the directory and no entry is emitted
    for any path. *)
Lemma diffProjects_directory_in_place :
  expandPaths Sample.treeDirInPlace ["tsconfig.json"] Sample.fresh
  = Some ["tsconfig.json"]
  /\ existsSync Sample.treeDirInPlace (Path.join Sample.fresh "tsconfig.json") = true
  /\ existsSync Sample.treeDirInPlace (Path.join Sample.project "tsconfig.json") = true
  /\ diffProjects Sample.treeDirInPlace Sample.project Sample.fresh
       (Sample.manifestOf ["tsconfig.json"]) = None
  /\ (forall diffs,
        diffProjects Sample.treeDirInPlace Sample.project Sample.fresh
          (Sample.manifestOf ["tsconfig.json"]) <> Some diffs).
Proof.
  assert (H : diffProjects Sample.treeDirInPlace Sample.project Sample.fresh
                (Sample.manifestOf ["tsconfig.json"]) = None)
    by (vm_compute; reflexivity).
  repeat split; try (vm_compute; reflexivity).
  intros diffs. rewrite H. discriminate.
Qed.

End DiffClaims.
(** ** The migration scanner *)

Section Scanner.

Import Fs Migrations ScanSpec.

Implicit Types (unlistable : Path.t -> bool).

Lemma skipped_false (name : string) :
  skipped name = false <-> name <> "node_modules" /\ name <> ".git".
Proof.
  unfold skipped. rewrite orb_false_iff, !String.eqb_neq. reflexivity.
Qed.

Lemma searchPathsOf_declared (m : MigrationStep) :
  searchPathsOf m = declaredSearchPaths m.
Proof. reflexivity. Qed.

(** The walk of a directory, entry by entry. *)
Lemma walkFilesNode_dir unlistable es dir :
  walkFilesNode unlistable (Dir es) dir =
  if unlistable dir then None
  else (fun parts => concat parts) <$>
         mapM (fun e : string * node =>
                 if isDirectory e.2 then
                   if skipped e.1 then Some []
                   else walkFilesNode unlistable e.2 (Path.join dir e.1)
                 else Some [Path.join dir e.1]) es.
Proof.
  cbn [walkFilesNode]. destruct (unlistable dir); [reflexivity|].
  induction es as [|[name child] es IH]; [reflexivity|].
  rewrite IH. cbn [mapM fst snd].
  destruct (if isDirectory child then
              if skipped name then Some []
              else walkFilesNode unlistable child (Path.join dir name)
            else Some [Path.join dir name]) as [here|]; [|reflexivity].
  cbn. destruct (mapM _ es) as [more|]; reflexivity.
Qed.

Lemma in_concat_mapM {A B} (f : A -> option (list B)) (es : list A)
  (parts : list (list B)) (x : B) :
  mapM f es = Some parts ->
  In x (concat parts) <-> exists e l, e ∈ es /\ f e = Some l /\ In x l.
Proof.
  rewrite mapM_Some. induction 1 as [|e l es parts Hfe _ IH]; cbn [concat].
  - split; [intros []|]. intros (e & l & He & _). inversion He.
  - rewrite in_app_iff, IH. split.
    + intros [Hx|(e' & l' & He' & Hf & Hx)].
      * exists e, l. split; [left|auto].
      * exists e', l'. split; [right; exact He'|auto].
    + intros (e' & l' & He' & Hf & Hx).
      apply elem_of_cons in He' as [->|He'].
      * left. congruence.
      * right. exists e', l'. auto.
Qed.

Lemma mapM_None_elem {A B} (f : A -> option B) (es : list A) (e : A) :
  e ∈ es -> f e = None -> mapM f es = None.
Proof.
  intros He Hf. destruct (mapM f es) as [parts|] eqn:E; [|reflexivity].
  assert (H : is_Some (mapM f es)) by eauto.
  rewrite mapM_is_Some, Forall_forall in H.
  destruct (H e He) as [y Hy]. cbn in Hy. congruence.
Qed.

(** When every directory that the walk lists can be listed, the walk
    returns the files that [visited] tells. *)
Lemma walkFilesNode_visited unlistable n :
  forall dir,
    (forall d, listed n dir d -> unlistable d = false) ->
    exists files,
      walkFilesNode unlistable n dir = Some files
      /\ forall file, In file files <-> visited n dir file.
Proof.
  induction n as [c|es IH] using node_induction; intros dir Hok.
  - exists [dir]. split; [reflexivity|]. intros file. split.
    + intros [<-|[]]. constructor.
    + inversion 1; subst. left. reflexivity.
  - rewrite Forall_forall in IH.
    set (f := fun e : string * node =>
                if isDirectory e.2 then
                  if skipped e.1 then Some []
                  else walkFilesNode unlistable e.2 (Path.join dir e.1)
                else Some [Path.join dir e.1]).
    assert (Hsub : forall name sub,
      (name, Dir sub) ∈ es -> skipped name = false ->
      exists files,
        walkFilesNode unlistable (Dir sub) (Path.join dir name) = Some files
        /\ forall file, In file files
                        <-> visited (Dir sub) (Path.join dir name) file).
    { intros name sub Hin Hskip. apply skipped_false in Hskip as [H1 H2].
      apply (IH (name, Dir sub) Hin). intros d Hd. apply Hok.
      eapply listed_sub; eassumption. }
    assert (Hall : is_Some (mapM f es)).
    { apply mapM_is_Some, Forall_forall. intros [name child] Hin.
      change (is_Some (f (name, child))). unfold f. cbn [fst snd].
      destruct child as [c|sub]; cbn [isDirectory]; [eauto|].
      destruct (skipped name) eqn:Hskip; [eauto|].
      destruct (Hsub name sub Hin Hskip) as (files & -> & _). eauto. }
    destruct Hall as [parts Hparts].
    exists (concat parts). split.
    { rewrite walkFilesNode_dir, (Hok dir (listed_self es dir)).
      fold f. rewrite Hparts. reflexivity. }
    intros file. rewrite (in_concat_mapM f es parts file Hparts). split.
    + intros ([name child] & l & Hin & Hf & Hfile). unfold f in Hf.
      cbn [fst snd] in Hf. destruct child as [c|sub]; cbn [isDirectory] in Hf.
      * injection Hf as <-. destruct Hfile as [<-|[]].
        eapply visited_file. exact Hin.
      * destruct (skipped name) eqn:Hskip;
          [injection Hf as <-; destruct Hfile|].
        destruct (Hsub name sub Hin Hskip) as (files & Hwalk & Hspec).
        rewrite Hwalk in Hf. injection Hf as <-.
        apply skipped_false in Hskip as [H1 H2].
        eapply visited_sub; [exact Hin|exact H1|exact H2|].
        apply Hspec, Hfile.
    + inversion 1 as [|? ? name c Hin|? ? name sub ? Hin H1 H2 Hv]; subst.
      * exists (name, File c), [Path.join dir name].
        split; [exact Hin|]. split; [reflexivity|left; reflexivity].
      * assert (Hskip : skipped name = false) by (apply skipped_false; auto).
        destruct (Hsub name sub Hin Hskip) as (files & Hwalk & Hspec).
        exists (name, Dir sub), files. split; [exact Hin|]. split.
        -- unfold f. cbn [fst snd isDirectory]. rewrite Hskip. exact Hwalk.
        -- apply Hspec, Hv.
Qed.

(** A directory on the way that cannot be listed makes the walk throw. *)
Lemma walkFilesNode_throws unlistable n dir d :
  listed n dir d -> unlistable d = true ->
  walkFilesNode unlistable n dir = None.
Proof.
  intros Hl Hd. induction Hl as [es dir|es dir name sub d Hin H1 H2 Hl IH];
    rewrite walkFilesNode_dir.
  - rewrite Hd. reflexivity.
  - destruct (unlistable dir); [reflexivity|].
    rewrite (mapM_None_elem _ es (name, Dir sub) Hin); [reflexivity|].
    cbn [fst snd isDirectory].
    rewrite (proj2 (skipped_false name) (conj H1 H2)). apply IH, Hd.
Qed.

Lemma scanFile_spec test fs targetDir file q :
  In q (scanFile test fs targetDir file) <->
  exists content, readFileSync fs file = Some content
                  /\ test content = true
                  /\ q = Path.relative targetDir file.
Proof.
  unfold scanFile. destruct (readFileSync fs file) as [content|].
  - destruct (test content) eqn:Ht; simpl.
    + split.
      * intros [<-|[]]. eauto.
      * intros (c & [= <-] & _ & ->). left. reflexivity.
    + split; [intros []|]. intros (c & [= <-] & ? & _). congruence.
  - split; [intros []|]. intros (c & ? & _). discriminate.
Qed.

Lemma scanSearchPath_spec unlistable test fs targetDir searchPath :
  (forall n d,
     statSync fs (Path.join targetDir searchPath) = Some n ->
     listed n (Path.join targetDir searchPath) d -> unlistable d = false) ->
  exists matches,
    scanSearchPath unlistable test fs targetDir searchPath = Some matches
    /\ forall q,
         In q matches <->
         exists file n content,
           statSync fs (Path.join targetDir searchPath) = Some n
           /\ visited n (Path.join targetDir searchPath) file
           /\ readFileSync fs file = Some content
           /\ test content = true
           /\ q = Path.relative targetDir file.
Proof.
  intros Hok. unfold scanSearchPath, existsSync, walkFiles.
  destruct (statSync fs (Path.join targetDir searchPath)) as [n|] eqn:Hst; cbn.
  - destruct (walkFilesNode_visited unlistable n _
                (fun d => Hok n d eq_refl)) as (files & -> & Hfiles).
    cbn. eexists. split; [reflexivity|]. intros q. rewrite in_flat_map. split.
    + intros (file & Hin & Hq). apply Hfiles in Hin.
      apply scanFile_spec in Hq as (content & ? & ? & ?).
      exists file, n, content. auto.
    + intros (file & n' & content & [= <-] & Hv & Hr & Ht & ->).
      exists file. split; [apply Hfiles, Hv|]. apply scanFile_spec. eauto.
  - exists []. split; [reflexivity|]. intros q. split; [intros []|].
    intros (? & ? & ? & ? & _). discriminate.
Qed.

Lemma scanSearchPath_throws unlistable test fs targetDir searchPath n d :
  statSync fs (Path.join targetDir searchPath) = Some n ->
  listed n (Path.join targetDir searchPath) d -> unlistable d = true ->
  scanSearchPath unlistable test fs targetDir searchPath = None.
Proof.
  intros Hst Hl Hd. unfold scanSearchPath, existsSync, walkFiles.
  rewrite Hst. cbn. rewrite (walkFilesNode_throws _ _ _ _ Hl Hd). reflexivity.
Qed.

(** A scan of a search path that returns has listed every directory on
    its way. *)
Lemma scanSearchPath_sound unlistable test fs targetDir searchPath matches q :
  scanSearchPath unlistable test fs targetDir searchPath = Some matches ->
  In q matches ->
  exists file n content,
    statSync fs (Path.join targetDir searchPath) = Some n
    /\ visited n (Path.join targetDir searchPath) file
    /\ readFileSync fs file = Some content
    /\ test content = true
    /\ q = Path.relative targetDir file.
Proof.
  intros Hscan Hq.
  destruct (scanSearchPath_spec unlistable test fs targetDir searchPath)
    as (ms & Hms & Hspec).
  - intros n d Hst Hl. destruct (unlistable d) eqn:Hd; [|reflexivity].
    rewrite (scanSearchPath_throws _ _ _ _ _ n d Hst Hl Hd) in Hscan.
    discriminate.
  - rewrite Hms in Hscan. injection Hscan as <-. apply Hspec, Hq.
Qed.

Lemma scanStep_no_pattern h unlistable fs targetDir m :
  pattern m = None \/ pattern m = Some "" ->
  scanStep h unlistable fs targetDir m = Some [].
Proof. unfold scanStep. intros [->| ->]; reflexivity. Qed.

Lemma scanStep_pattern h unlistable fs targetDir m src test :
  pattern m = Some src -> src <> "" -> RegExp h src = Some test ->
  scanStep h unlistable fs targetDir m
  = (fun found => concat found)
      <$> mapM (scanSearchPath unlistable test fs targetDir)
               (declaredSearchPaths m).
Proof.
  intros Hp Hne Hre. unfold scanStep. rewrite Hp.
  destruct (String.eqb_spec src ""); [contradiction|]. rewrite Hre. cbn.
  rewrite searchPathsOf_declared.
  destruct (mapM _ (declaredSearchPaths m)); reflexivity.
Qed.

Lemma scanLoop_fold h unlistable fs targetDir migrations :
  forall results,
    (forall m, m ∈ migrations ->
               is_Some (scanStep h unlistable fs targetDir m)) ->
    scanLoop h unlistable fs targetDir results migrations
    = Some (fold_left
              (fun acc m =>
                 <[title m := default [] (scanStep h unlistable fs targetDir m)]> acc)
              migrations results).
Proof.
  induction migrations as [|m migrations IH]; intros results Hok; [reflexivity|].
  cbn [scanLoop fold_left].
  destruct (Hok m ltac:(left)) as [ms Hms]. rewrite Hms. cbn.
  apply IH. intros m' Hm'. apply Hok. right. exact Hm'.
Qed.

Lemma scanLoop_throws h unlistable fs targetDir migrations m :
  m ∈ migrations -> scanStep h unlistable fs targetDir m = None ->
  forall results, scanLoop h unlistable fs targetDir results migrations = None.
Proof.
  intros Hm Hnone. induction migrations as [|m0 migrations IH]; intros results;
    [inversion Hm|].
  cbn [scanLoop]. apply elem_of_cons in Hm as [<-|Hm].
  - rewrite Hnone. reflexivity.
  - destruct (scanStep h unlistable fs targetDir m0); [|reflexivity].
    cbn. apply IH, Hm.
Qed.

Lemma fold_insert_other (f : MigrationStep -> list string) migrations :
  forall (results : gmap string (list string)) t,
    t ∉ title <$> migrations ->
    fold_left (fun acc m => <[title m := f m]> acc) migrations results !! t
    = results !! t.
Proof.
  induction migrations as [|m migrations IH]; intros results t Ht; [reflexivity|].
  cbn [fold_left]. rewrite fmap_cons in Ht. rewrite IH.
  - apply lookup_insert_ne. intros E. apply Ht. rewrite E. left.
  - intros H. apply Ht. right. exact H.
Qed.

Lemma fold_insert_unique (f : MigrationStep -> list string) migrations :
  forall (results : gmap string (list string)) m,
    m ∈ migrations ->
    (forall m', m' ∈ migrations -> title m' = title m -> m' = m) ->
    fold_left (fun acc m => <[title m := f m]> acc) migrations results !! title m
    = Some (f m).
Proof.
  induction migrations as [|x migrations IH]; intros results m Hm Huniq;
    [inversion Hm|].
  cbn [fold_left].
  destruct (decide (title m ∈ title <$> migrations)) as [Hin|Hnot].
  - apply list_elem_of_fmap in Hin as (m' & Et & Hm').
    assert (m' = m) as -> by (apply Huniq; [right; exact Hm'|congruence]).
    apply IH; [exact Hm'|]. intros m'' H'' E. apply Huniq; [right; exact H''|exact E].
  - rewrite fold_insert_other by exact Hnot.
    apply elem_of_cons in Hm as [->|Hm].
    + apply lookup_insert_eq.
    + exfalso. apply Hnot. apply list_elem_of_fmap. eauto.
Qed.

Lemma fold_insert_dom (f : MigrationStep -> list string) migrations :
  forall (results : gmap string (list string)) t,
    is_Some (fold_left (fun acc m => <[title m := f m]> acc) migrations results !! t)
    <-> is_Some (results !! t) \/ t ∈ title <$> migrations.
Proof.
  induction migrations as [|m migrations IH]; intros results t.
  - simpl. split; [auto|]. intros [H|H]; [exact H|inversion H].
  - cbn [fold_left]. rewrite IH, fmap_cons, elem_of_cons, lookup_insert_is_Some.
    destruct (decide (title m = t)); intuition congruence.
Qed.

(** What a step with a compiled pattern records, when the directories on
    the way can be listed. *)
Lemma scanStep_spec h unlistable fs targetDir m src test :
  pattern m = Some src -> src <> "" -> RegExp h src = Some test ->
  (forall sp n d,
     sp ∈ declaredSearchPaths m ->
     statSync fs (Path.join targetDir sp) = Some n ->
     listed n (Path.join targetDir sp) d -> unlistable d = false) ->
  exists matches,
    scanStep h unlistable fs targetDir m = Some matches
    /\ forall q,
         q ∈ matches <->
         exists searchPath file n content,
           searchPath ∈ declaredSearchPaths m
           /\ statSync fs (Path.join targetDir searchPath) = Some n
           /\ visited n (Path.join targetDir searchPath) file
           /\ readFileSync fs file = Some content
           /\ test content = true
           /\ q = Path.relative targetDir file.
Proof.
  intros Hp Hne Hre Hok. rewrite (scanStep_pattern _ _ _ _ _ _ _ Hp Hne Hre).
  assert (Hall : is_Some (mapM (scanSearchPath unlistable test fs targetDir)
                               (declaredSearchPaths m))).
  { apply mapM_is_Some, Forall_forall. intros sp Hsp. cbn.
    destruct (scanSearchPath_spec unlistable test fs targetDir sp) as (ms & -> & _);
      [|eauto].
    intros n d. apply Hok, Hsp. }
  destruct Hall as [found Hfound]. rewrite Hfound. cbn.
  eexists. split; [reflexivity|]. intros q.
  rewrite list_elem_of_In, (in_concat_mapM _ _ _ q Hfound). split.
  - intros (sp & l & Hsp & Hl & Hq).
    destruct (scanSearchPath_spec unlistable test fs targetDir sp)
      as (ms & Hms & Hspec); [intros n d; apply Hok, Hsp|].
    rewrite Hms in Hl. injection Hl as <-.
    apply Hspec in Hq as (file & n & content & ? & ? & ? & ? & ?).
    exists sp, file, n, content. repeat split; assumption.
  - intros (sp & file & n & content & Hsp & ? & ? & ? & ? & ?).
    destruct (scanSearchPath_spec unlistable test fs targetDir sp)
      as (ms & Hms & Hspec); [intros n' d; apply Hok, Hsp|].
    exists sp, ms. split; [exact Hsp|]. split; [exact Hms|].
    apply Hspec. exists file, n, content. repeat split; assumption.
Qed.

(** C8 (amended): when every non-empty pattern compiles and every
    directory that the walk of a search path lists can be listed, the scan
    returns a map whose keys are exactly the titles of the migration steps.
    A step (whose title no other step has) without a pattern, or with the
    empty string as pattern, is recorded with the empty list.  A step with
    a non-empty pattern is recorded with exactly the paths, relative to the
    project, of the files that the walk of one of its search paths ([src/]
    when it declares none) visits, without entering sub-directories named
    [node_modules] or [.git], that can be read and whose content the
    compiled expression matches; a file that cannot be read is left out and
    does not stop the scan.  A directory on the way that cannot be listed
    does stop it: the scan throws. *)
Theorem scanForMigrationPatterns_records :
  forall (h : Host) (unlistable : Path.t -> bool) (fs : node) (targetDir : Path.t)
         (migrations : list MigrationStep),
    ((forall m src, m ∈ migrations -> pattern m = Some src -> src <> "" ->
                    is_Some (RegExp h src)) ->
     (forall m src searchPath n d,
        m ∈ migrations -> pattern m = Some src -> src <> "" ->
        searchPath ∈ declaredSearchPaths m ->
        statSync fs (Path.join targetDir searchPath) = Some n ->
        listed n (Path.join targetDir searchPath) d ->
        unlistable d = false) ->
     exists results,
       scanForMigrationPatterns h unlistable fs targetDir migrations = Some results
       /\ (forall t, is_Some (results !! t) <-> t ∈ title <$> migrations)
       /\ (forall m,
             m ∈ migrations ->
             (forall m', m' ∈ migrations -> title m' = title m -> m' = m) ->
             (pattern m = None \/ pattern m = Some "" ->
              results !! title m = Some [])
             /\ (forall src test,
                   pattern m = Some src -> src <> "" -> RegExp h src = Some test ->
                   exists matches,
                     results !! title m = Some matches
                     /\ forall q,
                          q ∈ matches <->
                          exists searchPath file n content,
                            searchPath ∈ declaredSearchPaths m
                            /\ statSync fs (Path.join targetDir searchPath) = Some n
                            /\ visited n (Path.join targetDir searchPath) file
                            /\ readFileSync fs file = Some content
                            /\ test content = true
                            /\ q = Path.relative targetDir file)))
    /\ (forall m src searchPath n d,
          m ∈ migrations -> pattern m = Some src -> src <> "" ->
          searchPath ∈ declaredSearchPaths m ->
          statSync fs (Path.join targetDir searchPath) = Some n ->
          listed n (Path.join targetDir searchPath) d ->
          unlistable d = true ->
          scanForMigrationPatterns h unlistable fs targetDir migrations = None).
Proof.
  intros h unlistable fs targetDir migrations. split.
  - intros Hcompile Hlist.
    assert (Hok : forall m, m ∈ migrations ->
                    is_Some (scanStep h unlistable fs targetDir m)).
    { intros m Hm. destruct (pattern m) as [src|] eqn:Hp;
        [|rewrite scanStep_no_pattern by auto; eauto].
      destruct (decide (src = "")) as [->|Hne];
        [rewrite scanStep_no_pattern by auto; eauto|].
      destruct (Hcompile m src Hm Hp Hne) as [test Hre].
      destruct (scanStep_spec h unlistable fs targetDir m src test Hp Hne Hre)
        as (ms & -> & _); [|eauto].
      intros sp n d. apply (Hlist m src sp n d Hm Hp Hne). }
    eexists. split; [apply scanLoop_fold, Hok|]. split.
    + intros t. rewrite fold_insert_dom, lookup_empty. split.
      * intros [[? ?]|H]; [discriminate|exact H].
      * auto.
    + intros m Hm Huniq.
      rewrite (fold_insert_unique
                 (fun m => default [] (scanStep h unlistable fs targetDir m))
                 _ _ _ Hm Huniq).
      split.
      * intros Hnone. rewrite (scanStep_no_pattern _ _ _ _ _ Hnone). reflexivity.
      * intros src test Hp Hne Hre.
        destruct (scanStep_spec h unlistable fs targetDir m src test Hp Hne Hre)
          as (ms & -> & Hspec).
        { intros sp n d. apply (Hlist m src sp n d Hm Hp Hne). }
        exists ms. split; [reflexivity|exact Hspec].
  - intros m src sp n d Hm Hp Hne Hsp Hst Hl Hd.
    apply (scanLoop_throws _ _ _ _ _ m Hm). unfold scanStep. rewrite Hp.
    destruct (String.eqb_spec src ""); [contradiction|].
    destruct (RegExp h src) as [test|]; [|reflexivity]. cbn.
    rewrite searchPathsOf_declared.
    rewrite (mapM_None_elem _ _ sp Hsp); [reflexivity|].
    apply (scanSearchPath_throws _ _ _ _ _ n d Hst Hl Hd).
Qed.

Lemma scanForMigrationPatterns_records_witness :
  (exists results,
     scanForMigrationPatterns Sample.host allListable Sample.tree Sample.project
       [oldApiStep; noteStep] = Some results
     /\ (forall t, is_Some (results !! t) <-> t ∈ title <$> [oldApiStep; noteStep]))
  /\ scanForMigrationPatterns Sample.host libUnlistable Sample.tree Sample.project
       [oldApiStep; noteStep] = None.
Proof.
  split.
  - destruct (proj1 (scanForMigrationPatterns_records Sample.host allListable
                       Sample.tree Sample.project [oldApiStep; noteStep]))
      as (results & Hscan & Hdom & _).
    + intros m src Hm Hp Hne.
      repeat (apply elem_of_cons in Hm as [->|Hm];
              [vm_compute in Hp; try discriminate; injection Hp as <-;
               vm_compute; eexists; reflexivity|]).
      inversion Hm.
    + reflexivity.
    + exists results. split; assumption.
  - apply (proj2 (scanForMigrationPatterns_records Sample.host libUnlistable
                    Sample.tree Sample.project [oldApiStep; noteStep])
             oldApiStep "const b" "src/"
             (Dir [("lib", Dir [("a.ts", File (Some "export const a = 1"));
                                ("b.ts", File (Some "export const b = 0"))])])
             (Path.join (Path.join Sample.project "src/") "lib")).
    + left.
    + reflexivity.
    + discriminate.
    + left.
    + vm_compute. reflexivity.
    + eapply listed_sub; [left|discriminate|discriminate|apply listed_self].
    + vm_compute. reflexivity.
Defined.

(** The scenario of the specification: one file under [src/] matches. *)
Example scan_scenario :
  scanForMigrationPatterns Sample.host allListable Sample.tree Sample.project
    [oldApiStep; noteStep]
  = Some {[ "Rename the old API" := ["src/lib/b.ts"];
            "Read the changelog" := [] ]}.
Proof. vm_compute. reflexivity. Qed.

(** A file that cannot be read and a [node_modules] directory are passed
    over. *)
Example scan_unreadable :
  readFileSync Sample.treeUnreadable (Path.parse "/work/site/src/secret.ts") = None
  /\ scanForMigrationPatterns Sample.host allListable Sample.treeUnreadable
       Sample.project [oldApiStep]
     = Some {[ "Rename the old API" := ["src/b.ts"] ]}.
Proof. split; vm_compute; reflexivity. Qed.

(** A directory that cannot be listed stops the scan, also for the steps
    that have no pattern. *)
Example scan_unlistable :
  scanForMigrationPatterns Sample.host libUnlistable Sample.tree Sample.project
    [noteStep; oldApiStep]
  = None.
Proof. vm_compute. reflexivity. Qed.

(** C8 as stated fails for a step that declares the empty pattern: the
    compiled expression matches the content of [src/lib/a.ts], which is under
    the search path and can be read, and yet the step is recorded with the
    empty list. *)
Lemma scan_empty_pattern :
  pattern emptyPatternStep = Some ""
  /\ (exists test,
        RegExp Sample.host "" = Some test
        /\ walkFiles allListable Sample.tree (Path.join Sample.project "src/")
           = Some [Path.parse "/work/site/src/lib/a.ts";
                   Path.parse "/work/site/src/lib/b.ts"]
        /\ readFileSync Sample.tree (Path.parse "/work/site/src/lib/a.ts")
           = Some "export const a = 1"
        /\ test "export const a = 1" = true)
  /\ (exists results,
        scanForMigrationPatterns Sample.host allListable Sample.tree Sample.project
          [emptyPatternStep] = Some results
        /\ results !! title emptyPatternStep = Some []).
Proof.
  split; [reflexivity|]. split.
  - eexists. split; [vm_compute; reflexivity|]. split; [|split].
    + vm_compute. reflexivity.
    + vm_compute. reflexivity.
    + vm_compute. reflexivity.
  - eexists. split; vm_compute; reflexivity.
Qed.

End Scanner.

(** ** Changes of the file tree *)

Section TreeChanges.

Import Fs.

Lemma find_entry_set name new es other :
  find_entry other (set_entry name new es)
  = if String.eqb name other then Some new else find_entry other es.
Proof.
  induction es as [|[n c] es IH]; simpl.
  - rewrite String.eqb_sym. destruct (String.eqb_spec other name); subst;
      rewrite ?String.eqb_refl; [reflexivity|].
    destruct (String.eqb_spec name other); congruence.
  - destruct (String.eqb_spec n name) as [->|Hn]; simpl.
    + destruct (String.eqb_spec name other); reflexivity.
    + rewrite IH. destruct (String.eqb_spec n other) as [->|Ho]; [|reflexivity].
      destruct (String.eqb_spec name other); congruence.
Qed.

Lemma find_entry_del name es other :
  find_entry other (del_entry name es)
  = if String.eqb name other then None else find_entry other es.
Proof.
  induction es as [|[n c] es IH]; simpl.
  - destruct (String.eqb name other); reflexivity.
  - destruct (String.eqb_spec n name) as [->|Hn]; simpl.
    + rewrite IH. destruct (String.eqb_spec name other); reflexivity.
    + rewrite IH. destruct (String.eqb_spec n other) as [->|Ho]; [|reflexivity].
      destruct (String.eqb_spec name other); congruence.
Qed.

(** After the removal nothing is found at the removed path. *)
Lemma lookup_remove_at p :
  p <> [] -> forall fs, lookup (remove_at fs p) p = None.
Proof.
  induction p as [|s p IH]; intros Hne fs; [contradiction|].
  destruct fs as [c|es]; [destruct p; reflexivity|].
  destruct p as [|s' p].
  - simpl. rewrite find_entry_del, String.eqb_refl. reflexivity.
  - change (remove_at (Dir es) (s :: s' :: p))
      with (match find_entry s es with
            | Some c => Dir (set_entry s (remove_at c (s' :: p)) es)
            | None => Dir es
            end).
    destruct (find_entry s es) as [c|] eqn:E.
    + cbn [lookup]. rewrite find_entry_set, String.eqb_refl.
      apply IH. discriminate.
    + cbn [lookup]. rewrite E. reflexivity.
Qed.

(** A regular file outside the removed subtree stays where it is. *)
Lemma lookup_file_remove_at p :
  forall fs q c,
    ~ p `prefix_of` q ->
    lookup fs q = Some (File c) ->
    lookup (remove_at fs p) q = Some (File c).
Proof.
  induction p as [|s p IH]; intros fs q c Hpre Hq.
  - exfalso. apply Hpre. apply prefix_nil.
  - destruct fs as [c'|es]; [destruct p; exact Hq|].
    destruct q as [|t q]; [discriminate|].
    cbn [lookup] in Hq.
    destruct p as [|s' p].
    + cbn [remove_at lookup]. rewrite find_entry_del.
      destruct (String.eqb_spec s t) as [->|Hst]; [|exact Hq].
      exfalso. apply Hpre. exists q. reflexivity.
    + change (remove_at (Dir es) (s :: s' :: p))
        with (match find_entry s es with
              | Some c => Dir (set_entry s (remove_at c (s' :: p)) es)
              | None => Dir es
              end).
      destruct (find_entry s es) as [c0|] eqn:E; [|exact Hq].
      cbn [lookup]. rewrite find_entry_set.
      destruct (String.eqb_spec s t) as [->|Hst]; [|exact Hq].
      rewrite E in Hq. apply IH; [|exact Hq].
      intros Hp. apply Hpre. apply prefix_cons. exact Hp.
Qed.

Lemma lookup_file_mkdirp p :
  forall fs fs' q c,
    mkdirp fs p = Some fs' ->
    lookup fs q = Some (File c) ->
    lookup fs' q = Some (File c).
Proof.
  induction p as [|s p IH]; intros fs fs' q c Hmk Hq.
  - destruct fs; simpl in Hmk; congruence.
  - destruct fs as [c'|es]; [discriminate|]. cbn [mkdirp] in Hmk.
    destruct (mkdirp (default (Dir []) (find_entry s es)) p) as [c1|] eqn:E;
      [|discriminate].
    injection Hmk as <-.
    destruct q as [|t q]; [discriminate|].
    cbn [lookup] in Hq |- *. rewrite find_entry_set.
    destruct (String.eqb_spec s t) as [->|Hst]; [|exact Hq].
    destruct (find_entry t es) as [c0|]; [|discriminate].
    simpl in E. eapply IH; eassumption.
Qed.

Lemma lookup_file_write_at p :
  forall fs fs' new q c,
    write_at fs p new = Some fs' ->
    ~ p `prefix_of` q ->
    lookup fs q = Some (File c) ->
    lookup fs' q = Some (File c).
Proof.
  induction p as [|s p IH]; intros fs fs' new q c Hw Hpre Hq.
  - exfalso. apply Hpre. apply prefix_nil.
  - destruct fs as [c'|es]; [discriminate|].
    destruct q as [|t q]; [discriminate|].
    cbn [lookup] in Hq.
    destruct p as [|s' p].
    + simpl in Hw. injection Hw as <-. cbn [lookup]. rewrite find_entry_set.
      destruct (String.eqb_spec s t) as [->|Hst]; [|exact Hq].
      exfalso. apply Hpre. exists q. reflexivity.
    + change (write_at (Dir es) (s :: s' :: p) new)
        with (match find_entry s es with
              | Some c =>
                  match write_at c (s' :: p) new with
                  | Some c' => Some (Dir (set_entry s c' es))
                  | None => None
                  end
              | None => None
              end) in Hw.
      destruct (find_entry s es) as [c0|] eqn:E; [|discriminate].
      destruct (write_at c0 (s' :: p) new) as [c1|] eqn:E1; [|discriminate].
      injection Hw as <-. cbn [lookup]. rewrite find_entry_set.
      destruct (String.eqb_spec s t) as [->|Hst]; [|exact Hq].
      rewrite E in Hq. eapply IH; [exact E1| |exact Hq].
      intros Hp. apply Hpre. apply prefix_cons. exact Hp.
Qed.

Lemma readFileSync_lookup fs p text :
  readFileSync fs p = Some text ->
  lookup fs (Path.segs p) = Some (File (Some text)) /\ Path.trailing p = false.
Proof.
  unfold readFileSync, statSync.
  destruct (lookup fs (Path.segs p)) as [[[c|]|es]|]; try discriminate;
    destruct (Path.trailing p); try discriminate.
  intros [= ->]. auto.
Qed.

Lemma lookup_readFileSync fs p text :
  lookup fs (Path.segs p) = Some (File (Some text)) -> Path.trailing p = false ->
  readFileSync fs p = Some text.
Proof.
  intros Hl Ht. unfold readFileSync, statSync. rewrite Hl, Ht. reflexivity.
Qed.

End TreeChanges.

(** ** The orchestrator *)

Section TempDir.

Import Upgrade PathSpec.

Lemma split_no_slash (s : string) : hasSlash s = false -> Path.split s = [s].
Proof.
  induction s as [|c s IH]; [reflexivity|]. simpl.
  destruct (Ascii.eqb c "/"); [discriminate|]. simpl. intros H.
  rewrite (IH H). reflexivity.
Qed.

Lemma hasSlash_app (s1 s2 : string) :
  hasSlash (s1 ++ s2)%string = (hasSlash s1 || hasSlash s2)%bool.
Proof.
  induction s1 as [|c s1 IH]; [reflexivity|]. simpl. rewrite IH.
  apply orb_assoc.
Qed.

Lemma hasSlash_decimal (n : N) :
  hasSlash (NilZero.string_of_uint (N.to_uint n)) = false.
Proof.
  assert (H : forall u, hasSlash (NilEmpty.string_of_uint u) = false)
    by (induction u; simpl; auto).
  unfold NilZero.string_of_uint. destruct (N.to_uint n); try apply H. reflexivity.
Qed.

(** The temporary directory is a new name in the directory of temporary
    files, never the root. *)
Lemma segs_tempDir env :
  Path.segs (tempDir env)
  = Path.segs (osTmpdir env)
    ++ [("velocity-upgrade-"
         ++ NilZero.string_of_uint (N.to_uint (now env)))%string].
Proof.
  unfold tempDir. rewrite segs_join, split_no_slash.
  - reflexivity.
  - rewrite hasSlash_app, hasSlash_decimal. reflexivity.
Qed.

Lemma tempDir_not_root env : Path.segs (tempDir env) <> [].
Proof. rewrite segs_tempDir. destruct (Path.segs (osTmpdir env)); discriminate. Qed.

Lemma endsWithSlash_no_slash (s : string) :
  hasSlash s = false -> Path.endsWithSlash s = false.
Proof.
  induction s as [|c s IH]; [reflexivity|]. simpl.
  destruct (Ascii.eqb c "/"); [discriminate|]. simpl. intros H.
  destruct s; [reflexivity|]. apply IH, H.
Qed.

Lemma trailing_tempDir env : Path.trailing (tempDir env) = false.
Proof.
  unfold tempDir, Path.join.
  set (name := ("velocity-upgrade-"
                ++ NilZero.string_of_uint (N.to_uint (now env)))%string).
  assert (Hne : String.eqb name "" = false) by reflexivity.
  rewrite Hne. cbn [Path.trailing]. apply endsWithSlash_no_slash.
  unfold name. rewrite hasSlash_app, hasSlash_decimal. reflexivity.
Qed.

(** What exists below a temporary directory that does not exist yet?
    Nothing: a file that is there is not inside it. *)
Lemma new_tempDir_outside env fs q c :
  Fs.existsSync fs (tempDir env) = false ->
  Fs.lookup fs q = Some (Fs.File c) ->
  ~ Path.segs (tempDir env) `prefix_of` q.
Proof.
  intros Hnew Hq [k ->]. rewrite lookup_app in Hq.
  unfold Fs.existsSync, Fs.statSync in Hnew. rewrite trailing_tempDir in Hnew.
  destruct (Fs.lookup fs (Path.segs (tempDir env))) as [[?|?]|]; discriminate.
Qed.

End TempDir.

Section Orchestrator.

Import Fs Upgrade RunSpec.

Lemma existsSync_after_removal fs dir :
  Path.segs dir <> [] ->
  existsSync (if existsSync fs dir then remove_at fs (Path.segs dir) else fs) dir
  = false.
Proof.
  intros Hne. destruct (existsSync fs dir) eqn:E; [|exact E].
  unfold existsSync, statSync. rewrite lookup_remove_at by exact Hne. reflexivity.
Qed.

Lemma readVelocityConfig_read h dir w config :
  readVelocityConfig h dir w = (inr (Some config), w) ->
  exists text, readFileSync (fs w) (Path.join dir CONFIG_FILENAME) = Some text.
Proof.
  unfold readVelocityConfig, bind, ask, readJson, try, ret.
  destruct (existsSync (fs w) (Path.join dir CONFIG_FILENAME)); simpl;
    [|discriminate].
  destruct (readFileSync (fs w) (Path.join dir CONFIG_FILENAME)) as [text|];
    simpl; [eauto|discriminate].
Qed.

Lemma install_keeps_file tree dir fs fs' q c :
  install tree dir fs = Some fs' ->
  ~ Path.segs dir `prefix_of` q ->
  lookup fs q = Some (File c) ->
  lookup fs' q = Some (File c).
Proof.
  unfold install. intros Hi Hpre Hq.
  destruct (mkdirp fs (removelast (Path.segs dir))) as [fs1|] eqn:E;
    [|discriminate].
  simpl in Hi. eapply lookup_file_write_at; [exact Hi|exact Hpre|].
  eapply lookup_file_mkdirp; eassumption.
Qed.

(** With [rmSync] throwing, the run that the version gate stops exits
    with code 1 and leaves the downloaded template on the disk. *)
Lemma upgrade_version_gate_keeps_directory :
  Version.isVersionLessThan CLI_VERSION "9.0.0" = true
  /\ existsSync (Sample.diskBefore "site") Sample.fresh = false
  /\ (run (upgrade Sample.host (Sample.envWith Sample.manifestTooNew true)
             Sample.options) (mkWorld (Sample.diskBefore "site") [])).1
     = Exited 1
  /\ log (run (upgrade Sample.host (Sample.envWith Sample.manifestTooNew true)
                 Sample.options) (mkWorld (Sample.diskBefore "site") [])).2
     = [EvDownload Sample.fresh; EvCleanup Sample.fresh]
  /\ existsSync
       (fs (run (upgrade Sample.host (Sample.envWith Sample.manifestTooNew true)
                   Sample.options) (mkWorld (Sample.diskBefore "site") [])).2)
       Sample.fresh
     = true.
Proof. repeat split; vm_compute; reflexivity. Qed.

(** A project that lies where the template is downloaded loses its
    metadata file on the way to the same exit. *)
Example upgrade_version_gate_project_inside :
  readFileSync
    (Dir [("tmp", Dir [("velocity-upgrade-1",
                        Dir [(".velocity.json", File (Some "1.0.0"))])])])
    (Path.join Sample.fresh CONFIG_FILENAME)
  = Some "1.0.0"
  /\ (run (upgrade Sample.host (Sample.envWith Sample.manifestTooNew false)
              (mkUpgradeOptions Sample.fresh false true))
         (mkWorld
            (Dir [("tmp", Dir [("velocity-upgrade-1",
                                Dir [(".velocity.json", File (Some "1.0.0"))])])])
            [])).1
     = Exited 1
  /\ readFileSync
       (fs (run (upgrade Sample.host (Sample.envWith Sample.manifestTooNew false)
                   (mkUpgradeOptions Sample.fresh false true))
              (mkWorld
                 (Dir [("tmp", Dir [("velocity-upgrade-1",
                                     Dir [(".velocity.json",
                                           File (Some "1.0.0"))])])])
                 [])).2)
       (Path.join Sample.fresh CONFIG_FILENAME)
     = None.
Proof. repeat split; vm_compute; reflexivity. Qed.

(** C7 (amended): when the run has read the project metadata, was not
    declined at the git check, has downloaded the template into the
    temporary directory and loaded its manifest, and the version of the
    engine is less than the [minCliVersion] of the manifest, the run ends
    with [process.exit(1)]; between the download and the exit it does nothing
    but clean up (no diff, no copy, no dependency merge, no metadata write).
    The temporary directory is gone afterwards when [rmSync] does not throw;
    when it throws, which [cleanup] swallows, the tree stays as the download
    left it.  The project metadata file reads as before, provided that it
    does not lie inside the temporary directory. *)
Theorem upgrade_version_gate :
  forall (h : Host) (env : Env) (options : UpgradeOptions) (w0 : world)
         (config : VelocityConfig) (manifest : UpgradeManifest) (fs1 : node),
    let tmp := tempDir env in
    let configPath := Path.join (targetDir options) CONFIG_FILENAME in
    let w1 := mkWorld fs1 (log w0 ++ [EvDownload tmp]) in
    readVelocityConfig h (targetDir options) w0 = (inr (Some config), w0) ->
    (uncommitted env && negb (warnDirtyGit env (yes options)))%bool = false ->
    downloadTemplate env tmp (fs w0) = Some fs1 ->
    loadManifest h tmp config w1 = (inr manifest, w1) ->
    Version.isVersionLessThan CLI_VERSION (minCliVersion manifest) = true ->
    exists wf,
      run (upgrade h env options) w0 = (Exited 1, wf)
      /\ log wf = log w0 ++ [EvDownload tmp; EvCleanup tmp]
      /\ (rmThrows env = false -> existsSync (fs wf) tmp = false)
      /\ (rmThrows env = true -> fs wf = fs1)
      /\ (~ Path.segs tmp `prefix_of` Path.segs configPath ->
          readFileSync (fs wf) configPath = readFileSync (fs w0) configPath).
Proof.
  intros h env options w0 config manifest fs1 tmp configPath w1
    Hconfig Hgit Hdl Hmanifest Hless.
  pose proof (tempDir_not_root env) as Hne.
  eexists. split; [|split; [|split; [|split]]].
  - unfold run, upgrade, bind. rewrite Hconfig, Hgit.
    unfold withTemplate, bind, emit. cbn [fs log]. fold tmp. rewrite Hdl.
    fold w1. rewrite Hmanifest. unfold gate. rewrite Hless.
    unfold bind, cleanup, stop. reflexivity.
  - cbn [log]. unfold w1. cbn [log]. rewrite <- app_assoc. reflexivity.
  - intros Hrm. cbn [fs]. unfold w1. cbn [fs]. fold tmp. rewrite Hrm.
    apply existsSync_after_removal. exact Hne.
  - intros Hrm. cbn [fs]. unfold w1. cbn [fs]. fold tmp. rewrite Hrm.
    destruct (existsSync fs1 tmp); reflexivity.
  - intros Hpre. cbn [fs]. unfold w1. cbn [fs]. fold tmp.
    destruct (readVelocityConfig_read _ _ _ _ Hconfig) as [text Htext].
    fold configPath in Htext. rewrite Htext.
    apply readFileSync_lookup in Htext as [Hl Ht].
    apply lookup_readFileSync; [|exact Ht].
    unfold downloadTemplate in Hdl.
    destruct (template env) as [tree|]; [|discriminate]. simpl in Hdl.
    pose proof (install_keeps_file _ _ _ _ _ _ Hdl Hpre Hl) as Hl1.
    destruct (existsSync fs1 tmp); [|exact Hl1].
    destruct (rmThrows env); [exact Hl1|].
    apply lookup_file_remove_at; assumption.
Qed.

Lemma upgrade_version_gate_witness :
  exists wf,
    run (upgrade Sample.host (Sample.envWith Sample.manifestTooNew false)
           Sample.options) (mkWorld (Sample.diskBefore "site") [])
    = (Exited 1, wf)
    /\ log wf = [EvDownload Sample.fresh; EvCleanup Sample.fresh]
    /\ existsSync (fs wf) Sample.fresh = false
    /\ readFileSync (fs wf) (Path.join Sample.project CONFIG_FILENAME)
       = Some "1.0.0".
Proof.
  edestruct (upgrade_version_gate Sample.host
               (Sample.envWith Sample.manifestTooNew false) Sample.options
               (mkWorld (Sample.diskBefore "site") []))
    as (wf & Hrun & Hlog & Hgone & _ & Hread).
  - vm_compute. reflexivity.
  - reflexivity.
  - vm_compute. reflexivity.
  - vm_compute. reflexivity.
  - vm_compute. reflexivity.
  - exists wf. split; [exact Hrun|]. split; [exact Hlog|].
    split; [apply Hgone; reflexivity|].
    etransitivity; [apply Hread|vm_compute; reflexivity].
    vm_compute. intros (k & Hk). discriminate.
Defined.

(** *** Cleanup on the exits that the code handles *)


Lemma goesOn_ret {A} (a : A) : goesOn (ret a).
Proof. intros w. exists []. simpl. rewrite app_nil_r. reflexivity. Qed.

Lemma goesOn_emit e : goesOn (emit e).
Proof. intros w. exists [e]. reflexivity. Qed.

Lemma goesOn_ask {A} (f : node -> A) : goesOn (ask f).
Proof. intros w. exists []. simpl. rewrite app_nil_r. reflexivity. Qed.

Lemma goesOn_try {A} (f : node -> option A) : goesOn (try f).
Proof.
  intros w. unfold try. destruct (f (fs w)); [|exact I].
  exists []. rewrite app_nil_r. reflexivity.
Qed.

Lemma goesOn_change f : goesOn (change f).
Proof.
  intros w. unfold change. destruct (f (fs w)); [|exact I].
  exists []. simpl. rewrite app_nil_r. reflexivity.
Qed.

Lemma goesOn_bind {A B} (m : M A) (k : A -> M B) :
  goesOn m -> (forall a, goesOn (k a)) -> goesOn (bind m k).
Proof.
  intros Hm Hk w. unfold bind. specialize (Hm w).
  destruct (m w) as [[o|a] w1]; [destruct o; tauto|].
  destruct Hm as [evs1 E1]. specialize (Hk a w1).
  destruct (k a w1) as [[o|b] w2]; [destruct o; tauto|].
  destruct Hk as [evs2 E2]. exists (evs1 ++ evs2).
  rewrite E2, E1, app_assoc. reflexivity.
Qed.

Lemma endsClean_bind {A} dir (m : M A) (k : A -> M unit) :
  goesOn m -> (forall a, endsClean dir (k a)) -> endsClean dir (bind m k).
Proof.
  intros Hm Hk w. unfold bind. specialize (Hm w).
  destruct (m w) as [[o|a] w1]; [destruct o; tauto|].
  destruct Hm as [evs1 E1]. specialize (Hk a w1).
  assert (Hgo : forall w2, (exists evs, log w2 = log w1 ++ evs ++ [EvCleanup dir]) ->
                           exists evs, log w2 = log w ++ evs ++ [EvCleanup dir]).
  { intros w2 [evs2 E2]. exists (evs1 ++ evs2).
    rewrite E2, E1, <- !app_assoc. reflexivity. }
  destruct (k a w1) as [[o|b] w2]; [destruct o|]; auto.
Qed.

Lemma endsClean_cleanup env dir : endsClean dir (cleanup env dir).
Proof. intros w. exists []. reflexivity. Qed.

Lemma endsClean_cleanup_stop env dir o :
  endsClean dir (bind (cleanup env dir) (fun _ => stop o)).
Proof. intros w. unfold bind, cleanup, stop. destruct o; try exact I; exists []; reflexivity. Qed.

Lemma goesOn_if {A} (b : bool) (m1 m2 : M A) :
  goesOn m1 -> goesOn m2 -> goesOn (if b then m1 else m2).
Proof. destruct b; auto. Qed.

Create HintDb run.

#[local] Hint Resolve goesOn_ret goesOn_emit goesOn_ask goesOn_try goesOn_change
  goesOn_if endsClean_cleanup endsClean_cleanup_stop : run.

Ltac steps :=
  repeat first
    [ solve [auto with run]
    | apply goesOn_bind; [|intros ?]
    | apply endsClean_bind; [|intros ?] ].

Lemma goesOn_writeVelocityConfig h dir config :
  goesOn (writeVelocityConfig h dir config).
Proof. unfold writeVelocityConfig, writeJson. steps. Qed.

Lemma goesOn_copyAll targetDir tmp diffs : goesOn (copyAll targetDir tmp diffs).
Proof.
  induction diffs as [|d diffs IH]; cbn [copyAll]; [auto with run|].
  unfold copyOne. steps.
Qed.

Lemma goesOn_scanMigrations h env dir manifest :
  goesOn (scanMigrations h env dir manifest).
Proof. unfold scanMigrations. steps. Qed.

Lemma goesOn_loadManifest h tmp config : goesOn (loadManifest h tmp config).
Proof.
  unfold loadManifest, readJson. steps.
  destruct a; steps. destruct a; steps.
Qed.

#[local] Hint Resolve goesOn_writeVelocityConfig goesOn_copyAll
  goesOn_scanMigrations goesOn_loadManifest : run.

Lemma endsClean_diffAndApply h env options config manifest :
  endsClean (tempDir env) (diffAndApply h env options config manifest).
Proof.
  unfold diffAndApply. apply endsClean_bind; [auto with run|intros _].
  apply endsClean_bind; [auto with run|intros diffs].
  cbv zeta. destruct (_ && _)%bool.
  { apply endsClean_bind; [|intros _; auto with run].
    destruct (negb (dryRun options)); auto with run. }
  destruct (dryRun options).
  { apply endsClean_bind; [|intros _]; auto with run. }
  destruct (negb (confirmUpgrade env false)); [auto with run|].
  apply endsClean_bind; [auto with run|intros _].
  apply endsClean_bind; [|intros _].
  { destruct (hasDepChanges manifest); [|auto with run].
    apply goesOn_bind; [|intros _]; auto with run. }
  apply endsClean_bind; [auto with run|intros _].
  apply endsClean_bind; [|intros _]; auto with run.
Qed.

Lemma endsClean_gate h env options config manifest :
  endsClean (tempDir env) (gate h env options config manifest).
Proof.
  unfold gate. repeat case_match; auto with run.
  apply endsClean_diffAndApply.
Qed.

(** Every run that does not end by an exception either ends before a
    temporary directory is named, with nothing done, or has the cleanup of
    that directory as its last event. *)
Lemma upgrade_cleanup_unless_thrown h env options w :
  match upgrade h env options w with
  | (inl Thrown, _) => True
  | (_, w') =>
      w' = w
      \/ exists evs,
           log w' = log w ++ EvDownload (tempDir env) :: evs ++ [EvCleanup (tempDir env)]
  end.
Proof.
  unfold upgrade, bind.
  assert (Hread : (readVelocityConfig h (targetDir options) w).2 = w).
  { unfold readVelocityConfig, bind, ask, readJson, try, ret.
    destruct (existsSync _ _); simpl; [|reflexivity].
    destruct (_ ≫= _); reflexivity. }
  destruct (readVelocityConfig h (targetDir options) w) as [[o|[config|]] w1];
    simpl in Hread; subst w1.
  - destruct o; auto.
  - destruct (_ && _)%bool; [left; reflexivity|].
    unfold withTemplate, bind, emit. cbn [fs log].
    destruct (downloadTemplate env (tempDir env) (fs w)) as [fs1|].
    + pose proof (endsClean_bind (tempDir env) (loadManifest h (tempDir env) config)
                    (fun manifest => gate h env options config manifest)
                    (goesOn_loadManifest _ _ _)
                    (fun manifest => endsClean_gate h env options config manifest)
                    (mkWorld fs1 (log w ++ [EvDownload (tempDir env)]))) as H.
      unfold bind in H.
      destruct (loadManifest h (tempDir env) config _) as [[o|manifest] w2].
      * destruct o; auto; right; destruct H as [evs H]; exists evs;
          rewrite H; cbn [log]; rewrite <- app_assoc; reflexivity.
      * destruct (gate h env options config manifest w2) as [[o|?] w3];
          [destruct o|]; auto; right; destruct H as [evs H]; exists evs;
          rewrite H; cbn [log]; rewrite <- app_assoc; reflexivity.
    + right. exists []. cbn [log]. rewrite <- app_assoc. reflexivity.
  - left. reflexivity.
Qed.

(** A failure of the removal does not change how [cleanup] ends. *)
Lemma cleanup_never_throws env dir w :
  exists fs', cleanup env dir w = (inr tt, mkWorld fs' (log w ++ [EvCleanup dir])).
Proof. eexists. reflexivity. Qed.

(** C9 fails on an exit by exception: the project has a package descriptor
    that [JSON.parse] rejects and the manifest has a dependency to update;
    the run downloads the template, copies two files, starts the dependency
    merge and ends there by the exception, without a cleanup event and with
    the temporary directory still in place. *)
Theorem upgrade_throw_skips_cleanup :
  let r := run (upgrade Sample.host (Sample.envWith "2.0.0" false) Sample.options)
               (mkWorld (Sample.diskBefore "not json") []) in
  r.1 = Thrown
  /\ log r.2
     = [EvDownload Sample.fresh; EvDiff;
        EvCopy (Path.parse "/tmp/velocity-upgrade-1/src/lib/b.ts")
               (Path.parse "/work/site/src/lib/b.ts");
        EvCopy (Path.parse "/tmp/velocity-upgrade-1/src/lib/c.ts")
               (Path.parse "/work/site/src/lib/c.ts");
        EvMergeDeps]
  /\ (forall dir, EvCleanup dir ∉ log r.2)
  /\ existsSync (fs r.2) Sample.fresh = true.
Proof.
  assert (Hlog : log (run (upgrade Sample.host (Sample.envWith "2.0.0" false)
                            Sample.options)
                         (mkWorld (Sample.diskBefore "not json") [])).2
     = [EvDownload Sample.fresh; EvDiff;
        EvCopy (Path.parse "/tmp/velocity-upgrade-1/src/lib/b.ts")
               (Path.parse "/work/site/src/lib/b.ts");
        EvCopy (Path.parse "/tmp/velocity-upgrade-1/src/lib/c.ts")
               (Path.parse "/work/site/src/lib/c.ts");
        EvMergeDeps]) by (vm_compute; reflexivity).
  cbv zeta. split; [vm_compute; reflexivity|]. split; [exact Hlog|]. split.
  - intros dir Hin. rewrite Hlog in Hin.
    repeat (apply elem_of_cons in Hin as [Hin|Hin]; [discriminate|]).
    inversion Hin.
  - vm_compute. reflexivity.
Qed.

(** The same project with a package descriptor that parses is upgraded and
    cleaned up. *)
Example upgrade_complete :
  let r := run (upgrade Sample.host (Sample.envWith "2.0.0" false) Sample.options)
               (mkWorld (Sample.diskBefore "site") []) in
  r.1 = Returned
  /\ last (log r.2) = Some (EvCleanup Sample.fresh)
  /\ existsSync (fs r.2) Sample.fresh = false
  /\ readFileSync (fs r.2) (Path.join Sample.project CONFIG_FILENAME)
     = Some ("2.0.0" ++ newline)%string.
Proof. cbv zeta. repeat split; vm_compute; reflexivity. Qed.

End Orchestrator.

(** * Further properties of the code *)

(** ** The version comparator as an order *)

Section VersionStrictOrder.

Import Version.

(** The comparison of two component lists, read off [isVersionLessThan]. *)
Lemma scan_first_difference (x y : list Z) :
  scan x y 0 (Nat.max (length x) (length y)) = true <->
  exists i : nat,
    (forall j : nat, (j < i)%nat -> at_or_zero x j = at_or_zero y j)
    /\ at_or_zero x i < at_or_zero y i.
Proof.
  rewrite scan_true. split.
  - intros (k & _ & Heq & Hlt). exists k. split; [|exact Hlt].
    intros j Hj. apply Heq. lia.
  - intros (i & Heq & Hlt). exists i.
    repeat split; [|intros j Hj; apply Heq; lia|exact Hlt].
    destruct (decide (i < Nat.max (length x) (length y))%nat) as [|Hge];
      [assumption|].
    rewrite !at_or_zero_beyond in Hlt by lia. lia.
Qed.

(** When the loop answers [false] both ways, it met no difference. *)
Lemma scan_false_both (a b : list Z) (todo i : nat) :
  scan a b i todo = false -> scan b a i todo = false ->
  forall j, (i <= j < i + todo)%nat -> at_or_zero a j = at_or_zero b j.
Proof.
  revert i. induction todo as [|todo IH]; intros i Hab Hba j Hj; [lia|].
  simpl in Hab, Hba.
  destruct (Z.ltb_spec (at_or_zero a i) (at_or_zero b i)); [discriminate|].
  destruct (Z.ltb_spec (at_or_zero b i) (at_or_zero a i)); [discriminate|].
  destruct (decide (j = i)) as [->|Hne]; [lia|].
  apply (IH (S i)); [assumption|assumption|lia].
Qed.

Lemma bool_eq_iff (x y : bool) : (x = true <-> y = true) -> x = y.
Proof. destruct x, y; intros [H1 H2]; auto; symmetry; auto. Qed.

(** X1: [isVersionLessThan] is a strict order on version strings: it never
    holds both ways, and it is transitive. *)
Theorem isVersionLessThan_strict_order :
  forall a b c : string,
    (isVersionLessThan a b = true -> isVersionLessThan b a = false)
    /\ (isVersionLessThan a b = true -> isVersionLessThan b c = true ->
        isVersionLessThan a c = true).
Proof.
  intros a b c. unfold isVersionLessThan.
  set (x := parse a). set (y := parse b). set (z := parse c). split.
  - intros Hab. apply not_true_is_false. intros Hba.
    apply scan_first_difference in Hab as (i & Hi & Hlt).
    apply scan_first_difference in Hba as (j & Hj & Hlt').
    destruct (Nat.lt_trichotomy i j) as [Hij|[->|Hij]].
    + specialize (Hj i Hij). lia.
    + lia.
    + specialize (Hi j Hij). lia.
  - intros Hab Hbc.
    apply scan_first_difference in Hab as (i & Hi & Hlt).
    apply scan_first_difference in Hbc as (j & Hj & Hlt').
    apply scan_first_difference.
    destruct (Nat.lt_trichotomy i j) as [Hij|[->|Hij]].
    + exists i. split.
      * intros k Hk. rewrite Hi by exact Hk. apply Hj. lia.
      * rewrite <- (Hj i Hij). exact Hlt.
    + exists j. split.
      * intros k Hk. rewrite Hi by exact Hk. apply Hj. exact Hk.
      * lia.
    + exists j. split.
      * intros k Hk. rewrite Hi by lia. apply Hj. exact Hk.
      * rewrite (Hi j Hij). exact Hlt'.
Qed.

Lemma isVersionLessThan_strict_order_witness :
  isVersionLessThan "v2" "1.5.9" = false /\ isVersionLessThan "1.5.9" "2.0.1" = true.
Proof.
  split.
  - apply (proj1 (isVersionLessThan_strict_order "1.5.9" "v2" "")). reflexivity.
  - apply (proj2 (isVersionLessThan_strict_order "1.5.9" "v2" "2.0.1"));
      reflexivity.
Defined.

Lemma incomparable_padded (x y : list Z) :
  (scan x y 0 (Nat.max (length x) (length y)) = false
   /\ scan y x 0 (Nat.max (length y) (length x)) = false)
  <-> (forall i : nat, at_or_zero x i = at_or_zero y i).
Proof.
  split.
  - intros [Hab Hba] i.
    destruct (decide (i < Nat.max (length x) (length y))%nat) as [Hlt|Hge].
    + rewrite (Nat.max_comm (length y)) in Hba.
      apply (scan_false_both x y _ 0 Hab Hba). lia.
    + rewrite !at_or_zero_beyond by lia. reflexivity.
  - intros Heq. split; apply not_true_is_false; intros H;
      apply scan_first_difference in H as (i & _ & Hlt);
      rewrite Heq in Hlt; lia.
Qed.

Lemma noSeparator_numeral (u : Decimal.uint) :
  VersionSpec.noSeparator (NilEmpty.string_of_uint u) = true.
Proof. induction u; cbn; auto. Qed.

Lemma append_empty (s : string) : (s ++ "")%string = s.
Proof. induction s as [|c s IH]; [reflexivity|]. rewrite append_cons, IH. reflexivity. Qed.

Lemma component_numeral (u : Decimal.uint) :
  u <> Decimal.Nil ->
  component (NilEmpty.string_of_uint u) = nearestDouble (Z.of_uint u).
Proof.
  intros Hu. rewrite <- (component_digits "" "" u eq_refl Hu eq_refl).
  cbn [String.append]. rewrite append_empty. reflexivity.
Qed.

(** A dotted version is parsed into the doubles of its numbers. *)
Lemma parse_dotted (first : Decimal.uint) (rest : list Decimal.uint) :
  Forall (fun u => u <> Decimal.Nil) (first :: rest) ->
  parse (VersionSpec.dotted first rest)
  = nearestDouble <$> VersionSpec.numbers first rest.
Proof.
  intros Hne. apply Forall_cons in Hne as [Hfirst Hrest].
  unfold parse, VersionSpec.dotted, VersionSpec.numbers.
  set (cut := (fun u => ("."%char, NilEmpty.string_of_uint u)) <$> rest).
  assert (Hcut : VersionSpec.wellCut (NilEmpty.string_of_uint first) cut).
  { split; [apply noSeparator_numeral|]. subst cut. apply Forall_fmap.
    apply Forall_forall. intros u _. split; [left; reflexivity|].
    apply noSeparator_numeral. }
  rewrite (strip_v_joined _ _ Hcut), (split_joined _ _ Hcut).
  - cbn [fmap list_fmap]. rewrite (component_numeral _ Hfirst). f_equal.
    subst cut. rewrite <- !list_fmap_compose.
    apply Forall_fmap_ext_1. eapply Forall_impl; [exact Hrest|].
    intros u Hu. cbn. apply component_numeral, Hu.
  - intros t E. destruct first; cbn in E; congruence.
Qed.

(** X2: for two versions written as decimal numerals up to 2^53 with dots
    between them, neither is less than the other exactly when their lists
    of numbers, continued with zeros, are the same: any two such versions
    with a differing number are ordered one way. *)
Theorem isVersionLessThan_total :
  forall (a b : Decimal.uint) (more_a more_b : list Decimal.uint),
    Forall (fun u => u <> Decimal.Nil /\ Z.of_uint u <= 2 ^ 53) (a :: more_a) ->
    Forall (fun u => u <> Decimal.Nil /\ Z.of_uint u <= 2 ^ 53) (b :: more_b) ->
    (isVersionLessThan (VersionSpec.dotted a more_a) (VersionSpec.dotted b more_b)
     = false
     /\ isVersionLessThan (VersionSpec.dotted b more_b) (VersionSpec.dotted a more_a)
        = false)
    <-> (forall i : nat,
           VersionSpec.padded (VersionSpec.numbers a more_a) i
           = VersionSpec.padded (VersionSpec.numbers b more_b) i).
Proof.
  intros a b more_a more_b Ha Hb.
  assert (Hexact : forall first rest,
    Forall (fun u => u <> Decimal.Nil /\ Z.of_uint u <= 2 ^ 53) (first :: rest) ->
    parse (VersionSpec.dotted first rest) = VersionSpec.numbers first rest).
  { intros first rest H. rewrite parse_dotted.
    - unfold VersionSpec.numbers. rewrite <- list_fmap_compose.
      apply Forall_fmap_ext_1. eapply Forall_impl; [exact H|].
      intros u [_ Hu]. cbn. apply nearestDouble_exact. split; [|exact Hu].
      unfold Z.of_uint. lia.
    - eapply Forall_impl; [exact H|]. intros u [Hu _]. exact Hu. }
  unfold isVersionLessThan. rewrite (Hexact _ _ Ha), (Hexact _ _ Hb).
  apply incomparable_padded.
Qed.

Lemma isVersionLessThan_total_witness :
  isVersionLessThan "1.6" "1.6.0" = false /\ isVersionLessThan "1.6.0" "1.6" = false.
Proof.
  apply (isVersionLessThan_total
           (Decimal.D1 Decimal.Nil) (Decimal.D1 Decimal.Nil)
           [Decimal.D6 Decimal.Nil] [Decimal.D6 Decimal.Nil; Decimal.D0 Decimal.Nil]).
  - repeat (apply Forall_cons_2; [split; [discriminate|vm_compute; discriminate]|]).
    apply Forall_nil_2.
  - repeat (apply Forall_cons_2; [split; [discriminate|vm_compute; discriminate]|]).
    apply Forall_nil_2.
  - intros [|[|[|i]]]; reflexivity.
Defined.

(** The answer depends on the component lists only through their
    zero-padded reading. *)
Lemma scan_padded (x x' y y' : list Z) :
  (forall i, at_or_zero x i = at_or_zero x' i) ->
  (forall i, at_or_zero y i = at_or_zero y' i) ->
  scan x y 0 (Nat.max (length x) (length y))
  = scan x' y' 0 (Nat.max (length x') (length y')).
Proof.
  intros Hx Hy. apply bool_eq_iff. rewrite !scan_first_difference.
  split; intros (i & Heq & Hlt); exists i; split.
  - intros j Hj. rewrite <- Hx, <- Hy. apply Heq, Hj.
  - rewrite <- Hx, <- Hy. exact Hlt.
  - intros j Hj. rewrite Hx, Hy. apply Heq, Hj.
  - rewrite Hx, Hy. exact Hlt.
Qed.

Lemma strip_v_app_sep (s t : string) (c : ascii) :
  is_sep c = true ->
  strip_v (s ++ String c t)%string = (strip_v s ++ String c t)%string.
Proof.
  intros Hc. destruct s as [|d s]; simpl.
  - unfold is_sep in Hc.
    destruct (Ascii.eqb_spec c "-") as [E|]; [rewrite E; reflexivity|].
    destruct (Ascii.eqb_spec c ".") as [E|]; [rewrite E; reflexivity|discriminate].
  - destruct d as [[] [] [] [] [] [] [] []]; reflexivity.
Qed.

Lemma at_or_zero_snoc_zero (l : list Z) (i : nat) :
  at_or_zero (l ++ [0]) i = at_or_zero l i.
Proof.
  unfold at_or_zero. destruct (decide (i < length l)%nat) as [Hlt|Hge].
  - rewrite lookup_app_l by exact Hlt. reflexivity.
  - rewrite lookup_app_r by lia. rewrite (lookup_ge_None_2 l) by lia.
    destruct (i - length l)%nat; reflexivity.
Qed.

(** X3: a trailing zero component makes no difference: writing [.0] (or
    [-0]) after a version changes no comparison it takes part in, on either
    side. *)
Theorem isVersionLessThan_trailing_zero :
  forall (a b : string) (c : ascii),
    is_sep c = true ->
    isVersionLessThan (a ++ String c "0") b = isVersionLessThan a b
    /\ isVersionLessThan b (a ++ String c "0") = isVersionLessThan b a.
Proof.
  intros a b c Hc.
  assert (Hp : parse (a ++ String c "0") = parse a ++ [0]).
  { unfold parse. rewrite strip_v_app_sep, split_at_sep by exact Hc.
    rewrite fmap_app. reflexivity. }
  unfold isVersionLessThan. rewrite Hp. split; apply scan_padded;
    intros i; rewrite ?at_or_zero_snoc_zero; reflexivity.
Qed.

Lemma isVersionLessThan_trailing_zero_witness :
  isVersionLessThan "1.6.0" "1.6.1" = isVersionLessThan "1.6" "1.6.1"
  /\ isVersionLessThan "1.6.1" "1.6.0" = isVersionLessThan "1.6.1" "1.6".
Proof.
  apply (isVersionLessThan_trailing_zero "1.6" "1.6.1" "."). reflexivity.
Defined.

End VersionStrictOrder.

(** ** The tally of parts, and the files that are copied *)

Section TallyMore.

Lemma summarizeDiffs_by_count (diffs : list FileDiff) :
  summarizeDiffs diffs
  = mkSummary (count_status added diffs) (count_status modified diffs)
              (count_status unchanged diffs).
Proof. unfold summarizeDiffs. rewrite fold_tally. reflexivity. Qed.

Lemma count_status_app s (diffs1 diffs2 : list FileDiff) :
  count_status s (diffs1 ++ diffs2)
  = (count_status s diffs1 + count_status s diffs2)%nat.
Proof. unfold count_status. rewrite filter_app, length_app. reflexivity. Qed.

(** X4: the tally of two lists put together is the sum of their tallies,
    count by count, and the tally of a list does not change when its entries
    are put in another order. *)
Theorem summarizeDiffs_app :
  (forall diffs1 diffs2 : list FileDiff,
     summarizeDiffs (diffs1 ++ diffs2)
     = mkSummary
         (n_added (summarizeDiffs diffs1) + n_added (summarizeDiffs diffs2))
         (n_modified (summarizeDiffs diffs1) + n_modified (summarizeDiffs diffs2))
         (n_unchanged (summarizeDiffs diffs1) + n_unchanged (summarizeDiffs diffs2)))
  /\ (forall diffs1 diffs2 : list FileDiff,
        diffs1 ≡ₚ diffs2 -> summarizeDiffs diffs1 = summarizeDiffs diffs2).
Proof.
  split.
  - intros diffs1 diffs2. rewrite !summarizeDiffs_by_count, !count_status_app.
    reflexivity.
  - intros diffs1 diffs2 Hperm. rewrite !summarizeDiffs_by_count.
    unfold count_status. rewrite Hperm. reflexivity.
Qed.

Lemma summarizeDiffs_app_witness :
  summarizeDiffs [mkFileDiff "a.ts" added safe; mkFileDiff "b.ts" modified safe;
                  mkFileDiff "c.ts" unchanged safe]
  = summarizeDiffs [mkFileDiff "c.ts" unchanged safe; mkFileDiff "a.ts" added safe;
                    mkFileDiff "b.ts" modified safe].
Proof.
  apply (proj2 summarizeDiffs_app).
  apply (Permutation_app_comm
           [mkFileDiff "a.ts" added safe; mkFileDiff "b.ts" modified safe]
           [mkFileDiff "c.ts" unchanged safe]).
Defined.

(** X5: the files that step 6a of [upgrade] copies are as many as the
    [added] and [modified] counts that it reports. *)
Theorem changed_files_counted :
  forall diffs : list FileDiff,
    length (List.filter Upgrade.isChanged diffs)
    = (n_added (summarizeDiffs diffs) + n_modified (summarizeDiffs diffs))%nat.
Proof.
  intros diffs. rewrite summarizeDiffs_by_count. simpl.
  induction diffs as [|d diffs IH]; [reflexivity|].
  rewrite !count_status_cons. simpl. unfold Upgrade.isChanged at 1.
  destruct (status d); simpl; rewrite IH; lia.
Qed.

End TallyMore.

(** ** What the dependency merge does to each package *)

Section DependencyMergeMore.

Import Deps DepsView.

Lemma lastFor_None name (entries : list (string * string)) :
  name ∉ entries.*1 -> lastFor name entries = None.
Proof.
  induction entries as [|[n v] entries IH]; [reflexivity|].
  rewrite fmap_cons, not_elem_of_cons. intros [Hne Hnot]. simpl in Hne |- *.
  rewrite (IH Hnot). destruct (decide (n = name)); [congruence|reflexivity].
Qed.

Lemma lastFor_unique name version (entries : list (string * string)) :
  NoDup entries.*1 -> (name, version) ∈ entries ->
  lastFor name entries = Some version.
Proof.
  induction entries as [|[n v] entries IH]; intros Hnd Hin; [inversion Hin|].
  rewrite fmap_cons in Hnd. apply NoDup_cons in Hnd as [Hn Hnd].
  apply elem_of_cons in Hin as [[= <- <-]|Hin]; simpl.
  - rewrite lastFor_None by exact Hn. rewrite decide_True by reflexivity.
    reflexivity.
  - rewrite (IH Hnd Hin). reflexivity.
Qed.

(** X6: after the merge every package of [add] whose name is not
    [__proto__] is in [dependencies] with the version that [add] gives it,
    whatever [update] and [remove] say about it and wherever it was declared
    before. *)
Theorem mergeDeps_add_wins :
  forall (pkg : Pkg.t) (deps : ManifestDependencies) (name version : string),
    NoDup (dep_add deps).*1 ->
    (name, version) ∈ dep_add deps ->
    name <> "__proto__" ->
    declared (Pkg.dependencies (mergeDeps pkg deps)) name = Some version.
Proof.
  intros pkg deps name version Hnd Hin Hname.
  pose proof (f_equal fst
    (about_add_loop (dep_add deps)
       (fold_left removeStep (dep_remove deps)
          (fold_left updateStep (dep_update deps) pkg)) name)) as H.
  rewrite (lastFor_unique _ _ _ Hnd Hin) in H.
  unfold about, keyAdd, assignKey in H. cbn [fst] in H.
  apply String.eqb_neq in Hname. rewrite Hname in H. exact H.
Qed.

Lemma mergeDeps_add_wins_witness :
  declared
    (Pkg.dependencies
       (mergeDeps pkg_dev_only
          (mkManifestDependencies [("astro", "5.0.0")] ["astro"]
             [("astro", "6.0.0"); ("sharp", "0.33.0")])))
    "astro"
  = Some "6.0.0".
Proof.
  apply mergeDeps_add_wins.
  - vm_compute. repeat constructor; intros H; vm_compute in H;
      repeat (apply elem_of_cons in H as [H|H]; [discriminate|]); inversion H.
  - left.
  - discriminate.
Defined.

(** X7: after the merge a package of [remove] that [add] does not name is
    declared in neither section. *)
Theorem mergeDeps_removes :
  forall (pkg : Pkg.t) (deps : ManifestDependencies) (name : string),
    name ∈ dep_remove deps ->
    name ∉ (dep_add deps).*1 ->
    declared (Pkg.dependencies (mergeDeps pkg deps)) name = None
    /\ declared (Pkg.devDependencies (mergeDeps pkg deps)) name = None.
Proof.
  intros pkg deps name Hrem Hadd.
  pose proof (about_add_loop (dep_add deps)
    (fold_left removeStep (dep_remove deps)
       (fold_left updateStep (dep_update deps) pkg)) name) as H.
  rewrite about_remove_loop, (lastFor_None _ _ Hadd),
    (decide_True (P := name ∈ dep_remove deps)) in H by exact Hrem.
  unfold about, keyRemove in H. injection H as H1 H2. auto.
Qed.

Lemma mergeDeps_removes_witness :
  declared (Pkg.dependencies (mergeDeps pkg_dev_only deps_update_and_remove)) "astro"
  = None
  /\ declared (Pkg.devDependencies (mergeDeps pkg_dev_only deps_update_and_remove))
       "astro" = None.
Proof.
  apply mergeDeps_removes.
  - left.
  - intros H. inversion H.
Defined.

(** X8: a package that [update] names, and that [remove] and [add] do not,
    whose name is none that objects inherit from [Object.prototype], gets
    the new version in the section that holds it, in [dependencies] when
    both do and also when none does; the other section is as it was. *)
Theorem mergeDeps_updates_in_place :
  forall (pkg : Pkg.t) (deps : ManifestDependencies) (name version : string),
    NoDup (dep_update deps).*1 ->
    (name, version) ∈ dep_update deps ->
    name ∉ dep_remove deps ->
    name ∉ (dep_add deps).*1 ->
    name ∉ inheritedNames ->
    let before := declared (Pkg.dependencies pkg) name in
    let beforeDev := declared (Pkg.devDependencies pkg) name in
    let after := declared (Pkg.dependencies (mergeDeps pkg deps)) name in
    let afterDev := declared (Pkg.devDependencies (mergeDeps pkg deps)) name in
    (is_Some before -> after = Some version /\ afterDev = beforeDev)
    /\ (before = None -> is_Some beforeDev ->
        after = None /\ afterDev = Some version)
    /\ (before = None -> beforeDev = None ->
        after = Some version /\ afterDev = None).
Proof.
  intros pkg deps name version Hnd Hin Hrem Hadd Hown. cbv zeta.
  apply inherited_names in Hown.
  pose proof (about_mergeDeps true (present (Pkg.devDependencies pkg))
                pkg deps name eq_refl (or_intror (fun _ => Hown))) as H.
  unfold about, keyRun in H.
  rewrite (lastFor_unique _ _ _ Hnd Hin), (lastFor_None _ _ Hadd),
    (decide_False (P := name ∈ dep_remove deps)) in H by exact Hrem.
  assert (Hname : String.eqb name "__proto__" = false).
  { apply String.eqb_neq. intros ->. vm_compute in Hown. discriminate. }
  unfold keyUpdate, assignKey in H. rewrite Hown, Hname in H.
  destruct (declared (Pkg.dependencies pkg) name) as [v0|],
    (declared (Pkg.devDependencies pkg) name) as [v1|];
    cbn in H; rewrite ?andb_false_r in H; cbn in H;
    injection H as H1 H2; rewrite H1, H2;
    (split; [|split]); intros Ha; try intros Hb;
    try discriminate; try (destruct Ha; discriminate);
    try (destruct Hb; discriminate); auto.
Qed.

Lemma mergeDeps_updates_in_place_witness :
  declared (Pkg.dependencies (mergeDeps pkg_dev_only deps_update_only)) "astro" = None
  /\ declared (Pkg.devDependencies (mergeDeps pkg_dev_only deps_update_only)) "astro"
     = Some "5.0.0".
Proof.
  assert (H1 : NoDup (dep_update deps_update_only).*1)
    by (vm_compute; repeat constructor; inversion 1).
  assert (H2 : ("astro", "5.0.0") ∈ dep_update deps_update_only) by left.
  assert (H3 : "astro" ∉ dep_remove deps_update_only)
    by (intros H; apply list_elem_of_singleton in H; discriminate).
  assert (H4 : "astro" ∉ (dep_add deps_update_only).*1) by inversion 1.
  apply (proj1 (proj2 (mergeDeps_updates_in_place pkg_dev_only deps_update_only
                         "astro" "5.0.0" H1 H2 H3 H4
                         (proj1 (inherited_names "astro") eq_refl)))).
  - reflexivity.
  - vm_compute. eauto.
Defined.

(** X9: a package that the block does not name keeps what both sections
    say about it; the merge never drops a section and never makes a
    [devDependencies] section. *)
Theorem mergeDeps_leaves_others :
  forall (pkg : Pkg.t) (deps : ManifestDependencies),
    (forall name,
       name ∉ (dep_update deps).*1 -> name ∉ dep_remove deps ->
       name ∉ (dep_add deps).*1 ->
       declared (Pkg.dependencies (mergeDeps pkg deps)) name
       = declared (Pkg.dependencies pkg) name
       /\ declared (Pkg.devDependencies (mergeDeps pkg deps)) name
          = declared (Pkg.devDependencies pkg) name)
    /\ (is_Some (Pkg.dependencies pkg) ->
        is_Some (Pkg.dependencies (mergeDeps pkg deps)))
    /\ (is_Some (Pkg.devDependencies (mergeDeps pkg deps))
        <-> is_Some (Pkg.devDependencies pkg)).
Proof.
  intros pkg deps. split; [|split].
  - intros name Hu Hr Ha.
    pose proof (about_mergeDeps true (present (Pkg.devDependencies pkg))
                  pkg deps name eq_refl
                  (or_intror (fun Hin => False_ind _ (Hu Hin)))) as H.
    unfold about, keyRun in H.
    rewrite (lastFor_None _ _ Hu), (lastFor_None _ _ Ha),
      (decide_False (P := name ∈ dep_remove deps)) in H by exact Hr.
    injection H as H1 H2. auto.
  - intros [d Hd]. pose proof (present_deps_mergeDeps pkg deps) as H.
    rewrite Hd in H. specialize (H eq_refl).
    destruct (Pkg.dependencies (mergeDeps pkg deps)); [eauto|discriminate].
  - pose proof (present_dev_mergeDeps pkg deps) as H.
    destruct (Pkg.devDependencies (mergeDeps pkg deps)),
      (Pkg.devDependencies pkg); simpl in H; try discriminate;
      split; intros [? ?]; try discriminate; eauto.
Qed.

Lemma mergeDeps_leaves_others_witness :
  declared (Pkg.dependencies (mergeDeps pkg_dev_only deps_update_and_remove)) "sharp"
  = None
  /\ declared (Pkg.devDependencies (mergeDeps pkg_dev_only deps_update_and_remove))
       "sharp" = None.
Proof.
  apply (proj1 (mergeDeps_leaves_others pkg_dev_only deps_update_and_remove));
    intros H; vm_compute in H;
    repeat (apply elem_of_cons in H as [H|H]; [discriminate|]); inversion H.
Defined.

End DependencyMergeMore.

(** ** Reading back what was written *)

Section ReadAfterWrite.

Import Fs.

Lemma lookup_write_at_same p :
  forall fs fs' new, write_at fs p new = Some fs' -> lookup fs' p = Some new.
Proof.
  induction p as [|s p IH]; intros fs fs' new Hw.
  - simpl in Hw. injection Hw as <-. reflexivity.
  - destruct fs as [c|es]; [discriminate|].
    destruct p as [|s' p].
    + simpl in Hw. injection Hw as <-. cbn [lookup].
      rewrite find_entry_set, String.eqb_refl. reflexivity.
    + change (write_at (Dir es) (s :: s' :: p) new)
        with (match find_entry s es with
              | Some c =>
                  match write_at c (s' :: p) new with
                  | Some c' => Some (Dir (set_entry s c' es))
                  | None => None
                  end
              | None => None
              end) in Hw.
      destruct (find_entry s es) as [c0|]; [|discriminate].
      destruct (write_at c0 (s' :: p) new) as [c1|] eqn:E; [|discriminate].
      injection Hw as <-. cbn [lookup]. rewrite find_entry_set, String.eqb_refl.
      eapply IH. exact E.
Qed.

Lemma readFileSync_writeFileSync fs fs' p data :
  writeFileSync fs p data = Some fs' -> readFileSync fs' p = Some data.
Proof.
  unfold writeFileSync. intros Hw.
  assert (Ht : Path.trailing p = false /\
               write_at fs (Path.segs p) (File (Some data)) = Some fs').
  { destruct (lookup fs (Path.segs p)) as [[c|es]|]; try discriminate;
      destruct (Path.trailing p); try discriminate; auto. }
  destruct Ht as [Ht Hw']. apply lookup_readFileSync; [|exact Ht].
  eapply lookup_write_at_same. exact Hw'.
Qed.

Lemma writeFileSync_keeps_file fs fs' p data q c :
  writeFileSync fs p data = Some fs' ->
  ~ Path.segs p `prefix_of` q ->
  lookup fs q = Some (File c) ->
  lookup fs' q = Some (File c).
Proof.
  unfold writeFileSync. intros Hw Hpre Hq.
  assert (Hw' : write_at fs (Path.segs p) (File (Some data)) = Some fs').
  { destruct (lookup fs (Path.segs p)) as [[c'|es]|]; try discriminate;
      destruct (Path.trailing p); try discriminate; auto. }
  eapply lookup_file_write_at; eassumption.
Qed.

Lemma lookup_file_mkdirp_inv p :
  forall fs fs' q c,
    mkdirp fs p = Some fs' ->
    lookup fs' q = Some (File c) ->
    lookup fs q = Some (File c).
Proof.
  induction p as [|s p IH]; intros fs fs' q c Hm Hq.
  - destruct fs; simpl in Hm; [discriminate|]. injection Hm as <-. exact Hq.
  - destruct fs as [c0|es]; [discriminate|]. simpl in Hm.
    destruct (mkdirp (default (Dir []) (find_entry s es)) p) as [c'|] eqn:E;
      [|discriminate].
    injection Hm as <-.
    destruct q as [|t q]; [discriminate|].
    cbn [lookup] in Hq |- *. rewrite find_entry_set in Hq.
    destruct (String.eqb_spec s t) as [->|Hne]; [|exact Hq].
    specialize (IH _ _ _ _ E Hq).
    destruct (find_entry t es) as [c1|]; [exact IH|].
    simpl in IH. destruct q; discriminate.
Qed.

Lemma lookup_file_write_at_inv p :
  forall fs fs' new q c,
    write_at fs p new = Some fs' ->
    ~ p `prefix_of` q ->
    lookup fs' q = Some (File c) ->
    lookup fs q = Some (File c).
Proof.
  induction p as [|s p IH]; intros fs fs' new q c Hw Hpre Hq.
  - exfalso. apply Hpre. apply prefix_nil.
  - destruct fs as [c0|es]; [discriminate|].
    destruct p as [|s' p].
    + simpl in Hw. injection Hw as <-.
      destruct q as [|t q]; [discriminate|]. cbn [lookup] in Hq |- *.
      rewrite find_entry_set in Hq.
      destruct (String.eqb_spec s t) as [->|Hne]; [|exact Hq].
      exfalso. apply Hpre. exists q. reflexivity.
    + change (write_at (Dir es) (s :: s' :: p) new)
        with (match find_entry s es with
              | Some c =>
                  match write_at c (s' :: p) new with
                  | Some c' => Some (Dir (set_entry s c' es))
                  | None => None
                  end
              | None => None
              end) in Hw.
      destruct (find_entry s es) as [c1|] eqn:Hf; [|discriminate].
      destruct (write_at c1 (s' :: p) new) as [c2|] eqn:E; [|discriminate].
      injection Hw as <-.
      destruct q as [|t q]; [discriminate|]. cbn [lookup] in Hq |- *.
      rewrite find_entry_set in Hq.
      destruct (String.eqb_spec s t) as [->|Hne]; [|exact Hq].
      rewrite Hf. eapply IH; [exact E| |exact Hq].
      intros [k Hk]. apply Hpre. exists k. rewrite Hk. reflexivity.
Qed.

Lemma writeFileSync_write_at fs fs' p data :
  writeFileSync fs p data = Some fs' ->
  write_at fs (Path.segs p) (File (Some data)) = Some fs'
  /\ Path.trailing p = false
  /\ (forall es, lookup fs (Path.segs p) <> Some (Dir es)).
Proof.
  unfold writeFileSync. intros Hw.
  destruct (lookup fs (Path.segs p)) as [[c'|es]|]; try discriminate;
    destruct (Path.trailing p); try discriminate; repeat split; auto;
    intros es; discriminate.
Qed.

(** Nothing is found below a regular file. *)
Lemma file_has_nothing_below fs p q c n :
  lookup fs p = Some (File c) -> p `prefix_of` q -> lookup fs q = Some n ->
  q = p.
Proof.
  intros Hp [k ->] Hq. rewrite lookup_app, Hp in Hq. simpl in Hq.
  destruct k; [rewrite app_nil_r; reflexivity|discriminate].
Qed.

End ReadAfterWrite.

Section FilesWritten.

Import Fs Deps Upgrade.

(** X10: when [mergePackageJsonDeps] finds a package descriptor and does not
    throw, the file reads afterwards as the serialization of the merged
    descriptor followed by a newline, and every other regular file of the
    tree is as it was. *)
Theorem mergePackageJsonDeps_writes_descriptor :
  forall (h : Host) (fs fs' : node) (targetDir : Path.t) (manifest : UpgradeManifest),
    let pkgPath := Path.join targetDir "package.json" in
    existsSync fs pkgPath = true ->
    mergePackageJsonDeps h fs targetDir manifest = Some fs' ->
    (exists text pkg,
       readFileSync fs pkgPath = Some text
       /\ parsePackage h text = Some pkg
       /\ readFileSync fs' pkgPath
          = Some (stringifyPackage h (mergeDeps pkg (dependencies manifest))
                  ++ newline)%string)
    /\ (forall q c,
          q <> Path.segs pkgPath ->
          lookup fs q = Some (File c) -> lookup fs' q = Some (File c)).
Proof.
  intros h fs fs' targetDir manifest pkgPath Hex Hmerge.
  unfold mergePackageJsonDeps in Hmerge. fold pkgPath in Hmerge.
  rewrite Hex in Hmerge. simpl in Hmerge.
  destruct (readFileSync fs pkgPath) as [text|] eqn:Hread; [|discriminate].
  simpl in Hmerge.
  destruct (parsePackage h text) as [pkg|] eqn:Hparse; [|discriminate].
  simpl in Hmerge. split.
  - exists text, pkg. split; [reflexivity|]. split; [exact Hparse|].
    eapply readFileSync_writeFileSync. exact Hmerge.
  - intros q c Hne Hq. eapply writeFileSync_keeps_file; [exact Hmerge| |exact Hq].
    intros Hpre. apply Hne.
    apply readFileSync_lookup in Hread as [Hl _].
    eapply file_has_nothing_below; eassumption.
Qed.

Lemma mergePackageJsonDeps_writes_descriptor_witness :
  let manifest := Sample.manifestOf [] in
  let fs' := default (Sample.diskBefore "site")
               (mergePackageJsonDeps Sample.host (Sample.diskBefore "site")
                  Sample.project manifest) in
  lookup fs' ["work"; "site"; "tsconfig.json"] = Some (File (Some "{}")).
Proof.
  intros manifest fs'.
  apply (proj2 (mergePackageJsonDeps_writes_descriptor Sample.host
                  (Sample.diskBefore "site") fs' Sample.project manifest
                  eq_refl eq_refl)).
  - discriminate.
  - reflexivity.
Defined.

(** X11: what [writeVelocityConfig] writes, [readVelocityConfig] reads back,
    when parsing undoes the serialization of that configuration. *)
Theorem velocityConfig_round_trip :
  forall (h : Host) (projectDir : Path.t) (config : VelocityConfig) (w w' : world),
    parseConfig h (stringifyConfig h config ++ newline)%string = Some config ->
    writeVelocityConfig h projectDir config w = (inr tt, w') ->
    readVelocityConfig h projectDir w' = (inr (Some config), w').
Proof.
  intros h projectDir config w w' Hcodec Hwrite.
  unfold writeVelocityConfig, writeJson, bind, emit, change in Hwrite.
  cbn [fs log] in Hwrite.
  destruct (writeFileSync (fs w) (Path.join projectDir CONFIG_FILENAME)
              (stringifyConfig h config ++ newline)) as [fs1|] eqn:Hw;
    [|discriminate].
  injection Hwrite as <-.
  pose proof (readFileSync_writeFileSync _ _ _ _ Hw) as Hread.
  unfold readVelocityConfig, bind, ask, readJson, try, ret. cbn [fs].
  assert (Hex : existsSync fs1 (Path.join projectDir CONFIG_FILENAME) = true).
  { unfold existsSync. unfold readFileSync in Hread.
    destruct (statSync fs1 (Path.join projectDir CONFIG_FILENAME));
      [reflexivity|discriminate]. }
  rewrite Hex. simpl. rewrite Hread. simpl. rewrite Hcodec. reflexivity.
Qed.

Lemma velocityConfig_round_trip_witness :
  let config := mkVelocityConfig "2.0.0" "2024-01-01" "2024-01-01" Sample.features0 in
  let w := mkWorld (Sample.diskBefore "site") [] in
  let w' := (writeVelocityConfig Sample.host Sample.project config w).2 in
  readVelocityConfig Sample.host Sample.project w' = (inr (Some config), w').
Proof.
  intros config w w'.
  apply (velocityConfig_round_trip Sample.host Sample.project config w w').
  - reflexivity.
  - vm_compute. reflexivity.
Defined.

(** One iteration of the copy loop that does not throw. *)
Lemma copyOne_effect (targetDir tempDir : Path.t) (diff : FileDiff) (w w' : world) :
  let src := Path.join tempDir (path diff) in
  let dest := Path.join targetDir (path diff) in
  copyOne targetDir tempDir diff w = (inr tt, w') ->
  is_Some (readFileSync (fs w) src)
  /\ readFileSync (fs w') dest = readFileSync (fs w) src
  /\ log w' = log w ++ [EvCopy src dest]
  /\ (forall q c,
        q <> Path.segs dest ->
        lookup (fs w) q = Some (File c) -> lookup (fs w') q = Some (File c))
  /\ (forall q c,
        ~ Path.segs dest `prefix_of` q ->
        lookup (fs w') q = Some (File c) -> lookup (fs w) q = Some (File c)).
Proof.
  intros src dest Hcopy.
  unfold copyOne, bind, ask, emit, change, ret in Hcopy. fold src dest in Hcopy.
  cbn [fs log] in Hcopy.
  assert (Hmk : exists fs1,
    (forall q c, lookup (fs w) q = Some (File c) <-> lookup fs1 q = Some (File c))
    /\ match copyFileSync fs1 src dest with
       | Some fs2 => (inr tt, mkWorld fs2 (log w ++ [EvCopy src dest]))
       | None => (inl Thrown, mkWorld fs1 (log w ++ [EvCopy src dest]))
       end = (inr tt, w')).
  { destruct (existsSync (fs w) (Path.dirname dest)); simpl in Hcopy.
    - exists (fs w). split; [reflexivity|]. exact Hcopy.
    - destruct (mkdirSync (fs w) (Path.dirname dest)) as [fs1|] eqn:Hd;
        [|discriminate].
      exists fs1. split; [|exact Hcopy].
      intros q c. split; intros Hq.
      + eapply lookup_file_mkdirp; eassumption.
      + eapply lookup_file_mkdirp_inv; eassumption. }
  destruct Hmk as (fs1 & Hkeep & Hrest).
  destruct (copyFileSync fs1 src dest) as [fs2|] eqn:Hcp; [|discriminate].
  injection Hrest as <-. cbn [fs log].
  unfold copyFileSync in Hcp.
  destruct (readFileSync fs1 src) as [data|] eqn:Hsrc; [|discriminate].
  assert (Hsrc0 : readFileSync (fs w) src = Some data).
  { apply readFileSync_lookup in Hsrc as [Hl Ht].
    apply lookup_readFileSync; [|exact Ht]. apply Hkeep. exact Hl. }
  rewrite Hsrc0. split; [eauto|]. split.
  { eapply readFileSync_writeFileSync. exact Hcp. }
  split; [reflexivity|].
  destruct (writeFileSync_write_at _ _ _ _ Hcp) as (Hw & _ & Hnd).
  split.
  - intros q c Hne Hq. apply Hkeep in Hq.
    eapply lookup_file_write_at; [exact Hw| |exact Hq].
    intros [k ->]. rewrite lookup_app in Hq.
    destruct (lookup fs1 (Path.segs dest)) as [[c0|es]|] eqn:Hd; simpl in Hq.
    + destruct k; [apply Hne; rewrite app_nil_r; reflexivity|discriminate].
    + exact (Hnd es eq_refl).
    + discriminate.
  - intros q c Hpre Hq. apply Hkeep.
    eapply lookup_file_write_at_inv; eassumption.
Qed.

(** X12: when the copy loop (step 6a) goes through without throwing, for
    diffs with distinct destinations none of which is at or above a
    source, every destination reads afterwards as its source in the
    template did before, every other regular file is as it was, and the
    copies were made in the order of the list. *)
Theorem copyAll_installs :
  forall (targetDir tempDir : Path.t) (diffs : list FileDiff) (w w' : world),
    let src := fun d => Path.join tempDir (path d) in
    let dest := fun d => Path.join targetDir (path d) in
    copyAll targetDir tempDir diffs w = (inr tt, w') ->
    NoDup ((fun d => Path.segs (dest d)) <$> diffs) ->
    (forall d d', d ∈ diffs -> d' ∈ diffs ->
                  ~ Path.segs (dest d) `prefix_of` Path.segs (src d')) ->
    (forall d, d ∈ diffs ->
               is_Some (readFileSync (fs w) (src d))
               /\ readFileSync (fs w') (dest d) = readFileSync (fs w) (src d))
    /\ (forall q c,
          (forall d, d ∈ diffs -> q <> Path.segs (dest d)) ->
          lookup (fs w) q = Some (File c) -> lookup (fs w') q = Some (File c))
    /\ log w' = log w ++ ((fun d => EvCopy (src d) (dest d)) <$> diffs).
Proof.
  intros targetDir tempDir diffs w w' src dest.
  revert w. induction diffs as [|d rest IH]; intros w Hrun Hnd Hsep.
  - injection Hrun as <-. split; [|split].
    + intros d Hd. apply elem_of_nil in Hd as [].
    + auto.
    + simpl. rewrite app_nil_r. reflexivity.
  - cbn [copyAll] in Hrun. unfold bind in Hrun.
    destruct (copyOne targetDir tempDir d w) as [[o|[]] w1] eqn:Hone;
      [discriminate|].
    destruct (copyOne_effect _ _ _ _ _ Hone)
      as (Hsome & Hdest & Hlog & Hfwd & Hbwd).
    fold (src d) (dest d) in Hsome, Hdest, Hlog, Hfwd, Hbwd.
    rewrite fmap_cons in Hnd. apply NoDup_cons in Hnd as [Hnew Hnd].
    destruct (IH w1 Hrun Hnd) as (Hfiles & Hframe & Hlogs).
    { intros a b Ha Hb. apply Hsep; apply elem_of_cons; right; assumption. }
    split; [|split].
    + intros a Ha. apply elem_of_cons in Ha as [->|Ha].
      * split; [exact Hsome|].
        destruct Hsome as [data Hdata]. rewrite Hdata in Hdest |- *.
        apply readFileSync_lookup in Hdest as [Hl Ht].
        apply lookup_readFileSync; [|exact Ht].
        apply Hframe; [|exact Hl].
        intros b Hb Heq. apply Hnew. rewrite Heq.
        apply (list_elem_of_fmap_2 (fun d => Path.segs (dest d))). exact Hb.
      * destruct (Hfiles a Ha) as [[data Hdata] Heq].
        assert (Hsame : readFileSync (fs w) (src a) = Some data).
        { apply readFileSync_lookup in Hdata as [Hl Ht].
          apply lookup_readFileSync; [|exact Ht].
          eapply Hbwd; [|exact Hl].
          apply Hsep; apply elem_of_cons; [left|right]; auto. }
        rewrite Hsame. split; [eauto|]. rewrite Heq. exact Hdata.
    + intros q c Hq Hl. apply Hframe.
      * intros b Hb. apply Hq. apply elem_of_cons. right. exact Hb.
      * apply Hfwd; [|exact Hl]. apply Hq. apply elem_of_cons. left. reflexivity.
    + rewrite Hlogs, Hlog, <- app_assoc. reflexivity.
Qed.

Lemma copyAll_installs_witness :
  let tmp := tempDir (Sample.envWith "2.0.0" false) in
  let diffs := [mkFileDiff "src/lib/b.ts" modified safe;
                mkFileDiff "src/lib/c.ts" added safe] in
  let w := mkWorld Sample.tree [] in
  let w' := (copyAll Sample.project tmp diffs w).2 in
  readFileSync (fs w') (Path.join Sample.project "src/lib/c.ts")
  = readFileSync (fs w) (Path.join tmp "src/lib/c.ts").
Proof.
  intros tmp diffs w w'.
  assert (Hrun : copyAll Sample.project tmp diffs w = (inr tt, w'))
    by (vm_compute; reflexivity).
  assert (Hnd : NoDup ((fun d => Path.segs (Path.join Sample.project (path d)))
                         <$> diffs)).
  { vm_compute. repeat constructor; rewrite ?list_elem_of_singleton;
      try apply not_elem_of_nil; discriminate. }
  assert (Hsep : forall d d', d ∈ diffs -> d' ∈ diffs ->
            ~ Path.segs (Path.join Sample.project (path d))
              `prefix_of` Path.segs (Path.join tmp (path d'))).
  { intros d d' Hd Hd' [k Hk].
    apply list_elem_of_In in Hd, Hd'. simpl in Hd, Hd'.
    destruct Hd as [<-|[<-|[]]]; destruct Hd' as [<-|[<-|[]]];
      vm_compute in Hk; discriminate Hk. }
  destruct (copyAll_installs Sample.project tmp diffs w w' Hrun Hnd Hsep)
    as (Hfiles & _).
  apply (Hfiles (mkFileDiff "src/lib/c.ts" added safe)).
  apply elem_of_cons. right. apply elem_of_cons. left. reflexivity.
Defined.

End FilesWritten.

(** ** Paths of files below a directory *)

Section PathRoundTrip.

Import Path PathSpec TreeSpec.

Lemma validName_spec (s : string) :
  validName s = true ->
  String.eqb s "" = false /\ String.eqb s "." = false
  /\ String.eqb s ".." = false /\ hasSlash s = false.
Proof.
  unfold validName. intros H.
  repeat (apply andb_true_iff in H as [H ?]).
  repeat split; apply negb_true_iff; assumption.
Qed.

Lemma push_valid kept (s : string) : validName s = true -> push kept s = kept ++ [s].
Proof.
  intros H. apply validName_spec in H as (H1 & H2 & H3 & _).
  unfold push. rewrite H1, H2, H3. reflexivity.
Qed.

Lemma normalize_onto_valid kept names :
  Forall (fun s => validName s = true) names ->
  normalize_onto kept names = kept ++ names.
Proof.
  intros H. revert kept. induction H as [|s names Hs _ IH]; intros kept.
  - simpl. rewrite app_nil_r. reflexivity.
  - unfold normalize_onto in *. simpl. rewrite push_valid by exact Hs.
    rewrite IH, <- app_assoc. reflexivity.
Qed.

Lemma normalize_onto_clean kept pieces :
  ".." ∉ pieces -> normalize_onto kept pieces = kept ++ clean pieces.
Proof.
  revert kept. induction pieces as [|s pieces IH]; intros kept Hno.
  - simpl. rewrite app_nil_r. reflexivity.
  - apply not_elem_of_cons in Hno as [Hs Hno].
    unfold normalize_onto in *. simpl. rewrite (IH _ Hno).
    unfold push, clean. simpl.
    destruct (String.eqb_spec s ""); [reflexivity|].
    destruct (String.eqb_spec s "."); [reflexivity|].
    destruct (String.eqb_spec s ".."); [congruence|].
    simpl. rewrite <- app_assoc. reflexivity.
Qed.

Lemma split_app_slash (s t : string) :
  split (s ++ String "/" t) = split s ++ split t.
Proof.
  induction s as [|c s IH]; [reflexivity|]. simpl.
  destruct (Ascii.eqb c "/").
  - rewrite IH. reflexivity.
  - rewrite IH. pose proof (split_not_nil s) as Hs.
    destruct (split s) as [|piece pieces]; [congruence|]. reflexivity.
Qed.

Lemma split_concat names :
  Forall (fun s => hasSlash s = false) names -> names <> [] ->
  split (String.concat "/" names) = names.
Proof.
  induction 1 as [|x names Hx Hall IH]; intros Hne; [congruence|].
  destruct names as [|y names].
  - simpl. apply split_no_slash, Hx.
  - change (String.concat "/" (x :: y :: names))
      with (x ++ String "/" (String.concat "/" (y :: names)))%string.
    rewrite split_app_slash, IH by discriminate.
    rewrite split_no_slash by exact Hx. reflexivity.
Qed.

Lemma endsWithSlash_app (a b : string) :
  b <> ""%string -> endsWithSlash (a ++ b) = endsWithSlash b.
Proof.
  intros Hb. induction a as [|c a IH]; [reflexivity|].
  change (String c a ++ b)%string with (String c (a ++ b)).
  destruct (a ++ b)%string as [|c' r] eqn:E.
  - destruct a; simpl in E; [exfalso; exact (Hb E)|discriminate].
  - change (endsWithSlash (String c (String c' r)))
      with (endsWithSlash (String c' r)). exact IH.
Qed.

Lemma concat_not_empty names :
  Forall (fun s => validName s = true) names -> names <> [] ->
  String.concat "/" names <> ""%string.
Proof.
  intros Hall Hne. destruct names as [|x names]; [congruence|].
  apply Forall_cons in Hall as [Hx _].
  apply validName_spec in Hx as (Hx & _).
  apply String.eqb_neq in Hx.
  destruct names; simpl; [exact Hx|].
  destruct x; [congruence|discriminate].
Qed.

Lemma endsWithSlash_concat names :
  Forall (fun s => validName s = true) names ->
  endsWithSlash (String.concat "/" names) = false.
Proof.
  induction 1 as [|x names Hx Hall IH]; [reflexivity|].
  destruct names as [|y names].
  - simpl. apply endsWithSlash_no_slash.
    apply validName_spec in Hx. tauto.
  - change (String.concat "/" (x :: y :: names))
      with (x ++ String "/" (String.concat "/" (y :: names)))%string.
    rewrite endsWithSlash_app by discriminate.
    pose proof (concat_not_empty (y :: names) Hall ltac:(discriminate)) as Hne.
    destruct (String.concat "/" (y :: names)) as [|c r] eqn:E; [congruence|].
    exact IH.
Qed.

Lemma valid_no_slash names :
  Forall (fun s => validName s = true) names ->
  Forall (fun s => hasSlash s = false) names.
Proof.
  intros H. eapply Forall_impl; [exact H|].
  intros s Hs. apply validName_spec in Hs. tauto.
Qed.

(** [join] undoes [relative] for what lies below the base. *)
Lemma join_concat (base : t) names :
  Forall (fun s => validName s = true) names -> names <> [] ->
  join base (String.concat "/" names) = mk (segs base ++ names) false.
Proof.
  intros Hall Hne. unfold join.
  pose proof (concat_not_empty names Hall Hne) as Hc.
  apply String.eqb_neq in Hc. rewrite Hc.
  rewrite split_concat by (auto using valid_no_slash).
  rewrite normalize_onto_valid by exact Hall.
  rewrite endsWithSlash_concat by exact Hall. reflexivity.
Qed.

Lemma drop_common_below (a more : list string) :
  drop_common a (a ++ more) = ([], more).
Proof.
  induction a as [|x a IH]; simpl.
  - destruct more; reflexivity.
  - rewrite String.eqb_refl. exact IH.
Qed.

Lemma relative_concat (base full : t) more :
  segs full = segs base ++ more -> relative base full = String.concat "/" more.
Proof.
  intros H. unfold relative. rewrite H, drop_common_below. reflexivity.
Qed.

Lemma join_name (dir : t) (name : string) :
  validName name = true -> join dir name = mk (segs dir ++ [name]) false.
Proof.
  intros H. apply (join_concat dir [name]); [|discriminate].
  constructor; [exact H|constructor].
Qed.

Lemma split_pieces_no_slash (s : string) :
  Forall (fun x => hasSlash x = false) (split s).
Proof.
  induction s as [|c s IH]; [repeat constructor|]. simpl.
  destruct (Ascii.eqb c "/") eqn:E; [constructor; [reflexivity|exact IH]|].
  pose proof (split_not_nil s) as Hs.
  destruct (split s) as [|piece pieces]; [congruence|].
  apply Forall_cons in IH as [Hp Hps].
  constructor; [|exact Hps]. simpl. rewrite E. exact Hp.
Qed.

Lemma clean_valid pieces :
  ".." ∉ pieces -> Forall (fun x => hasSlash x = false) pieces ->
  Forall (fun s => validName s = true) (clean pieces).
Proof.
  intros Hno Hall. unfold clean. apply Forall_forall. intros s Hs.
  apply list_elem_of_In, filter_In in Hs as [Hin Hs].
  apply andb_true_iff in Hs as [H1 H2].
  unfold validName. rewrite H1, H2. simpl.
  apply list_elem_of_In in Hin.
  rewrite (proj1 (Forall_forall _ _) Hall s Hin). simpl.
  rewrite andb_true_r. apply negb_true_iff, String.eqb_neq.
  intros ->. exact (Hno Hin).
Qed.

End PathRoundTrip.

Section TreeWalk.

Import Fs Diff TreeSpec.

Lemma wfNode_dir es :
  wfNode (Dir es) = true <->
  NoDup es.*1 /\ Forall (fun e => validName e.1 = true /\ wfNode e.2 = true) es.
Proof.
  cbn [wfNode]. rewrite andb_true_iff, bool_decide_eq_true.
  apply and_iff_compat_l.
  induction es as [|[name child] es IH].
  - split; [constructor|reflexivity].
  - rewrite Forall_cons, !andb_true_iff, IH. simpl. tauto.
Qed.


Lemma find_entry_Some es name child :
  find_entry name es = Some child -> (name, child) ∈ es.
Proof.
  induction es as [|[n c] es IH]; [discriminate|]. simpl.
  destruct (String.eqb_spec n name) as [->|Hne].
  - intros [= ->]. apply elem_of_cons. left. reflexivity.
  - intros H. apply elem_of_cons. right. apply IH, H.
Qed.

Lemma find_entry_elem es name child :
  NoDup es.*1 -> (name, child) ∈ es -> find_entry name es = Some child.
Proof.
  induction es as [|[n c] es IH]; intros Hnd Hin.
  - apply elem_of_nil in Hin as [].
  - rewrite fmap_cons in Hnd. apply NoDup_cons in Hnd as [Hnew Hnd]. simpl in *.
    apply elem_of_cons in Hin as [[= -> ->]|Hin].
    + rewrite String.eqb_refl. reflexivity.
    + destruct (String.eqb_spec n name) as [->|Hne]; [|apply IH; assumption].
      exfalso. apply Hnew.
      apply (list_elem_of_fmap_2 fst) in Hin. exact Hin.
Qed.

(** In a well-formed tree every path that resolves is made of file names
    and leads to a well-formed tree. *)
Lemma lookup_wf more :
  forall n x, wfNode n = true -> lookup n more = Some x ->
              Forall (fun s => validName s = true) more /\ wfNode x = true.
Proof.
  induction more as [|s more IH]; intros n x Hwf Hl.
  - injection Hl as <-. split; [constructor|exact Hwf].
  - destruct n as [c|es]; [discriminate|]. cbn [lookup] in Hl.
    destruct (find_entry s es) as [child|] eqn:Hf; [|discriminate].
    apply wfNode_dir in Hwf as [_ Hall].
    apply find_entry_Some in Hf.
    destruct (proj1 (Forall_forall _ _) Hall _ Hf) as [Hs Hchild].
    destruct (IH _ _ Hchild Hl) as [Hmore Hx].
    split; [constructor; assumption|exact Hx].
Qed.





End TreeWalk.

Section DiffMore.

Import Fs Diff TreeSpec.



Lemma diffLoop_paths fs currentDir freshDir safeFiles :
  forall diffs,
    diffLoop fs currentDir freshDir safeFiles = Some diffs ->
    path <$> diffs
    = List.filter (fun f => existsSync fs (Path.join freshDir f)) safeFiles.
Proof.
  induction safeFiles as [|f rest IH]; intros diffs H.
  - injection H as <-. reflexivity.
  - cbn [diffLoop] in H.
    destruct (diffFile fs currentDir freshDir f) as [d|] eqn:Hd; [|discriminate].
    simpl in H.
    destruct (diffLoop fs currentDir freshDir rest) as [ds|]; [|discriminate].
    simpl in H. injection H as <-. specialize (IH ds eq_refl).
    unfold diffFile in Hd. cbn [List.filter].
    destruct (existsSync fs (Path.join freshDir f)); simpl in Hd.
    + destruct (existsSync fs (Path.join currentDir f)); simpl in Hd.
      * destruct (readFileSync fs (Path.join currentDir f)); [|discriminate].
        destruct (readFileSync fs (Path.join freshDir f)); [|discriminate].
        simpl in Hd. destruct (String.eqb _ _); injection Hd as <-;
          rewrite fmap_cons, IH; reflexivity.
      * injection Hd as <-. rewrite fmap_cons, IH. reflexivity.
    + injection Hd as <-. exact IH.
Qed.

(** X14: when [diffProjects] returns, the paths it reports are the
    expanded safe paths that exist under the fresh root, in the order of the
    expansion, and none is reported twice. *)
Theorem diffProjects_reports_each_once :
  forall (fs : node) (currentDir freshDir : Path.t) (manifest : UpgradeManifest)
         (diffs : list FileDiff),
    diffProjects fs currentDir freshDir manifest = Some diffs ->
    exists safeFiles,
      expandPaths fs (files_safe (files manifest)) freshDir = Some safeFiles
      /\ path <$> diffs
         = List.filter (fun f => existsSync fs (Path.join freshDir f)) safeFiles
      /\ NoDup (path <$> diffs).
Proof.
  intros fs currentDir freshDir manifest diffs H. unfold diffProjects in H.
  destruct (expandPaths_total fs (files_safe (files manifest)) freshDir)
    as (safeFiles & Hexp & Hnd).
  rewrite Hexp in H. simpl in H. apply diffLoop_paths in H.
  exists safeFiles. split; [exact Hexp|]. split; [exact H|].
  rewrite H. apply NoDup_ListNoDup, List.NoDup_filter, NoDup_ListNoDup, Hnd.
Qed.

Lemma diffProjects_reports_each_once_witness :
  let manifest := Sample.manifestOf ["src/lib/"; "tsconfig.json"; "src/lib/a.ts";
                                     "README.md"] in
  let diffs := default [] (diffProjects Sample.tree Sample.project Sample.fresh
                             manifest) in
  path <$> diffs = ["src/lib/a.ts"; "src/lib/b.ts"; "src/lib/c.ts"; "tsconfig.json"]
  /\ NoDup (path <$> diffs).
Proof.
  intros manifest diffs. split; [vm_compute; reflexivity|].
  destruct (diffProjects_reports_each_once Sample.tree Sample.project Sample.fresh
              manifest diffs) as (safeFiles & _ & _ & Hnd).
  - vm_compute. reflexivity.
  - exact Hnd.
Defined.




End DiffMore.

(** ** What a run writes and what it leaves alone *)

Section EffectRules.

Import Fs Upgrade Effects.

Lemma yields_keep {A} R (m : M A) :
  (forall w, (m w).2 = w) -> (forall fs, R fs [] fs) -> yields R m.
Proof. intros Hm Hr w. exists []. rewrite Hm, app_nil_r. auto. Qed.

Lemma yields_emit R e : (forall fs, R fs [e] fs) -> yields R (emit e).
Proof. intros H w. exists [e]. split; [reflexivity|apply H]. Qed.

Lemma yields_change R f :
  (forall fs, R fs [] fs) ->
  (forall fs fs', f fs = Some fs' -> R fs [] fs') ->
  yields R (change f).
Proof.
  intros Hr Hf w. exists []. unfold change.
  destruct (f (fs w)) eqn:E; simpl; rewrite app_nil_r; auto.
Qed.

Lemma yields_cleanup R env dir :
  (forall fs, R fs [EvCleanup dir] fs) ->
  (forall fs, R fs [EvCleanup dir] (remove_at fs (Path.segs dir))) ->
  yields R (cleanup env dir).
Proof.
  intros H1 H2 w. exists [EvCleanup dir]. unfold cleanup. simpl.
  split; [reflexivity|].
  destruct (existsSync _ _); [destruct (rmThrows env)|]; auto.
Qed.

Lemma yields_bind {A B} R1 R2 R (m : M A) (k : A -> M B) :
  yields R1 m -> (forall a, yields R2 (k a)) ->
  (forall f0 e1 f1, R1 f0 e1 f1 -> R f0 e1 f1) ->
  (forall f0 e1 f1 e2 f2, R1 f0 e1 f1 -> R2 f1 e2 f2 -> R f0 (e1 ++ e2) f2) ->
  yields R (bind m k).
Proof.
  intros Hm Hk Hstop Hseq w. unfold bind.
  destruct (Hm w) as (e1 & Hlog1 & H1).
  destruct (m w) as [[o|a] w1]; simpl in Hlog1, H1.
  - exists e1. simpl. auto.
  - destruct (Hk a w1) as (e2 & Hlog2 & H2).
    exists (e1 ++ e2). rewrite Hlog2, Hlog1, app_assoc. eauto.
Qed.

Lemma yields_if {A} R (b : bool) (m1 m2 : M A) :
  yields R m1 -> yields R m2 -> yields R (if b then m1 else m2).
Proof. destruct b; auto. Qed.

Lemma readVelocityConfig_world h dir w : (readVelocityConfig h dir w).2 = w.
Proof.
  unfold readVelocityConfig, bind, ask, readJson, try, ret.
  destruct (existsSync _ _); simpl; [|reflexivity].
  destruct (_ ≫= _); reflexivity.
Qed.

Lemma loadManifest_world h tmp config w : (loadManifest h tmp config w).2 = w.
Proof.
  unfold loadManifest, bind, ask, readJson, try, ret.
  destruct (existsSync (fs w) (Path.join tmp "velocity-manifest.json")).
  - destruct (_ ≫= _); reflexivity.
  - destruct (existsSync (fs w) (Path.join tmp "package.json")); [|reflexivity].
    destruct (_ ≫= _); reflexivity.
Qed.

Lemma mergePackageJsonDeps_keeps h fs fs' targetDir manifest q c :
  Deps.mergePackageJsonDeps h fs targetDir manifest = Some fs' ->
  ~ Path.segs (Path.join targetDir "package.json") `prefix_of` q ->
  lookup fs q = Some (File c) -> lookup fs' q = Some (File c).
Proof.
  unfold Deps.mergePackageJsonDeps. intros Hm Hpre Hq.
  destruct (existsSync fs (Path.join targetDir "package.json")); simpl in Hm.
  - destruct (readFileSync fs (Path.join targetDir "package.json")) as [text|];
      [|discriminate].
    simpl in Hm. destruct (parsePackage h text) as [pkg|]; [|discriminate].
    simpl in Hm. eapply writeFileSync_keeps_file; eassumption.
  - injection Hm as <-. exact Hq.
Qed.

End EffectRules.

Section Respect.

Import Fs Upgrade Effects.

Variables (h : Host) (env : Env) (options : UpgradeOptions).

Lemma outside_app special e1 e2 q :
  outside special (e1 ++ e2) q -> outside special e1 q /\ outside special e2 q.
Proof.
  intros [Hs Hc]. split; (split; [exact Hs|]); intros src dest Hin;
    apply (Hc src dest), elem_of_app; auto.
Qed.

Lemma respects_refl fs : respects env options fs [] fs.
Proof. split; [constructor|]. intros q c _ Hq. exact Hq. Qed.

Lemma respects_trans f0 e1 f1 e2 f2 :
  respects env options f0 e1 f1 -> respects env options f1 e2 f2 ->
  respects env options f0 (e1 ++ e2) f2.
Proof.
  intros [Hp1 Hk1] [Hp2 Hk2]. split; [apply Forall_app; auto|].
  intros q c Hout Hq. apply outside_app in Hout as [Ho1 Ho2].
  apply Hk2; [exact Ho2|]. apply Hk1; assumption.
Qed.

Lemma respects_step {A B} (m : M A) (k : A -> M B) :
  yields (respects env options) m ->
  (forall a, yields (respects env options) (k a)) ->
  yields (respects env options) (bind m k).
Proof.
  intros Hm Hk. eapply yields_bind; [exact Hm|exact Hk|auto|].
  intros. eapply respects_trans; eassumption.
Qed.

Lemma respects_ret {A} (a : A) : yields (respects env options) (ret a).
Proof. apply yields_keep; [reflexivity|apply respects_refl]. Qed.

Lemma respects_stop {A} o : yields (respects env options) (@stop A o).
Proof. apply yields_keep; [reflexivity|apply respects_refl]. Qed.

Lemma respects_ask {A} (f : node -> A) : yields (respects env options) (ask f).
Proof. apply yields_keep; [reflexivity|apply respects_refl]. Qed.

Lemma respects_try {A} (f : node -> option A) : yields (respects env options) (try f).
Proof.
  apply yields_keep; [|apply respects_refl].
  intros w. unfold try. destruct (f (fs w)); reflexivity.
Qed.

Lemma respects_emit e : permitted env options e -> yields (respects env options) (emit e).
Proof.
  intros He. apply yields_emit. intros fs. split; [repeat constructor; exact He|].
  intros q c _ Hq. exact Hq.
Qed.

Lemma respects_change f :
  (forall fs fs' q c,
     f fs = Some fs' ->
     (forall p, p ∈ touched env options -> ~ p `prefix_of` q) ->
     lookup fs q = Some (File c) -> lookup fs' q = Some (File c)) ->
  yields (respects env options) (change f).
Proof.
  intros Hf. apply yields_change; [apply respects_refl|].
  intros fs fs' E. split; [constructor|].
  intros q c [Hs _] Hq. eapply Hf; eassumption.
Qed.

Lemma respects_cleanup : yields (respects env options) (cleanup env (tempDir env)).
Proof.
  apply yields_cleanup; intros fs; (split; [repeat constructor|]);
    intros q c [Hs _] Hq; [exact Hq|].
  apply lookup_file_remove_at; [|exact Hq].
  apply Hs. apply elem_of_cons. left. reflexivity.
Qed.

Lemma respects_world {A} (m : M A) :
  (forall w, (m w).2 = w) -> yields (respects env options) m.
Proof. intros H. apply yields_keep; [exact H|apply respects_refl]. Qed.

Lemma touched_config :
  dryRun options = false ->
  Path.segs (Path.join (targetDir options) CONFIG_FILENAME) ∈ touched env options.
Proof.
  intros Hdry. unfold touched. rewrite Hdry.
  apply elem_of_cons. right. apply elem_of_cons. left. reflexivity.
Qed.

Lemma touched_package :
  dryRun options = false -> proceedAnswer env = true ->
  Path.segs (Path.join (targetDir options) "package.json") ∈ touched env options.
Proof.
  intros Hdry Hyes. unfold touched. rewrite Hdry, Hyes.
  do 2 (apply elem_of_cons; right). apply elem_of_cons. left. reflexivity.
Qed.

Lemma respects_writeVelocityConfig config :
  dryRun options = false ->
  yields (respects env options) (writeVelocityConfig h (targetDir options) config).
Proof.
  intros Hdry. unfold writeVelocityConfig, writeJson.
  apply respects_step; [apply respects_emit; exact Hdry|intros _].
  apply respects_change. intros fs fs' q c Hw Hs Hq.
  eapply writeFileSync_keeps_file; [exact Hw| |exact Hq].
  apply Hs, touched_config, Hdry.
Qed.

Lemma respects_copyOne d :
  dryRun options = false -> proceedAnswer env = true ->
  yields (respects env options) (copyOne (targetDir options) (tempDir env) d).
Proof.
  intros Hdry Hyes. unfold copyOne.
  apply respects_step; [apply respects_ask|intros present].
  apply respects_step.
  { apply yields_if; [|apply respects_ret].
    apply respects_change. intros fs fs' q c Hm _ Hq.
    eapply lookup_file_mkdirp; eassumption. }
  intros _.
  eapply yields_bind with
    (R1 := fun f0 e f1 => e = [EvCopy (Path.join (tempDir env) (path d))
                                      (Path.join (targetDir options) (path d))]
                          /\ f1 = f0)
    (R2 := fun f1 e f2 =>
             e = [] /\ (f2 = f1
                        \/ copyFileSync f1 (Path.join (tempDir env) (path d))
                             (Path.join (targetDir options) (path d)) = Some f2)).
  - apply yields_emit. auto.
  - intros _. apply yields_change; [auto|]. intros fs fs' E. auto.
  - intros f0 e1 f1 [-> ->]. split.
    + repeat constructor; eauto.
    + intros q c _ Hq. exact Hq.
  - intros f0 e1 f1 e2 f2 [-> ->] [-> Hcp]. split.
    + repeat constructor; eauto.
    + intros q c [_ Hc] Hq. destruct Hcp as [->|Hcp]; [exact Hq|].
      unfold copyFileSync in Hcp.
      destruct (readFileSync f0 _) as [data|]; [|discriminate].
      eapply writeFileSync_keeps_file; [exact Hcp| |exact Hq].
      eapply Hc. apply elem_of_app. left. apply elem_of_cons. left. reflexivity.
Qed.

Lemma respects_copyAll diffs :
  dryRun options = false -> proceedAnswer env = true ->
  yields (respects env options) (copyAll (targetDir options) (tempDir env) diffs).
Proof.
  intros Hdry Hyes. induction diffs as [|d diffs IH]; cbn [copyAll].
  - apply respects_ret.
  - apply respects_step; [apply respects_copyOne; assumption|intros _; exact IH].
Qed.

Lemma respects_scanMigrations manifest :
  yields (respects env options)
         (scanMigrations h env (targetDir options) manifest).
Proof.
  unfold scanMigrations.
  apply respects_step; [apply respects_emit; exact I|intros _; apply respects_try].
Qed.

Lemma respects_cleanup_stop {A} o :
  yields (respects env options) (bind (cleanup env (tempDir env)) (fun _ => @stop A o)).
Proof. apply respects_step; [apply respects_cleanup|intros _; apply respects_stop]. Qed.

Lemma respects_diffAndApply config manifest :
  yields (respects env options) (diffAndApply h env options config manifest).
Proof.
  unfold diffAndApply.
  apply respects_step; [apply respects_emit; exact I|intros _].
  apply respects_step; [apply respects_try|intros diffs]. cbv zeta.
  destruct (_ && _)%bool.
  { apply respects_step; [|intros _; apply respects_cleanup_stop].
    destruct (dryRun options) eqn:Hdry; simpl;
      [apply respects_ret|apply respects_writeVelocityConfig; exact Hdry]. }
  destruct (dryRun options) eqn:Hdry.
  { apply respects_step; [apply respects_scanMigrations|intros _].
    apply respects_cleanup_stop. }
  simpl. destruct (proceedAnswer env) eqn:Hyes; simpl;
    [|apply respects_cleanup_stop].
  apply respects_step; [apply respects_copyAll; assumption|intros _].
  apply respects_step.
  { apply yields_if; [|apply respects_ret].
    apply respects_step; [apply respects_emit; split; assumption|intros _].
    apply respects_change. intros fs fs' q c Hm Hs Hq.
    eapply mergePackageJsonDeps_keeps; [exact Hm| |exact Hq].
    apply Hs, touched_package; assumption. }
  intros _.
  apply respects_step; [apply respects_writeVelocityConfig; exact Hdry|intros _].
  apply respects_step; [apply respects_scanMigrations|intros _].
  apply respects_cleanup.
Qed.

Lemma respects_gate config manifest :
  yields (respects env options) (gate h env options config manifest).
Proof.
  unfold gate. repeat case_match; try apply respects_cleanup_stop.
  apply respects_diffAndApply.
Qed.

Lemma respects_withTemplate config :
  yields (respects env options) (withTemplate h env options config).
Proof.
  unfold withTemplate.
  apply respects_step; [apply respects_emit; reflexivity|intros _].
  intros w. destruct (downloadTemplate env (tempDir env) (fs w)) as [fs1|] eqn:Hd.
  - destruct (respects_step (loadManifest h (tempDir env) config)
                (fun manifest => gate h env options config manifest)
                (respects_world _ (loadManifest_world _ _ _))
                (respects_gate config) (mkWorld fs1 (log w)))
      as (evs & Hlog & HT).
    exists evs. split; [exact Hlog|].
    apply (respects_trans (fs w) [] fs1 evs _); [|exact HT].
    split; [constructor|]. intros q c [Hs _] Hq.
    unfold downloadTemplate in Hd.
    destruct (template env) as [tree|]; [|discriminate]. simpl in Hd.
    eapply install_keeps_file; [exact Hd| |exact Hq].
    apply Hs. apply elem_of_cons. left. reflexivity.
  - apply respects_cleanup_stop.
Qed.

Lemma respects_upgrade : yields (respects env options) (upgrade h env options).
Proof.
  unfold upgrade.
  apply respects_step;
    [apply respects_world; intros w; apply readVelocityConfig_world|].
  intros [config|]; [|apply respects_stop].
  destruct (_ && _)%bool; [apply respects_stop|apply respects_withTemplate].
Qed.

End Respect.

Section RunEffects.

Import Fs Upgrade Effects.

(** X16: whichever way a run of [upgrade] ends, an exception included, a
    regular file survives with its content when it is not at or below the
    temporary directory, the version marker, the package descriptor of the
    project or the destination of a copy that the run made. *)
Theorem upgrade_leaves_other_files :
  forall (h : Host) (env : Env) (options : UpgradeOptions) (w : world),
    exists evs,
      log (upgrade h env options w).2 = log w ++ evs
      /\ forall q c,
           lookup (fs w) q = Some (File c) ->
           ~ Path.segs (tempDir env) `prefix_of` q ->
           ~ Path.segs (Path.join (targetDir options) CONFIG_FILENAME) `prefix_of` q ->
           ~ Path.segs (Path.join (targetDir options) "package.json") `prefix_of` q ->
           (forall src dest, EvCopy src dest ∈ evs ->
                             ~ Path.segs dest `prefix_of` q) ->
           lookup (fs (upgrade h env options w).2) q = Some (File c).
Proof.
  intros h env options w.
  destruct (respects_upgrade h env options w) as (evs & Hlog & _ & Hkeep).
  exists evs. split; [exact Hlog|].
  intros q c Hq Htmp Hconfig Hpkg Hcopies. apply (Hkeep q c); [|exact Hq].
  split; [|exact Hcopies].
  intros p Hp. unfold touched in Hp.
  apply elem_of_cons in Hp as [->|Hp]; [exact Htmp|].
  destruct (dryRun options); [apply elem_of_nil in Hp as []|].
  apply elem_of_cons in Hp as [->|Hp]; [exact Hconfig|].
  destruct (proceedAnswer env); [|apply elem_of_nil in Hp as []].
  apply list_elem_of_singleton in Hp as ->. exact Hpkg.
Qed.

(** X17: every event of a run is permitted: files are copied and
    dependencies merged only when the run is not a dry run and the user
    confirmed, each copy goes from a path of the template to the same
    relative path of the project, the version marker is written only when
    the run is not a dry run, and the only directory downloaded to and
    cleaned up is the temporary directory of the run. *)
Theorem upgrade_writes_need_consent :
  forall (h : Host) (env : Env) (options : UpgradeOptions) (w : world),
    exists evs,
      log (upgrade h env options w).2 = log w ++ evs
      /\ forall e, e ∈ evs ->
           match e with
           | EvCopy src dest =>
               dryRun options = false /\ proceedAnswer env = true
               /\ exists p, src = Path.join (tempDir env) p
                            /\ dest = Path.join (targetDir options) p
           | EvMergeDeps => dryRun options = false /\ proceedAnswer env = true
           | EvWriteConfig => dryRun options = false
           | EvDownload dir => dir = tempDir env
           | EvCleanup dir => dir = tempDir env
           | EvDiff | EvScan => True
           end.
Proof.
  intros h env options w.
  destruct (respects_upgrade h env options w) as (evs & Hlog & Hperm & _).
  exists evs. split; [exact Hlog|].
  intros e He. exact (proj1 (Forall_forall _ _) Hperm e He).
Qed.

(** X18: a dry run writes nothing: it copies no file, merges no dependency
    and does not write the version marker, and every regular file that is
    not at or below the temporary directory is afterwards as it was. *)
Theorem upgrade_dry_run :
  forall (h : Host) (env : Env) (options : UpgradeOptions) (w : world),
    dryRun options = true ->
    exists evs,
      log (upgrade h env options w).2 = log w ++ evs
      /\ (forall e, e ∈ evs -> isWrite e = false)
      /\ forall q c,
           ~ Path.segs (tempDir env) `prefix_of` q ->
           lookup (fs w) q = Some (File c) ->
           lookup (fs (upgrade h env options w).2) q = Some (File c).
Proof.
  intros h env options w Hdry.
  destruct (respects_upgrade h env options w) as (evs & Hlog & Hperm & Hkeep).
  exists evs. split; [exact Hlog|].
  assert (Hquiet : forall e, e ∈ evs -> isWrite e = false).
  { intros e He. pose proof (proj1 (Forall_forall _ _) Hperm e He) as Hp.
    destruct e; try reflexivity; simpl in Hp; rewrite Hdry in Hp.
    - destruct Hp as [Hp _]. discriminate.
    - destruct Hp as [Hp _]. discriminate.
    - discriminate. }
  split; [exact Hquiet|].
  intros q c Htmp Hq. apply (Hkeep q c); [|exact Hq]. split.
  - intros p Hp. unfold touched in Hp. rewrite Hdry in Hp.
    apply list_elem_of_singleton in Hp as ->. exact Htmp.
  - intros src dest Hin. apply Hquiet in Hin. discriminate.
Qed.

Lemma upgrade_dry_run_witness :
  let options := mkUpgradeOptions Sample.project true true in
  let w := mkWorld (Sample.diskBefore "site") [] in
  let w' := (upgrade Sample.host (Sample.envWith "2.0.0" false) options w).2 in
  log w' = [EvDownload Sample.fresh; EvDiff; EvScan; EvCleanup Sample.fresh]
  /\ forall q c,
       ~ Path.segs Sample.fresh `prefix_of` q ->
       lookup (fs w) q = Some (File c) -> lookup (fs w') q = Some (File c).
Proof.
  intros options w w'. split; [vm_compute; reflexivity|].
  destruct (upgrade_dry_run Sample.host (Sample.envWith "2.0.0" false) options w
              eq_refl) as (evs & _ & _ & Hkeep).
  exact Hkeep.
Defined.

End RunEffects.

Section Order.

Import Fs Upgrade Effects.

Variables (h : Host) (env : Env) (options : UpgradeOptions).

Lemma only_step {A B} P (m : M A) (k : A -> M B) :
  yields (only P) m -> (forall a, yields (only P) (k a)) ->
  yields (only P) (bind m k).
Proof.
  intros Hm Hk. eapply yields_bind; [exact Hm|exact Hk|auto|].
  intros f0 e1 f1 e2 f2 H1 H2. apply Forall_app. split; assumption.
Qed.

Lemma only_world {A} P (m : M A) : (forall w, (m w).2 = w) -> yields (only P) m.
Proof. intros H. apply yields_keep; [exact H|]. intros fs. constructor. Qed.

Lemma only_try {A} P (f : node -> option A) : yields (only P) (try f).
Proof.
  apply only_world. intros w. unfold try. destruct (f (fs w)); reflexivity.
Qed.

Lemma only_emit P e : P e -> yields (only P) (emit e).
Proof. intros He. apply yields_emit. intros fs. repeat constructor. exact He. Qed.

Lemma only_change P f : yields (only P) (change f).
Proof. apply yields_change; intros; constructor. Qed.

Lemma only_cleanup P dir : P (EvCleanup dir) -> yields (only P) (cleanup env dir).
Proof. intros He. apply yields_cleanup; intros fs; repeat constructor; exact He. Qed.

Lemma only_cleanup_stop {A} P dir o :
  P (EvCleanup dir) ->
  yields (only P) (bind (cleanup env dir) (fun _ => @stop A o)).
Proof.
  intros He. apply only_step; [apply only_cleanup, He|intros _].
  apply only_world. reflexivity.
Qed.

Lemma only_scanMigrations P dir manifest :
  P EvScan -> yields (only P) (scanMigrations h env dir manifest).
Proof.
  intros He. unfold scanMigrations.
  apply only_step; [apply only_emit, He|intros _; apply only_try].
Qed.

Lemma only_copyAll P targetDir tmp diffs :
  (forall src dest, P (EvCopy src dest)) ->
  yields (only P) (copyAll targetDir tmp diffs).
Proof.
  intros He. induction diffs as [|d diffs IH]; cbn [copyAll].
  - apply only_world. reflexivity.
  - apply only_step; [|intros _; exact IH]. unfold copyOne.
    apply only_step; [apply only_world; reflexivity|intros present].
    apply only_step;
      [apply yields_if; [apply only_change|apply only_world; reflexivity]|].
    intros _. apply only_step; [apply only_emit, He|intros _; apply only_change].
Qed.

Lemma ordered_of_notMarker {A} (m : M A) :
  yields (only notMarker) m -> yields ordered m.
Proof.
  intros Hm w. destruct (Hm w) as (evs & Hlog & Hall).
  exists evs. split; [exact Hlog|].
  exists evs, []. rewrite app_nil_r. auto.
Qed.

Lemma ordered_step {A B} (m : M A) (k : A -> M B) :
  yields (only notMarker) m -> (forall a, yields ordered (k a)) ->
  yields ordered (bind m k).
Proof.
  intros Hm Hk. eapply yields_bind; [exact Hm|exact Hk| |].
  - intros f0 e1 f1 H1. exists e1, []. rewrite app_nil_r. auto.
  - intros f0 e1 f1 e2 f2 H1 (pre & post & -> & Hpre & Hpost).
    exists (e1 ++ pre), post. rewrite app_assoc.
    split; [reflexivity|]. split; [apply Forall_app; split; assumption|exact Hpost].
Qed.

Lemma ordered_marker {B} dir config (k : M B) :
  yields (only notWrite) k ->
  yields ordered (bind (writeVelocityConfig h dir config) (fun _ => k)).
Proof.
  intros Hk.
  eapply yields_bind with (R1 := fun _ e _ => e = [EvWriteConfig])
                          (R2 := only notWrite).
  - unfold writeVelocityConfig, writeJson.
    eapply yields_bind with (R1 := fun _ e _ => e = [EvWriteConfig])
                            (R2 := fun _ e _ => e = []).
    + apply yields_emit. reflexivity.
    + intros _. apply yields_change; reflexivity.
    + auto.
    + intros f0 e1 f1 e2 f2 -> ->. reflexivity.
  - intros _. exact Hk.
  - intros f0 e1 f1 ->. exists [], [EvWriteConfig].
    split; [reflexivity|]. split; [constructor|]. right. exists [].
    split; [reflexivity|constructor].
  - intros f0 e1 f1 e2 f2 -> H2. exists [], (EvWriteConfig :: e2).
    split; [reflexivity|]. split; [constructor|]. right. exists e2.
    split; [reflexivity|exact H2].
Qed.

Lemma ordered_diffAndApply config manifest :
  yields ordered (diffAndApply h env options config manifest).
Proof.
  unfold diffAndApply.
  apply ordered_step; [apply only_emit; discriminate|intros _].
  apply ordered_step; [apply only_try|intros diffs]. cbv zeta.
  destruct (_ && _)%bool.
  { destruct (dryRun options); simpl.
    - apply ordered_of_notMarker.
      apply only_step; [apply only_world; reflexivity|intros _].
      apply only_cleanup_stop. discriminate.
    - apply ordered_marker. apply only_cleanup_stop. reflexivity. }
  destruct (dryRun options).
  { apply ordered_of_notMarker.
    apply only_step; [apply only_scanMigrations; discriminate|intros _].
    apply only_cleanup_stop. discriminate. }
  destruct (negb (confirmUpgrade env false)).
  { apply ordered_of_notMarker. apply only_cleanup_stop. discriminate. }
  apply ordered_step; [apply only_copyAll; discriminate|intros _].
  apply ordered_step.
  { apply yields_if; [|apply only_world; reflexivity].
    apply only_step; [apply only_emit; discriminate|intros _; apply only_change]. }
  intros _. apply ordered_marker.
  apply only_step; [apply only_scanMigrations; reflexivity|intros _].
  apply only_cleanup. reflexivity.
Qed.

Lemma ordered_upgrade : yields ordered (upgrade h env options).
Proof.
  unfold upgrade.
  apply ordered_step;
    [apply only_world; intros w; apply readVelocityConfig_world|].
  intros [config|]; [|apply ordered_of_notMarker, only_world; reflexivity].
  destruct (_ && _)%bool; [apply ordered_of_notMarker, only_world; reflexivity|].
  unfold withTemplate.
  apply ordered_step; [apply only_emit; discriminate|intros _].
  intros w. destruct (downloadTemplate env (tempDir env) (fs w)) as [fs1|].
  - assert (H : yields ordered
                  (bind (loadManifest h (tempDir env) config)
                        (fun manifest => gate h env options config manifest))).
    { apply ordered_step; [apply only_world, loadManifest_world|].
      intros manifest. unfold gate.
      repeat case_match;
        try (apply ordered_of_notMarker, only_cleanup_stop; discriminate).
      apply ordered_diffAndApply. }
    destruct (H (mkWorld fs1 (log w))) as (evs & Hlog & Hord).
    exists evs. split; [exact Hlog|exact Hord].
  - apply ordered_of_notMarker, only_cleanup_stop. discriminate.
Qed.

Lemma ordered_split evs pre post :
  (exists pre0 post0,
      evs = pre0 ++ post0 /\ Forall notMarker pre0
      /\ (post0 = [] \/ exists rest, post0 = EvWriteConfig :: rest
                                     /\ Forall notWrite rest)) ->
  evs = pre ++ EvWriteConfig :: post ->
  (EvWriteConfig ∉ pre) /\ Forall notWrite post.
Proof.
  intros (pre0 & post0 & -> & Hpre0 & Hpost0). revert pre.
  induction Hpre0 as [|y pre0 Hy Hpre0 IH]; intros pre Heq.
  - simpl in Heq. destruct Hpost0 as [->|(rest & -> & Hrest)].
    + destruct pre; discriminate.
    + destruct pre as [|x pre].
      * injection Heq as <-. split; [apply not_elem_of_nil|exact Hrest].
      * injection Heq as <- ->. apply Forall_app in Hrest as [_ Hrest].
        apply Forall_cons in Hrest as [Hw _]. discriminate.
  - destruct pre as [|x pre].
    + injection Heq as -> _. exfalso. apply Hy. reflexivity.
    + injection Heq as <- Heq. destruct (IH pre Heq) as [Hno Hq].
      split; [|exact Hq]. apply not_elem_of_cons. split; [|exact Hno].
      intros E. apply Hy. symmetry. exact E.
Qed.

(** X19: the version marker is what a run writes last: it is written at
    most once, and once it is written no file is copied and no dependency is
    merged any more, whichever way the run ends. *)
Theorem upgrade_marker_written_last :
  forall (w : world),
    exists evs,
      log (upgrade h env options w).2 = log w ++ evs
      /\ forall pre post,
           evs = pre ++ EvWriteConfig :: post ->
           (EvWriteConfig ∉ pre) /\ forall e, e ∈ post -> isWrite e = false.
Proof.
  intros w. destruct (ordered_upgrade w) as (evs & Hlog & Hord).
  exists evs. split; [exact Hlog|].
  intros pre post Heq. destruct (ordered_split evs pre post Hord Heq) as [Hno Hq].
  split; [exact Hno|]. intros e He.
  exact (proj1 (Forall_forall _ _) Hq e He).
Qed.

End Order.

Section CompleteRun.

Import Fs Upgrade.

Lemma bind_inr {A B} (m : M A) (k : A -> M B) w b w' :
  bind m k w = (inr b, w') ->
  exists a w1, m w = (inr a, w1) /\ k a w1 = (inr b, w').
Proof. unfold bind. destruct (m w) as [[o|a] w1]; [discriminate|eauto]. Qed.

Lemma emit_inr e w w' :
  emit e w = (inr tt, w') -> fs w' = fs w /\ log w' = log w ++ [e].
Proof. unfold emit. intros [= <-]. auto. Qed.

Lemma try_inr {A} (f : node -> option A) w a w' :
  try f w = (inr a, w') -> w' = w /\ f (fs w) = Some a.
Proof. unfold try. destruct (f (fs w)); [|discriminate]. intros [= <- <-]. auto. Qed.

Lemma change_inr f w w' :
  change f w = (inr tt, w') -> f (fs w) = Some (fs w') /\ log w' = log w.
Proof. unfold change. destruct (f (fs w)); [|discriminate]. intros [= <-]. auto. Qed.

Lemma writeVelocityConfig_inr h dir config w w' :
  writeVelocityConfig h dir config w = (inr tt, w') ->
  readFileSync (fs w') (Path.join dir CONFIG_FILENAME)
  = Some (stringifyConfig h config ++ newline)%string
  /\ log w' = log w ++ [EvWriteConfig].
Proof.
  unfold writeVelocityConfig, writeJson. intros H.
  apply bind_inr in H as ([] & w1 & He & Hc).
  apply emit_inr in He as [Hfs Hlog]. apply change_inr in Hc as [Hw Hlog'].
  rewrite Hfs in Hw. split; [|congruence].
  eapply readFileSync_writeFileSync. exact Hw.
Qed.

Lemma copyAll_inr targetDir tmp diffs :
  forall w w',
    copyAll targetDir tmp diffs w = (inr tt, w') ->
    log w' = log w ++ ((fun d => EvCopy (Path.join tmp (path d))
                                        (Path.join targetDir (path d))) <$> diffs).
Proof.
  induction diffs as [|d diffs IH]; intros w w' H.
  - injection H as <-. simpl. rewrite app_nil_r. reflexivity.
  - cbn [copyAll] in H. apply bind_inr in H as ([] & w1 & H1 & H).
    apply copyOne_effect in H1 as (_ & _ & Hlog & _).
    rewrite (IH _ _ H), Hlog, <- app_assoc. reflexivity.
Qed.

Lemma cleanup_inr env dir w w' q c :
  cleanup env dir w = (inr tt, w') ->
  log w' = log w ++ [EvCleanup dir]
  /\ (~ Path.segs dir `prefix_of` q ->
      lookup (fs w) q = Some (File c) -> lookup (fs w') q = Some (File c)).
Proof.
  unfold cleanup. intros [= <-]. split; [reflexivity|]. simpl.
  intros Hpre Hq.
  destruct (existsSync (fs w) dir); [destruct (rmThrows env)|]; try exact Hq.
  apply lookup_file_remove_at; assumption.
Qed.

(** X20: a run that goes through all steps to the end of [upgrade] was
    confirmed and was no dry run; the download succeeded, the manifest loaded
    from it passed the version gate and has another version than the
    project, and the diff returned; the run logged the download, the diff,
    one copy per added or modified file of the diff, the dependency merge
    exactly when the manifest has dependency changes, the write of the
    version marker, the scan and the cleanup, in this order; and afterwards
    (the marker not lying in the temporary directory) the marker holds the
    version of the manifest, today as its date of update, and the date of
    creation and the features that it had. *)
Theorem upgrade_complete_run :
  forall (h : Host) (env : Env) (options : UpgradeOptions) (w w' : world)
         (config : VelocityConfig),
    let tmp := tempDir env in
    let configPath := Path.join (targetDir options) CONFIG_FILENAME in
    readVelocityConfig h (targetDir options) w = (inr (Some config), w) ->
    ~ Path.segs tmp `prefix_of` Path.segs configPath ->
    upgrade h env options w = (inr tt, w') ->
    dryRun options = false /\ proceedAnswer env = true
    /\ exists (fs1 : node) (manifest : UpgradeManifest) (diffs : list FileDiff),
         let w1 := mkWorld fs1 (log w ++ [EvDownload tmp]) in
         downloadTemplate env tmp (fs w) = Some fs1
         /\ loadManifest h tmp config w1 = (inr manifest, w1)
         /\ Version.isVersionLessThan CLI_VERSION (minCliVersion manifest) = false
         /\ manifest_version manifest <> version config
         /\ Diff.diffProjects fs1 (targetDir options) tmp manifest = Some diffs
         /\ log w'
            = log w ++ [EvDownload tmp; EvDiff]
              ++ ((fun d => EvCopy (Path.join tmp (path d))
                                   (Path.join (targetDir options) (path d)))
                    <$> List.filter isChanged diffs)
              ++ (if hasDepChanges manifest then [EvMergeDeps] else [])
              ++ [EvWriteConfig; EvScan; EvCleanup tmp]
         /\ readFileSync (fs w') configPath
            = Some (stringifyConfig h
                      (mkVelocityConfig (manifest_version manifest)
                         (createdAt config) (today env) (features config))
                    ++ newline)%string.
Proof.
  intros h env options w w' config tmp configPath Hread Hout Hrun.
  unfold upgrade in Hrun. apply bind_inr in Hrun as (cfg & w0 & Hr & Hrun).
  rewrite Hread in Hr. injection Hr as <- <-.
  destruct (_ && _)%bool; [discriminate|].
  unfold withTemplate in Hrun. apply bind_inr in Hrun as ([] & w0 & He & Hrun).
  unfold emit in He. injection He as <-. cbn [fs log] in Hrun. fold tmp in Hrun.
  destruct (downloadTemplate env tmp (fs w)) as [fs1|] eqn:Hd.
  2:{ apply bind_inr in Hrun as (? & ? & _ & Hrun). discriminate. }
  apply bind_inr in Hrun as (manifest & w2 & Hm & Hrun).
  pose proof (loadManifest_world h tmp config
                (mkWorld fs1 (log w ++ [EvDownload tmp]))) as Hw2.
  rewrite Hm in Hw2. simpl in Hw2. subst w2.
  unfold gate in Hrun.
  destruct (Version.isVersionLessThan CLI_VERSION (minCliVersion manifest))
    eqn:Hgate.
  { apply bind_inr in Hrun as (? & ? & _ & Hrun). discriminate. }
  destruct (String.eqb_spec (version config) (manifest_version manifest))
    as [|Hversion].
  { apply bind_inr in Hrun as (? & ? & _ & Hrun). discriminate. }
  unfold diffAndApply in Hrun. fold tmp in Hrun.
  apply bind_inr in Hrun as ([] & w3 & He & Hrun).
  apply emit_inr in He as [Hfs3 Hlog3]. simpl in Hfs3, Hlog3.
  apply bind_inr in Hrun as (diffs & w4 & Ht & Hrun).
  apply try_inr in Ht as [-> Hdiff]. rewrite Hfs3 in Hdiff. cbv zeta in Hrun.
  destruct (_ && _)%bool.
  { apply bind_inr in Hrun as (? & ? & _ & Hrun).
    apply bind_inr in Hrun as (? & ? & _ & Hrun). discriminate. }
  destruct (dryRun options) eqn:Hdry.
  { apply bind_inr in Hrun as (? & ? & _ & Hrun).
    apply bind_inr in Hrun as (? & ? & _ & Hrun). discriminate. }
  simpl in Hrun. destruct (proceedAnswer env) eqn:Hyes; simpl in Hrun.
  2:{ apply bind_inr in Hrun as (? & ? & _ & Hrun). discriminate. }
  split; [reflexivity|]. split; [reflexivity|].
  apply bind_inr in Hrun as ([] & w5 & Hcopy & Hrun).
  apply copyAll_inr in Hcopy.
  apply bind_inr in Hrun as ([] & w6 & Hmerge & Hrun).
  assert (Hlog6 : log w6 = log w5 ++ (if hasDepChanges manifest
                                      then [EvMergeDeps] else [])).
  { destruct (hasDepChanges manifest).
    - apply bind_inr in Hmerge as ([] & w7 & He & Hc).
      apply emit_inr in He as [_ He]. apply change_inr in Hc as [_ Hc].
      congruence.
    - injection Hmerge as <-. rewrite app_nil_r. reflexivity. }
  apply bind_inr in Hrun as ([] & w7 & Hwrite & Hrun).
  apply writeVelocityConfig_inr in Hwrite as [Hfile Hlog7].
  apply bind_inr in Hrun as (matches & w8 & Hscan & Hrun).
  unfold scanMigrations in Hscan.
  apply bind_inr in Hscan as ([] & w9 & He & Ht).
  apply emit_inr in He as [Hfs9 Hlog9]. apply try_inr in Ht as [-> _].
  apply readFileSync_lookup in Hfile as [Hl Htr].
  destruct (cleanup_inr env tmp w9 w' (Path.segs configPath)
              (Some (stringifyConfig h (bumped env config manifest) ++ newline)%string)
              Hrun)
    as [Hlog' Hkeep].
  exists fs1, manifest, diffs. cbv zeta.
  split; [reflexivity|]. split; [exact Hm|]. split; [exact Hgate|].
  split; [congruence|]. split; [exact Hdiff|]. split.
  - rewrite Hlog', Hlog9, Hlog7, Hlog6, Hcopy, Hlog3.
    rewrite <- !app_assoc. reflexivity.
  - apply lookup_readFileSync; [|exact Htr].
    apply Hkeep; [exact Hout|]. rewrite Hfs9. exact Hl.
Qed.

Lemma upgrade_complete_run_witness :
  let env := Sample.envWith "2.0.0" false in
  let w := mkWorld (Sample.diskBefore "site") [] in
  let w' := (upgrade Sample.host env Sample.options w).2 in
  dryRun Sample.options = false /\ proceedAnswer env = true
  /\ exists (fs1 : node) (manifest : UpgradeManifest) (diffs : list FileDiff),
       let w1 := mkWorld fs1 (log w ++ [EvDownload (tempDir env)]) in
       downloadTemplate env (tempDir env) (fs w) = Some fs1
       /\ loadManifest Sample.host (tempDir env)
            (mkVelocityConfig "1.0.0" "2024-01-01" "2024-01-01" Sample.features0) w1
          = (inr manifest, w1)
       /\ Version.isVersionLessThan CLI_VERSION (minCliVersion manifest) = false
       /\ manifest_version manifest <> "1.0.0"%string
       /\ Diff.diffProjects fs1 Sample.project (tempDir env) manifest = Some diffs
       /\ log w'
          = [EvDownload (tempDir env); EvDiff]
            ++ ((fun d => EvCopy (Path.join (tempDir env) (path d))
                                 (Path.join Sample.project (path d)))
                  <$> List.filter isChanged diffs)
            ++ (if hasDepChanges manifest then [EvMergeDeps] else [])
            ++ [EvWriteConfig; EvScan; EvCleanup (tempDir env)]
       /\ readFileSync (fs w') (Path.join Sample.project CONFIG_FILENAME)
          = Some (stringifyConfig Sample.host
                    (mkVelocityConfig (manifest_version manifest)
                       "2024-01-01" "2026-01-01" Sample.features0)
                  ++ newline)%string.
Proof.
  intros env w w'.
  apply (upgrade_complete_run Sample.host env Sample.options w w'
           (mkVelocityConfig "1.0.0" "2024-01-01" "2024-01-01" Sample.features0)).
  - vm_compute. reflexivity.
  - intros [k Hk]. vm_compute in Hk. discriminate Hk.
  - vm_compute. reflexivity.
Defined.

End CompleteRun.

Section Fallback.

Import Fs Upgrade.

(** X21: when the downloaded template has neither a manifest nor a package
    descriptor, the fallback manifest takes the version of the project
    itself, so the run ends as already up to date whatever that version is:
    it returns after the cleanup, with nothing diffed, copied or written. *)
Theorem upgrade_fallback_without_version :
  forall (h : Host) (env : Env) (options : UpgradeOptions) (w : world)
         (config : VelocityConfig) (fs1 : node),
    let tmp := tempDir env in
    readVelocityConfig h (targetDir options) w = (inr (Some config), w) ->
    (uncommitted env && negb (warnDirtyGit env (yes options)))%bool = false ->
    downloadTemplate env tmp (fs w) = Some fs1 ->
    existsSync fs1 (Path.join tmp "velocity-manifest.json") = false ->
    existsSync fs1 (Path.join tmp "package.json") = false ->
    exists w',
      upgrade h env options w = (inl Returned, w')
      /\ log w' = log w ++ [EvDownload tmp; EvCleanup tmp]
      /\ fs w' = (cleanup env tmp (mkWorld fs1 [])).2.(fs).
Proof.
  intros h env options w config fs1 tmp Hread Hgit Hd Hm Hp.
  unfold upgrade, bind. rewrite Hread, Hgit.
  unfold withTemplate, bind, emit. cbn [fs log]. fold tmp. rewrite Hd.
  unfold loadManifest, bind, ask, ret. cbn [fs]. rewrite Hm.
  cbn [fs]. rewrite Hp.
  unfold gate. cbn [minCliVersion manifest_version].
  change (Version.isVersionLessThan CLI_VERSION "1.0.0") with false.
  cbv iota. rewrite String.eqb_refl.
  unfold bind, cleanup, stop. cbn [fs log].
  eexists. split; [reflexivity|]. cbn [fs log]. split; [|reflexivity].
  rewrite <- app_assoc. reflexivity.
Qed.

Lemma upgrade_fallback_without_version_witness :
  let env := mkEnv false false (Path.parse "/tmp") 1%N (Some Sample.freshTree)
                   true false "2026-01-01" (fun _ => false) in
  let w := mkWorld (Sample.diskBefore "site") [] in
  exists w',
    upgrade Sample.host env Sample.options w = (inl Returned, w')
    /\ log w' = [EvDownload (tempDir env); EvCleanup (tempDir env)].
Proof.
  intros env w.
  destruct (upgrade_fallback_without_version Sample.host env Sample.options w
              (mkVelocityConfig "1.0.0" "2024-01-01" "2024-01-01" Sample.features0)
              (default (fs w) (downloadTemplate env (tempDir env) (fs w))))
    as (w' & Hrun & Hlog & _).
  - vm_compute. reflexivity.
  - reflexivity.
  - vm_compute. reflexivity.
  - vm_compute. reflexivity.
  - vm_compute. reflexivity.
  - exists w'. split; [exact Hrun|exact Hlog].
Defined.

End Fallback.

(** ** What the scanner reports *)

Section ScanMore.

Import Fs Migrations ScanSpec TreeSpec.

Lemma statSync_lookup fs p n :
  statSync fs p = Some n -> lookup fs (Path.segs p) = Some n.
Proof.
  unfold statSync. destruct (lookup fs (Path.segs p)) as [[c|es]|]; try tauto.
  destruct (Path.trailing p); [discriminate|tauto].
Qed.

(** A visited file lies at the directory walked or below it. *)
Lemma visited_below n dir file :
  visited n dir file ->
  wfNode n = true ->
  exists more c,
    lookup n more = Some (File c)
    /\ Forall (fun s => validName s = true) more
    /\ (more = [] /\ file = dir
        \/ more <> [] /\ file = Path.mk (Path.segs dir ++ more) false).
Proof.
  induction 1 as [c dir|es dir name c Hin|es dir name sub file Hin H1 H2 Hv IH];
    intros Hwf.
  - exists [], c. split; [reflexivity|]. split; [constructor|]. left. auto.
  - apply wfNode_dir in Hwf as [Hnd Hall].
    destruct (proj1 (Forall_forall _ _) Hall _ Hin) as [Hname _]. simpl in Hname.
    exists [name], c. split.
    { cbn [lookup]. rewrite (find_entry_elem _ _ _ Hnd Hin). reflexivity. }
    split; [repeat constructor; exact Hname|]. right.
    split; [discriminate|]. apply join_name, Hname.
  - apply wfNode_dir in Hwf as [Hnd Hall].
    destruct (proj1 (Forall_forall _ _) Hall _ Hin) as [Hname Hsub].
    simpl in Hname, Hsub.
    destruct (IH Hsub) as (more & c & Hl & Hvalid & Hcase).
    exists (name :: more), c. split.
    { cbn [lookup]. rewrite (find_entry_elem _ _ _ Hnd Hin). exact Hl. }
    split; [constructor; assumption|]. right. split; [discriminate|].
    destruct Hcase as [[-> _]|[_ ->]]; [discriminate|].
    rewrite join_name by exact Hname. simpl. rewrite <- app_assoc. reflexivity.
Qed.

Lemma scanLoop_entry h unlistable fs targetDir migrations :
  forall results0 results t matches,
    scanLoop h unlistable fs targetDir results0 migrations = Some results ->
    results !! t = Some matches ->
    results0 !! t = Some matches
    \/ exists m, m ∈ migrations /\ title m = t
                 /\ scanStep h unlistable fs targetDir m = Some matches.
Proof.
  induction migrations as [|m migrations IH]; intros results0 results t matches H Ht.
  - injection H as <-. left. exact Ht.
  - cbn [scanLoop] in H.
    destruct (scanStep h unlistable fs targetDir m) as [ms|] eqn:Hstep;
      [|discriminate].
    simpl in H. destruct (IH _ _ _ _ H Ht) as [H0|(m' & Hm' & Htitle & Hs)].
    + destruct (decide (title m = t)) as [E|Hne].
      * rewrite E, lookup_insert_eq in H0. injection H0 as <-.
        right. exists m. split; [left|auto].
      * rewrite lookup_insert_ne in H0 by exact Hne. left. exact H0.
    + right. exists m'. split; [right; exact Hm'|auto].
Qed.

(** X22: every path that the scan records for a title resolves, against
    the project directory (a directory of a well-formed tree, the search
    paths having no [..] piece), to a file that can be read and whose content
    matches the compiled pattern of a migration step with that title. *)
Theorem scan_matches_are_files :
  forall (h : Host) (unlistable : Path.t -> bool) (fs : node) (targetDir : Path.t)
         (root : list (string * node))
         (migrations : list MigrationStep) (results : gmap string (list string))
         (t : string) (matches : list string) (q : string),
    lookup fs (Path.segs targetDir) = Some (Dir root) ->
    wfNode (Dir root) = true ->
    (forall m p, m ∈ migrations -> p ∈ searchPathsOf m -> ".." ∉ Path.split p) ->
    scanForMigrationPatterns h unlistable fs targetDir migrations = Some results ->
    results !! t = Some matches ->
    q ∈ matches ->
    exists m src test content,
      m ∈ migrations /\ title m = t /\ pattern m = Some src
      /\ RegExp h src = Some test
      /\ readFileSync fs (Path.join targetDir q) = Some content
      /\ test content = true.
Proof.
  intros h unlistable fs targetDir root migrations results t matches q
         Hroot Hwf Hpaths Hscan Ht Hq.
  destruct (scanLoop_entry _ _ _ _ _ _ _ _ _ Hscan Ht)
    as [H0|(m & Hm & Htitle & Hstep)]; [rewrite lookup_empty in H0; discriminate|].
  unfold scanStep in Hstep.
  destruct (pattern m) as [src|] eqn:Hpat.
  2:{ injection Hstep as <-. apply elem_of_nil in Hq as []. }
  destruct (String.eqb src "").
  { injection Hstep as <-. apply elem_of_nil in Hq as []. }
  destruct (RegExp h src) as [test|] eqn:Hre; [|discriminate].
  cbn [mbind option_bind] in Hstep.
  destruct (mapM (scanSearchPath unlistable test fs targetDir) (searchPathsOf m))
    as [found|] eqn:Hfound; [|discriminate].
  cbn in Hstep. injection Hstep as <-.
  apply list_elem_of_In in Hq.
  apply (in_concat_mapM _ _ _ q Hfound) in Hq as (p & l & Hp & Hpl & Hq).
  apply (scanSearchPath_sound _ _ _ _ _ _ _ Hpl) in Hq
    as (file & n & content & Hst & Hv & Hr & Htest & ->).
  exists m, src, test, content. repeat (split; [assumption|]).
  split; [|exact Htest].
  pose proof (Hpaths m p Hm Hp) as Hno.
  assert (Hsegs : Path.segs (Path.join targetDir p)
                  = Path.segs targetDir ++ clean (Path.split p)).
  { rewrite segs_join. apply normalize_onto_clean, Hno. }
  pose proof (clean_valid _ Hno (split_pieces_no_slash p)) as Hpre.
  pose proof (statSync_lookup _ _ _ Hst) as Hn.
  rewrite Hsegs, lookup_app, Hroot in Hn. simpl in Hn.
  destruct (lookup_wf _ _ _ Hwf Hn) as [_ Hwfn].
  destruct (visited_below _ _ _ Hv Hwfn) as (more & c & Hl & Hvalid & Hcase).
  assert (Hfile : Path.join targetDir (Path.relative targetDir file) = file);
    [|rewrite Hfile; exact Hr].
  destruct Hcase as [[-> ->]|[Hne ->]].
  - simpl in Hl. injection Hl as ->.
    assert (Hnn : clean (Path.split p) <> []).
    { intros E. rewrite E in Hn. simpl in Hn. discriminate. }
    rewrite (relative_concat _ _ _ Hsegs), join_concat by assumption.
    apply readFileSync_lookup in Hr as [_ Htr].
    destruct (Path.join targetDir p) as [segs trailing]. simpl in *.
    congruence.
  - rewrite (relative_concat _ _ (clean (Path.split p) ++ more)).
    + rewrite join_concat.
      * rewrite Hsegs, <- app_assoc. reflexivity.
      * apply Forall_app. split; assumption.
      * destruct (clean (Path.split p)); [exact Hne|discriminate].
    + simpl. rewrite Hsegs, <- app_assoc. reflexivity.
Qed.

Lemma scan_matches_are_files_witness :
  exists m src test content,
    m ∈ [oldApiStep] /\ title m = "Rename the old API"%string
    /\ pattern m = Some src
    /\ RegExp Sample.host src = Some test
    /\ readFileSync Sample.treeUnreadable (Path.join Sample.project "src/b.ts")
       = Some content
    /\ test content = true.
Proof.
  apply (scan_matches_are_files Sample.host allListable Sample.treeUnreadable
           Sample.project
           [("src", Dir [("secret.ts", File None);
                         ("node_modules", Dir [("dep.ts", File (Some "const b"))]);
                         ("b.ts", File (Some "export const b = 0"))])]
           [oldApiStep]
           (default ∅ (scanForMigrationPatterns Sample.host allListable
                         Sample.treeUnreadable Sample.project [oldApiStep]))
           "Rename the old API" ["src/b.ts"] "src/b.ts").
  - reflexivity.
  - vm_compute. reflexivity.
  - intros m p Hm Hp Hdots. apply list_elem_of_singleton in Hm as ->.
    apply list_elem_of_singleton in Hp as ->.
    vm_compute in Hdots. apply list_elem_of_In in Hdots. simpl in Hdots.
    repeat (destruct Hdots as [Hdots|Hdots]; [discriminate Hdots|]).
    exact Hdots.
  - vm_compute. reflexivity.
  - vm_compute. reflexivity.
  - left.
Defined.

End ScanMore.
